(** * Java stack-trace extractor, classifier and renderer

    A shallow embedding of [src/stackTraceParser.ts] (class
    [StackTraceParser]) and the properties its specification states.

    Strings are JavaScript strings: finite sequences of UTF-16 code units.
    A code unit is a natural number ([N]); every function below is defined
    for arbitrary sequences, so nothing is assumed about well-formed
    surrogate pairs.  Regular expressions are embedded as syntax trees and
    run by a backtracking matcher that follows the ECMAScript semantics
    for the constructs the program uses (greedy quantifiers, ordered
    alternation, capture groups, [^] and [$] without the multiline flag).
    Where a comment quotes a pattern of the source, a blank stands
    between a star and the closing parenthesis that follows it. *)

From Stdlib Require Import Ascii String DecimalString.
From Stdlib Require Import List ZArith NArith Lia Bool Arith.
Import ListNotations.

Set Implicit Arguments.

(** ** Characters and strings *)

Definition char := N.
Definition jsstring := list char.

(** A source literal, written as a Rocq string. *)
Definition str (s : string) : jsstring :=
  map N_of_ascii (list_ascii_of_string s).
Arguments str s%_string.

Definition c_tab : char := 9%N.
Definition c_lf : char := 10%N.
Definition c_cr : char := 13%N.
Definition c_space : char := 32%N.
Definition c_dquote : char := 34%N.
Definition c_dollar : char := 36%N.
Definition c_squote : char := 39%N.
Definition c_amp : char := 38%N.
Definition c_lparen : char := 40%N.
Definition c_rparen : char := 41%N.
Definition c_dot : char := 46%N.
Definition c_colon : char := 58%N.
Definition c_lt : char := 60%N.
Definition c_gt : char := 62%N.
Definition c_backslash : char := 92%N.
Definition c_underscore : char := 95%N.

Local Open Scope N_scope.

Definition in_range (lo hi c : char) : bool := (N.leb lo c && N.leb c hi)%bool.

(** ECMAScript LineTerminator: LF, CR, LS, PS. *)
Definition is_line_terminator (c : char) : bool :=
  (N.eqb c 10 || N.eqb c 13 || N.eqb c 8232 || N.eqb c 8233)%bool.

(** ECMAScript WhiteSpace or LineTerminator: the class [\s], and the
    characters removed by [trim] and [trimStart]. *)
Definition is_ws (c : char) : bool :=
  (N.eqb c 9 || N.eqb c 10 || N.eqb c 11 || N.eqb c 12 || N.eqb c 13
   || N.eqb c 32 || N.eqb c 160 || N.eqb c 5760 || in_range 8192 8202 c
   || N.eqb c 8232 || N.eqb c 8233 || N.eqb c 8239 || N.eqb c 8287
   || N.eqb c 12288 || N.eqb c 65279)%bool.

Definition is_digit (c : char) : bool := in_range 48 57 c.
Definition is_lower (c : char) : bool := in_range 97 122 c.
Definition is_upper (c : char) : bool := in_range 65 90 c.
Definition is_hex (c : char) : bool :=
  (is_digit c || in_range 97 102 c || in_range 65 70 c)%bool.

(** [[a-zA-Z_$]] *)
Definition is_ident_start (c : char) : bool :=
  (is_lower c || is_upper c || N.eqb c c_underscore || N.eqb c c_dollar)%bool.
(** [[a-zA-Z0-9_$]] *)
Definition is_ident_part (c : char) : bool :=
  (is_lower c || is_upper c || is_digit c || N.eqb c c_underscore
   || N.eqb c c_dollar)%bool.
(** [[a-zA-Z0-9_$.]] *)
Definition is_ident_dot (c : char) : bool :=
  (is_ident_part c || N.eqb c c_dot)%bool.

Local Close Scope N_scope.

Fixpoint dropWhile (p : char -> bool) (l : jsstring) : jsstring :=
  match l with
  | [] => []
  | c :: t => if p c then dropWhile p t else l
  end.

Definition trimStart (l : jsstring) : jsstring := dropWhile is_ws l.
Definition trimEnd (l : jsstring) : jsstring := rev (dropWhile is_ws (rev l)).
Definition trim (l : jsstring) : jsstring := trimEnd (trimStart l).

Definition is_empty (l : jsstring) : bool :=
  match l with [] => true | _ => false end.

Fixpoint jsstring_eqb (a b : jsstring) : bool :=
  match a, b with
  | [], [] => true
  | x :: a', y :: b' => (N.eqb x y && jsstring_eqb a' b')%bool
  | _, _ => false
  end.

(** [Array.prototype.join]. *)
Fixpoint join (sep : jsstring) (l : list jsstring) : jsstring :=
  match l with
  | [] => []
  | [x] => x
  | x :: t => x ++ sep ++ join sep t
  end.

(** [String.prototype.includes]. *)
Fixpoint starts_with (p l : jsstring) : bool :=
  match p, l with
  | [], _ => true
  | x :: p', y :: l' => (N.eqb x y && starts_with p' l')%bool
  | _ :: _, [] => false
  end.

Fixpoint includes (p l : jsstring) : bool :=
  (starts_with p l ||
   match l with
   | [] => false
   | _ :: t => includes p t
   end)%bool.

(** ** Regular expressions *)

Inductive regex : Type :=
| Eps : regex
| Cls : (char -> bool) -> regex
| Seq : regex -> regex -> regex
| Alt : regex -> regex -> regex
| Star : regex -> regex
| Group : nat -> regex -> regex
| Bol : regex
| Eol : regex.

Declare Scope re_scope.
Delimit Scope re_scope with re.
Bind Scope re_scope with regex.
Notation "a ;; b" := (Seq a b) (at level 61, right associativity) : re_scope.
Notation "a <|> b" := (Alt a b) (at level 62, right associativity) : re_scope.

Definition Chr (c : char) : regex := Cls (N.eqb c).
Definition Plus (r : regex) : regex := Seq r (Star r).
Definition Opt (r : regex) : regex := Alt r Eps.
Definition Lit (s : jsstring) : regex :=
  fold_right (fun c r => Seq (Chr c) r) Eps s.
Fixpoint Rep (n : nat) (r : regex) : regex :=
  match n with
  | O => Eps
  | S n' => Seq r (Rep n' r)
  end.

(** The matcher state: the index of the next character, the characters
    still to read, and the capture groups set so far (latest first). *)
Record mstate : Type := MState {
  pos : nat;
  rest : jsstring;
  caps : list (nat * jsstring)
}.

Definition advance (s : mstate) (t : jsstring) : mstate :=
  MState (S (pos s)) t (caps s).

Definition set_cap (n : nat) (v : jsstring) (s : mstate) : mstate :=
  MState (pos s) (rest s) ((n, v) :: caps s).

Fixpoint get_cap (n : nat) (cs : list (nat * jsstring)) : option jsstring :=
  match cs with
  | [] => None
  | (m, v) :: t => if Nat.eqb n m then Some v else get_cap n t
  end.

Definition orelse {A} (x : option A) (y : option A) : option A :=
  match x with
  | Some _ => x
  | None => y
  end.

(** The loop of a greedy star over a body matcher [ma], with continuation
    [k].  An iteration that consumes nothing is not considered, as in
    ECMAScript, so [n = length (rest s)] iterations are always enough. *)
Fixpoint star_iter (ma : (mstate -> option mstate) -> mstate -> option mstate)
    (k : mstate -> option mstate) (n : nat) (s : mstate) {struct n}
  : option mstate :=
  match n with
  | O => k s
  | S n' =>
      orelse
        (ma (fun s' =>
               if Nat.ltb (length (rest s')) (length (rest s))
               then star_iter ma k n' s' else None) s)
        (k s)
  end.

(** The backtracking matcher, in continuation-passing style: [rmatch r k s]
    tries the ways [r] can match at [s] in priority order and returns the
    first for which the continuation [k] succeeds.  A group records what
    its body consumed.  (ECMAScript also clears, at the start of an
    iteration of a star, the groups inside the star; the only such group
    of the program is never read.) *)
Fixpoint rmatch (r : regex) (k : mstate -> option mstate) (s : mstate)
  : option mstate :=
  match r with
  | Eps => k s
  | Cls p =>
      match rest s with
      | c :: t => if p c then k (advance s t) else None
      | [] => None
      end
  | Seq a b => rmatch a (rmatch b k) s
  | Alt a b => orelse (rmatch a k s) (rmatch b k s)
  | Star a => star_iter (rmatch a) k (length (rest s)) s
  | Group n a =>
      rmatch a (fun s' => k (set_cap n (firstn (pos s' - pos s) (rest s)) s')) s
  | Bol => if Nat.eqb (pos s) 0 then k s else None
  | Eol => match rest s with [] => k s | _ => None end
  end.

(** One attempt at a fixed start position. *)
Definition match_at (r : regex) (p : nat) (l : jsstring) : option mstate :=
  rmatch r (fun s => Some s) (MState p l []).

(** The result of a successful [exec]: where the match starts and ends and
    what the groups hold. *)
Record rmatch_result : Type := MResult {
  index : nat;
  end_index : nat;
  groups : list (nat * jsstring)
}.

(** Scan the start positions from [p] on, leftmost first. *)
Fixpoint search_from (r : regex) (p : nat) (l : jsstring)
  : option rmatch_result :=
  match match_at r p l with
  | Some s => Some (MResult p (pos s) (caps s))
  | None =>
      match l with
      | [] => None
      | _ :: t => search_from r (S p) t
      end
  end.

(** [re.exec(s)] / [s.match(re)] for a regular expression without the
    global flag, and [re.test(s)]. *)
Definition re_exec (r : regex) (l : jsstring) : option rmatch_result :=
  search_from r 0 l.

Definition re_test (r : regex) (l : jsstring) : bool :=
  match re_exec r l with Some _ => true | None => false end.

(** A group of a match; a group that did not take part reads as the empty
    string here (the program never reads such a group). *)
Definition group (n : nat) (m : rmatch_result) : jsstring :=
  match get_cap n (groups m) with Some v => v | None => [] end.

(** [s.substring(a, b)] for [a <= b]. *)
Definition substring (a b : nat) (l : jsstring) : jsstring :=
  firstn (b - a) (skipn a l).

Definition mk_result (q : nat) (s : mstate) : rmatch_result :=
  MResult q (pos s) (caps s).

(** [s.replace(re, repl)] for a regular expression without the global flag:
    only the leftmost match is replaced. *)
Definition replace_first (r : regex) (repl : jsstring) (l : jsstring)
  : jsstring :=
  match re_exec r l with
  | Some m => firstn (index m) l ++ repl ++ skipn (end_index m) l
  | None => l
  end.

(** [s.replace(re, f)] for a regular expression with the global flag.  The
    scan is written by recursion on the characters still to read: [skip]
    counts the characters of the last match not yet passed, [q] is the
    index of the head of [l].  After an empty match the scan moves on by
    one character, as ECMAScript prescribes. *)
Fixpoint replace_go (r : regex) (f : rmatch_result -> jsstring)
    (skip q : nat) (l : jsstring) : jsstring :=
  match l with
  | [] =>
      match skip with
      | O => match match_at r q [] with
             | Some s => f (mk_result q s)
             | None => []
             end
      | S _ => []
      end
  | c :: t =>
      match skip with
      | S k => replace_go r f k (S q) t
      | O =>
          match match_at r q l with
          | Some s =>
              if Nat.eqb (pos s) q
              then f (mk_result q s) ++ c :: replace_go r f 0 (S q) t
              else f (mk_result q s) ++ replace_go r f (pos s - q - 1) (S q) t
          | None => c :: replace_go r f 0 (S q) t
          end
      end
  end.

Definition replace_all (r : regex) (f : rmatch_result -> jsstring)
    (l : jsstring) : jsstring :=
  replace_go r f 0 0 l.

(** [s.split(re)] for a regular expression without groups: [piece] holds
    the characters of the current piece read so far. *)
Fixpoint split_go (r : regex) (skip q : nat) (piece l : jsstring)
  : list jsstring :=
  match l with
  | [] => [piece]
  | c :: t =>
      match skip with
      | S k => split_go r k (S q) piece t
      | O =>
          match match_at r q l with
          | Some s =>
              if Nat.eqb (pos s) q
              then if is_empty piece
                   then split_go r 0 (S q) [c] t
                   else piece :: split_go r 0 (S q) [c] t
              else piece :: split_go r (pos s - q - 1) (S q) [] t
          | None => split_go r 0 (S q) (piece ++ [c]) t
          end
      end
  end.

Definition re_split (r : regex) (l : jsstring) : list jsstring :=
  match l with
  | [] => match match_at r 0 [] with Some _ => [] | None => [[]] end
  | _ => split_go r 0 0 [] l
  end.

(** What a [while ((match = re.exec(input)) !== null) { ... }] loop over a
    global regular expression comes to, when its body either returns a
    value or falls through.  [exec] moves [lastIndex] to the end of the
    match; after an empty match [lastIndex] no longer moves and the loop
    finds the same match for ever, which is the outcome [Diverges]. *)
Inductive loop_result (A : Type) : Type :=
| Found : A -> loop_result A
| NotFound : loop_result A
| Diverges : loop_result A.
Arguments NotFound {A}.
Arguments Diverges {A}.

Fixpoint exec_loop {A} (r : regex) (body : rmatch_result -> option A)
    (skip q : nat) (l : jsstring) : loop_result A :=
  match l with
  | [] =>
      match skip with
      | O => match match_at r q [] with
             | Some s => match body (mk_result q s) with
                         | Some a => Found a
                         | None => Diverges
                         end
             | None => NotFound
             end
      | S _ => NotFound
      end
  | c :: t =>
      match skip with
      | S k => exec_loop r body k (S q) t
      | O =>
          match match_at r q l with
          | Some s =>
              match body (mk_result q s) with
              | Some a => Found a
              | None =>
                  if Nat.eqb (pos s) q then Diverges
                  else exec_loop r body (pos s - q - 1) (S q) t
              end
          | None => exec_loop r body 0 (S q) t
          end
      end
  end.

(** ** The line patterns *)

Local Open Scope re_scope.

Definition ws : regex := Cls is_ws.
Definition is_any (c : char) : bool := negb (is_line_terminator c).
Definition is_not (c x : char) : bool := negb (N.eqb x c).
Definition is_not2 (c d x : char) : bool := negb (N.eqb x c || N.eqb x d).
(** [.] *)
Definition any : regex := Cls is_any.
Definition digit : regex := Cls is_digit.
Definition ident_start : regex := Cls is_ident_start.
Definition ident_part : regex := Cls is_ident_part.
Definition ident_dot : regex := Cls is_ident_dot.
(** [[^c]] and [[^cd]] *)
Definition Not1 (c : char) : regex := Cls (is_not c).
Definition Not2 (c d : char) : regex := Cls (is_not2 c d).

(** [[a-zA-Z_$][a-zA-Z0-9_$.]*(?:\.[a-zA-Z_$][a-zA-Z0-9_$]* )*(?:Exception|Error)(?::\s*.+)?] *)
Definition exception_chain : regex :=
  ident_start ;; Star ident_dot ;;
  Star (Chr c_dot ;; ident_start ;; Star ident_part) ;;
  (Lit (str "Exception") <|> Lit (str "Error")) ;;
  Opt (Chr c_colon ;; Star ws ;; Plus any).

(** [/^(\s* )(Exception in thread .+|<chain>)\s*$/] *)
Definition exception_pattern : regex :=
  Bol ;; Group 1 (Star ws) ;;
  Group 2 ((Lit (str "Exception in thread ") ;; Plus any) <|> exception_chain) ;;
  Star ws ;; Eol.

(** [/^(\s* )at\s+([a-zA-Z_$][a-zA-Z0-9_$.]*\.[a-zA-Z_$][a-zA-Z0-9_$]* )\(([^)]+)\)\s*$/] *)
Definition at_pattern : regex :=
  Bol ;; Group 1 (Star ws) ;; Lit (str "at") ;; Plus ws ;;
  Group 2 (ident_start ;; Star ident_dot ;; Chr c_dot ;; ident_start ;;
           Star ident_part) ;;
  Chr c_lparen ;; Group 3 (Plus (Not1 c_rparen)) ;; Chr c_rparen ;;
  Star ws ;; Eol.

(** [/^(\s* )Caused by:\s*(<chain>)\s*$/] *)
Definition caused_by_pattern : regex :=
  Bol ;; Group 1 (Star ws) ;; Lit (str "Caused by:") ;; Star ws ;;
  Group 2 exception_chain ;; Star ws ;; Eol.

(** [/^(\s* )Suppressed:\s*(<chain>)\s*$/] *)
Definition suppressed_pattern : regex :=
  Bol ;; Group 1 (Star ws) ;; Lit (str "Suppressed:") ;; Star ws ;;
  Group 2 exception_chain ;; Star ws ;; Eol.

(** [/^(\s* )\.\.\.\s*\d+\s*more\s*$/] *)
Definition more_pattern : regex :=
  Bol ;; Group 1 (Star ws) ;; Lit (str "...") ;; Star ws ;; Plus digit ;;
  Star ws ;; Lit (str "more") ;; Star ws ;; Eol.

Definition STACK_TRACE_PATTERNS : list regex :=
  [exception_pattern; at_pattern; caused_by_pattern; suppressed_pattern;
   more_pattern].

(** [/^(.+):(\d+)$/] *)
Definition location_pattern : regex :=
  Bol ;; Group 1 (Plus any) ;; Chr c_colon ;; Group 2 (Plus digit) ;; Eol.

(** [/\r?\n/] *)
Definition newline_pattern : regex := Opt (Chr c_cr) ;; Chr c_lf.

Definition split_lines (l : jsstring) : list jsstring :=
  re_split newline_pattern l.

(** ** The data model *)

Inductive line_type : Type :=
| T_exception | T_at | T_caused_by | T_suppressed | T_more | T_unknown.

Definition line_type_eqb (a b : line_type) : bool :=
  match a, b with
  | T_exception, T_exception | T_at, T_at | T_caused_by, T_caused_by
  | T_suppressed, T_suppressed | T_more, T_more | T_unknown, T_unknown => true
  | _, _ => false
  end.

(** An optional field that is absent (or [undefined]) is [None]. *)
Record StackTraceLine : Type := mkLine {
  type : line_type;
  content : jsstring;
  className : option jsstring;
  methodName : option jsstring;
  fileName : option jsstring;
  lineNumber : option N;
  indent : Z
}.

Record ParsedStackTrace : Type := mkParsed {
  lines : list StackTraceLine;
  hasStackTrace : bool;
  extractedText : jsstring
}.

(** ** Classifying one line *)

(** [s.lastIndexOf(c)]: the index of the last occurrence, [-1] if none. *)
Fixpoint lastIndexOf_from (c : char) (i : Z) (found : Z) (l : jsstring) : Z :=
  match l with
  | [] => found
  | x :: t => lastIndexOf_from c (i + 1) (if N.eqb x c then i else found) t
  end.

Definition lastIndexOf (c : char) (l : jsstring) : Z :=
  lastIndexOf_from c 0 (-1) l.

(** [parseInt] on a string of decimal digits.  The result is the exact
    value; a JavaScript number holds it exactly up to 2^53. *)
Definition digit_value (c : char) : N := (c - 48)%N.

Definition parseInt_dec (l : jsstring) : N :=
  fold_left (fun acc c => (acc * 10 + digit_value c)%N) l 0%N.

Definition simple_line (t : line_type) (line : jsstring) (ind : Z)
  : StackTraceLine :=
  mkLine t line None None None None ind.

(** The class and the method of a frame, from its dotted method path
    (the three statements after [// Extract class and method]). *)
Definition split_method (fullMethod : jsstring) : jsstring * jsstring :=
  let lastDotIndex := lastIndexOf c_dot fullMethod in
  let className :=
    if (lastDotIndex >? 0)%Z
    then substring 0 (Z.to_nat lastDotIndex) fullMethod else [] in
  let methodName :=
    if (lastDotIndex >? 0)%Z
    then skipn (Z.to_nat (lastDotIndex + 1)) fullMethod else fullMethod in
  (className, methodName).

(** The file name and the line number of a frame, from its location (the
    statements after [// Extract file name and line number]). *)
Definition split_location (location : jsstring) : jsstring * option N :=
  match re_exec location_pattern location with
  | Some locationMatch =>
      (group 1 locationMatch, Some (parseInt_dec (group 2 locationMatch)))
  | None => (location, None)
  end.

(** [parseStackTraceLine].  Its declared result type admits [null], but
    every path returns an object, which is what the model returns. *)
Definition parseStackTraceLine (line : jsstring) : StackTraceLine :=
  let indent := (Z.of_nat (length line) - Z.of_nat (length (trimStart line)))%Z in
  match re_exec exception_pattern line with
  | Some _ => simple_line T_exception line indent
  | None =>
  match re_exec at_pattern line with
  | Some atMatch =>
      let fullMethod := group 2 atMatch in
      let location := group 3 atMatch in
      let '(className, methodName) := split_method fullMethod in
      let '(fileName, lineNumber) := split_location location in
      mkLine T_at line (Some className) (Some methodName) (Some fileName)
             lineNumber indent
  | None =>
  match re_exec caused_by_pattern line with
  | Some _ => simple_line T_caused_by line indent
  | None =>
  match re_exec suppressed_pattern line with
  | Some _ => simple_line T_suppressed line indent
  | None =>
  match re_exec more_pattern line with
  | Some _ => simple_line T_more line indent
  | None => simple_line T_unknown line indent
  end end end end end.

(** ** Parsing the extracted text *)

(** The body of the [for] loop of [parseStackTrace]: blank lines are
    skipped, the others are classified and pushed. *)
Definition parse_step (parsedLines : list StackTraceLine) (line : jsstring)
  : list StackTraceLine :=
  if is_empty (trim line) then parsedLines
  else parsedLines ++ [parseStackTraceLine line].

Definition parseStackTrace (stackTraceText : jsstring) : ParsedStackTrace :=
  let lines := split_lines stackTraceText in
  let parsedLines := fold_left parse_step lines [] in
  let hasValidStackTraceLines :=
    existsb (fun line => negb (line_type_eqb (type line) T_unknown))
            parsedLines in
  mkParsed parsedLines hasValidStackTraceLines stackTraceText.

(** ** Trace-likeness *)

(** [isStackTraceLine]. *)
Definition isStackTraceLine (line : jsstring) : bool :=
  let trimmed := trim line in
  if is_empty trimmed then false
  else existsb (fun pattern => re_test pattern line) STACK_TRACE_PATTERNS.

(** [/(?:Exception|Error)(?::\s*|$)/], [/^Exception in thread/] and
    [/^\s*at\s+[a-zA-Z_$]/]. *)
Definition exception_token_pattern : regex :=
  (Lit (str "Exception") <|> Lit (str "Error")) ;;
  ((Chr c_colon ;; Star ws) <|> Eol).
Definition thread_prefix_pattern : regex :=
  Bol ;; Lit (str "Exception in thread").
Definition at_prefix_pattern : regex :=
  Bol ;; Star ws ;; Lit (str "at") ;; Plus ws ;; ident_start.

(** The variables of the loop of [containsStackTracePatterns]. *)
Record scan_state : Type := mkScan {
  stackTraceLineCount : nat;
  hasExceptionLine : bool;
  hasAtLine : bool
}.

Definition looks_like_exception (line : jsstring) : bool :=
  let trimmed := trim line in
  (re_test exception_token_pattern trimmed
   || re_test thread_prefix_pattern trimmed)%bool.

Definition looks_like_at (line : jsstring) : bool :=
  re_test at_prefix_pattern (trim line).

Definition scan_step (st : scan_state) (line : jsstring) : scan_state :=
  if isStackTraceLine line then
    mkScan (S (stackTraceLineCount st))
           (if looks_like_exception line then true else hasExceptionLine st)
           (if looks_like_at line then true else hasAtLine st)
  else st.

Definition containsStackTracePatterns (content : jsstring) : bool :=
  let lines := split_lines content in
  let st := fold_left scan_step lines (mkScan 0 false false) in
  (Nat.leb 2 (stackTraceLineCount st)
   || (hasExceptionLine st && hasAtLine st)
   || Nat.leb 3 (stackTraceLineCount st))%bool.

(** ** Unescaping *)

Definition hex_value (c : char) : N :=
  if is_digit c then (c - 48)%N
  else if in_range 97%N 102%N c then (c - 87)%N
  else (c - 55)%N.

(** [parseInt(hex, 16)] on a string of hexadecimal digits. *)
Definition parseInt_hex (l : jsstring) : N :=
  fold_left (fun acc c => (acc * 16 + hex_value c)%N) l 0%N.

(** [String.fromCharCode]. *)
Definition fromCharCode (n : N) : jsstring := [(n mod 65536)%N].

Definition c_n : char := 110%N.
Definition c_r : char := 114%N.
Definition c_t : char := 116%N.
Definition c_u : char := 117%N.
Definition c_x : char := 120%N.

Definition esc (c : char) : regex := Chr c_backslash ;; Chr c.
(** [/\\u([0-9a-fA-F]{4})/] and [/\\x([0-9a-fA-F]{2})/] *)
Definition unicode_escape : regex := esc c_u ;; Group 1 (Rep 4 (Cls is_hex)).
Definition hex_escape : regex := esc c_x ;; Group 1 (Rep 2 (Cls is_hex)).

Definition const {A B} (b : B) (_ : A) : B := b.

(** [unescapeJsonString]: seven global replacements, one after the other. *)
Definition unescapeJsonString (s : jsstring) : jsstring :=
  let s := replace_all (esc c_n) (const [c_lf]) s in
  let s := replace_all (esc c_r) (const [c_cr]) s in
  let s := replace_all (esc c_t) (const [c_tab]) s in
  let s := replace_all (esc c_dquote) (const [c_dquote]) s in
  let s := replace_all (esc c_backslash) (const [c_backslash]) s in
  let s := replace_all unicode_escape
             (fun m => fromCharCode (parseInt_hex (group 1 m))) s in
  replace_all hex_escape (fun m => fromCharCode (parseInt_hex (group 1 m))) s.

(** ** Outcomes of a call *)

Inductive outcome (A : Type) : Type :=
| Returns : A -> outcome A
| Throws : outcome A
| Loops : outcome A.
Arguments Throws {A}.
Arguments Loops {A}.

Definition bind {A B} (x : outcome A) (f : A -> outcome B) : outcome B :=
  match x with
  | Returns a => f a
  | Throws => Throws
  | Loops => Loops
  end.

Definition of_loop {A} (x : loop_result A) : outcome (option A) :=
  match x with
  | Found a => Returns (Some a)
  | NotFound => Returns None
  | Diverges => Loops
  end.

(** A string or [null] used as a condition: [null] and the empty string
    are falsy. *)
Definition truthy (x : option jsstring) : bool :=
  match x with
  | Some (_ :: _) => true
  | _ => false
  end.

(** ** Extraction from serialized text *)

(** The inside of a quoted string in the patterns below: a run of
    characters other than the double quote and the backslash, then pairs
    of a backslash and any character, each followed by such a run.  In the
    first pattern the repeated part is a capture group (number 2), which
    the program never reads. *)
Definition plain_run : regex := Star (Not2 c_dquote c_backslash).
Definition escaped_pair : regex := Chr c_backslash ;; any ;; plain_run.
Definition quoted_inside : regex := plain_run ;; Star escaped_pair.

(** [quotedStringPattern]: a double quote, group 1 around the inside of
    the string, a double quote. *)
Definition quotedStringPattern : regex :=
  Chr c_dquote ;;
  Group 1 (plain_run ;; Star (Group 2 escaped_pair)) ;;
  Chr c_dquote.

Definition candidate (content : jsstring) : option jsstring :=
  let unescapedContent := unescapeJsonString content in
  if containsStackTracePatterns unescapedContent
  then Some unescapedContent else None.

Definition extractFromQuotedStrings (input : jsstring)
  : outcome (option jsstring) :=
  of_loop (exec_loop quotedStringPattern
             (fun m => candidate (group 1 m)) 0 0 input).

Definition exception_or_error : regex :=
  Lit (str "Exception") <|> Lit (str "Error").

Definition incompletePatterns : list regex :=
  [ Chr c_dquote ;; Star (Not1 c_dquote) ;; Chr c_dquote ;; Chr c_colon ;;
    Star ws ;; Chr c_dquote ;; Group 1 quoted_inside;
    Chr c_colon ;; Star ws ;; Chr c_dquote ;; Group 1 quoted_inside;
    Chr c_dquote ;;
    Group 1 (quoted_inside ;; exception_or_error ;; quoted_inside) ].

(** A [for (const pattern of patterns)] loop around an [exec] loop. *)
Fixpoint for_patterns {A} (body : rmatch_result -> option A)
    (input : jsstring) (patterns : list regex) : outcome (option A) :=
  match patterns with
  | [] => Returns None
  | pattern :: more =>
      match exec_loop pattern body 0 0 input with
      | Found a => Returns (Some a)
      | Diverges => Loops
      | NotFound => for_patterns body input more
      end
  end.

Definition extractFromIncompleteJson (input : jsstring)
  : outcome (option jsstring) :=
  for_patterns (fun m => candidate (group 1 m)) input incompletePatterns.

(** [extractExtendedEscapedSequence]: the backward walk.  [input[i]] is
    [undefined] outside the string, which differs from every character. *)
Definition is_boundary (c : char) : bool :=
  (N.eqb c c_dquote || N.eqb c c_space || N.eqb c c_tab || N.eqb c c_lf)%bool.

Fixpoint backward_walk (input : jsstring) (start : nat) : nat :=
  match start with
  | O => O
  | S p =>
      match nth_error input p with
      | Some c => if is_boundary c then start else backward_walk input p
      | None => backward_walk input p
      end
  end.

Definition FORWARD_CAP : nat := 2000.

(** The forward [for] loop, by recursion on the characters from
    [startIndex] on; [i] is the index of the head of [l].  The result is
    the value of [end] when the loop is left: [startIndex] unless one of
    the two assignments was reached. *)
Fixpoint forward_scan (startIndex i escapeCount : nat) (inEscape : bool)
    (l : jsstring) : nat :=
  match l with
  | [] => startIndex
  | char :: t =>
      let continue (escapeCount : nat) (inEscape : bool) :=
        if Nat.ltb (startIndex + FORWARD_CAP) i then startIndex
        else forward_scan startIndex (S i) escapeCount inEscape t in
      if (N.eqb char c_backslash && negb inEscape)%bool then
        continue (S escapeCount) true
      else if inEscape then continue escapeCount false
      else if (N.eqb char c_dquote && Nat.ltb 0 escapeCount)%bool then i
      else if (N.eqb char c_space || N.eqb char c_tab || N.eqb char c_lf)%bool
      then if Nat.leb 2 escapeCount then i else continue escapeCount inEscape
      else continue escapeCount inEscape
  end.

Definition extractExtendedEscapedSequence (input : jsstring)
    (startIndex : nat) : jsstring :=
  let start := backward_walk input startIndex in
  let end_ := forward_scan startIndex startIndex 0 false
                (skipn startIndex input) in
  let end_ := if Nat.leb end_ startIndex
              then Nat.min (length input) (startIndex + 1000) else end_ in
  substring start end_ input.

Definition not_quote : regex := Star (Not1 c_dquote).

Definition escapedPatterns : list regex :=
  [ Group 1 (not_quote ;; exception_or_error ;; not_quote ;; esc c_n ;;
             not_quote ;; esc c_t ;; not_quote ;; Lit (str "at") ;;
             Plus ws ;; ident_start ;; not_quote);
    Group 1 (not_quote ;;
             (Lit (str "java.") <|> Lit (str "com.") <|> Lit (str "org.")) ;;
             not_quote ;; esc c_n ;; not_quote ;; esc c_t ;; not_quote ;;
             Lit (str "at") ;; Plus ws ;; not_quote ;;
             Plus (esc c_n ;; not_quote)) ].

Definition raw_candidate (input : jsstring) (m : rmatch_result)
  : option jsstring :=
  let content := group 1 m in
  if (includes [c_backslash; c_n] content
      && includes [c_backslash; c_t] content
      && includes (str "at ") content)%bool
  then candidate (extractExtendedEscapedSequence input (index m))
  else None.

Definition extractFromRawEscapedText (input : jsstring)
  : outcome (option jsstring) :=
  for_patterns (raw_candidate input) input escapedPatterns.

(** [extractSerializedStackTrace]: the three strategies in order. *)
Definition first_truthy (x : outcome (option jsstring))
    (next : outcome (option jsstring)) : outcome (option jsstring) :=
  bind x (fun r => if truthy r then Returns r else next).

Definition extractSerializedStackTrace (input : jsstring)
  : outcome (option jsstring) :=
  first_truthy (extractFromQuotedStrings input)
    (first_truthy (extractFromIncompleteJson input)
       (first_truthy (extractFromRawEscapedText input) (Returns None))).

(** ** The line-by-line fallback *)

(** The look-ahead [for (let j = i + 1; j < Math.min(i + 3, lines.length); j++)]. *)
Definition lookahead (lines : list jsstring) (i : nat) : bool :=
  existsb (fun j => isStackTraceLine (nth j lines []))
          (seq (i + 1) (Nat.min (i + 3) (length lines) - (i + 1))).

(** The main loop: [todo] holds the lines from index [i] on. *)
Fixpoint line_loop (lines : list jsstring) (i : nat) (todo : list jsstring)
    (inStackTrace : bool) (stackTraceLines : list jsstring)
  : list jsstring :=
  match todo with
  | [] => stackTraceLines
  | line :: todo' =>
      let trimmedLine := trim line in
      let isST := isStackTraceLine line in
      if (isST && negb inStackTrace)%bool then
        line_loop lines (S i) todo' true (stackTraceLines ++ [line])
      else if (isST && inStackTrace)%bool then
        line_loop lines (S i) todo' inStackTrace (stackTraceLines ++ [line])
      else if (inStackTrace && is_empty trimmedLine)%bool then
        line_loop lines (S i) todo' inStackTrace (stackTraceLines ++ [line])
      else if (inStackTrace && negb isST)%bool then
        if negb (lookahead lines i) then stackTraceLines
        else line_loop lines (S i) todo' inStackTrace (stackTraceLines ++ [line])
      else line_loop lines (S i) todo' inStackTrace stackTraceLines
  end.

Definition extractByLines (input : jsstring) : jsstring :=
  let lines := split_lines input in
  join [c_lf] (line_loop lines 0 lines false []).

(** [extractStackTrace]. *)
Definition extractStackTrace (input : jsstring) : outcome jsstring :=
  bind (extractSerializedStackTrace input) (fun serializedStackTrace =>
    match serializedStackTrace with
    | Some (c :: t) => Returns (c :: t)
    | _ => Returns (extractByLines input)
    end).

(** ** Rendering *)

Definition amp_pattern : regex := Chr c_amp.
Definition lt_pattern : regex := Chr c_lt.
Definition gt_pattern : regex := Chr c_gt.
Definition dquote_pattern : regex := Chr c_dquote.
Definition squote_pattern : regex := Chr c_squote.

(** [escapeHtml]. *)
Definition escapeHtml (text : jsstring) : jsstring :=
  let s := replace_all amp_pattern (const (str "&amp;")) text in
  let s := replace_all lt_pattern (const (str "&lt;")) s in
  let s := replace_all gt_pattern (const (str "&gt;")) s in
  let s := replace_all dquote_pattern (const (str "&quot;")) s in
  replace_all squote_pattern (const (str "&#39;")) s.

(** [s.repeat(count)] throws a [RangeError] for a negative count.  (The
    limit an engine puts on the length of a string is not modelled.) *)
Definition repeat_js (s : jsstring) (count : Z) : outcome jsstring :=
  if (count <? 0)%Z then Throws
  else Returns (concat (repeat s (Z.to_nat count))).

(** A number in a template literal or a string concatenation: its decimal
    digits (for the integers below 10^21, which print without exponent). *)
Definition number_to_string (n : N) : jsstring :=
  str (NilZero.string_of_uint (N.to_uint n)).

Definition type_name (t : line_type) : jsstring :=
  match t with
  | T_exception => str "exception"
  | T_at => str "at"
  | T_caused_by => str "caused_by"
  | T_suppressed => str "suppressed"
  | T_more => str "more"
  | T_unknown => str "unknown"
  end.

(** [x || ''] for an optional string. *)
Definition or_empty (x : option jsstring) : jsstring :=
  match x with Some v => v | None => [] end.

Definition quoted (s : jsstring) : jsstring := c_dquote :: s ++ [c_dquote].

Definition span (cls body : jsstring) : jsstring :=
  str "<span class=" ++ quoted cls ++ str ">" ++ body ++ str "</span>".

Definition div (cls body : jsstring) : jsstring :=
  str "<div class=" ++ quoted cls ++ str ">" ++ body ++ str "</div>".

(** [/^\s*Caused by:\s*/] and [/^\s*Suppressed:\s*/] *)
Definition caused_by_prefix : regex :=
  Bol ;; Star ws ;; Lit (str "Caused by:") ;; Star ws.
Definition suppressed_prefix : regex :=
  Bol ;; Star ws ;; Lit (str "Suppressed:") ;; Star ws.

(** The callback of [lines.map] in [formatAsHtml]. *)
Definition format_line (line : StackTraceLine) : outcome jsstring :=
  bind (repeat_js (str "&nbsp;") (indent line)) (fun indentSpaces =>
  let escapedContent := escapeHtml (trim (content line)) in
  let cssClass := str "stacktrace-" ++ type_name (type line) in
  Returns
    match type line with
    | T_exception =>
        div cssClass (indentSpaces ++ span (str "exception-text") escapedContent)
    | T_at =>
        div cssClass
          (indentSpaces ++ span (str "at-keyword") (str "at") ++ str " " ++
           span (str "method-name")
                (escapeHtml (or_empty (className line)) ++ str "." ++
                 escapeHtml (or_empty (methodName line))) ++
           str "(" ++
           span (str "location")
                (escapeHtml (or_empty (fileName line)) ++
                 match lineNumber line with
                 | Some n => if N.eqb n 0 then []
                             else str ":" ++ number_to_string n
                 | None => []
                 end) ++
           str ")")
    | T_caused_by =>
        div cssClass
          (indentSpaces ++ span (str "caused-by-keyword") (str "Caused by:") ++
           str " " ++
           span (str "exception-text")
                (escapeHtml (replace_first caused_by_prefix [] (content line))))
    | T_suppressed =>
        div cssClass
          (indentSpaces ++ span (str "suppressed-keyword") (str "Suppressed:") ++
           str " " ++
           span (str "exception-text")
                (escapeHtml (replace_first suppressed_prefix [] (content line))))
    | T_more =>
        div cssClass (indentSpaces ++ span (str "more-text") escapedContent)
    | T_unknown => div cssClass (indentSpaces ++ escapedContent)
    end).

(** [array.map(f)] for a callback that may throw. *)
Fixpoint map_outcome {A B} (f : A -> outcome B) (l : list A)
  : outcome (list B) :=
  match l with
  | [] => Returns []
  | x :: t =>
      bind (f x) (fun y => bind (map_outcome f t) (fun ys => Returns (y :: ys)))
  end.

Definition NO_STACKTRACE : jsstring :=
  str "<p class=" ++ quoted (str "no-stacktrace") ++
  str ">No stack trace found</p>".

(** [formatAsHtml]. *)
Definition formatAsHtml (parsedStackTrace : ParsedStackTrace)
  : outcome jsstring :=
  if negb (hasStackTrace parsedStackTrace) then Returns NO_STACKTRACE
  else
    bind (map_outcome format_line (lines parsedStackTrace)) (fun lines =>
      Returns (div (str "stacktrace-container") (join [c_lf] lines))).

(** The whole pipeline: extract, parse, render. *)
Definition pipeline (x : jsstring) : outcome jsstring :=
  bind (extractStackTrace x) (fun extracted =>
    formatAsHtml (parseStackTrace extracted)).

(** ** What a match is

    [Matches r s s'] says that [r] can take the matcher from state [s] to
    state [s']: the declarative reading of the backtracking matcher, which
    finds such an [s'] whenever there is one. *)
Inductive Matches : regex -> mstate -> mstate -> Prop :=
| M_eps : forall s, Matches Eps s s
| M_cls : forall p s c t,
    rest s = c :: t -> p c = true -> Matches (Cls p) s (advance s t)
| M_seq : forall a b s1 s2 s3,
    Matches a s1 s2 -> Matches b s2 s3 -> Matches (Seq a b) s1 s3
| M_alt_l : forall a b s s', Matches a s s' -> Matches (Alt a b) s s'
| M_alt_r : forall a b s s', Matches b s s' -> Matches (Alt a b) s s'
| M_star_nil : forall a s, Matches (Star a) s s
| M_star_cons : forall a s1 s2 s3,
    Matches a s1 s2 -> length (rest s2) < length (rest s1) ->
    Matches (Star a) s2 s3 -> Matches (Star a) s1 s3
| M_group : forall n a s s',
    Matches a s s' ->
    Matches (Group n a) s (set_cap n (firstn (pos s' - pos s) (rest s)) s')
| M_bol : forall s, pos s = 0 -> Matches Bol s s
| M_eol : forall s, rest s = [] -> Matches Eol s s.

(** An attempt of the matcher that succeeds. *)
Definition succeeds (x : option mstate) : Prop := exists y, x = Some y.

(** A pattern that cannot match the empty string. *)
Fixpoint nonempty (r : regex) : bool :=
  match r with
  | Eps => false
  | Cls _ => true
  | Seq a b => (nonempty a || nonempty b)%bool
  | Alt a b => (nonempty a && nonempty b)%bool
  | Star _ => false
  | Group _ a => nonempty a
  | Bol => false
  | Eol => false
  end.

(** ** The invariant of classified lines *)

(** The frame fields are present on a frame and absent on any other
    line. *)
Definition frame_fields_ok (l : StackTraceLine) : Prop :=
  match type l with
  | T_at => className l <> None /\ methodName l <> None /\ fileName l <> None
  | _ => className l = None /\ methodName l = None /\ fileName l = None /\
         lineNumber l = None
  end.

(** ** The line-run fallback *)

(** The line run as the specification words it.  Inside a run
    ([spec_run_tail]): a trace-like line extends the run, a blank line is
    included, any other line is included when one of the next two lines is
    trace-like and ends the run otherwise.  The run starts at the first
    trace-like line ([spec_line_run]). *)
Fixpoint spec_run_tail (ls : list jsstring) : list jsstring :=
  match ls with
  | [] => []
  | line :: after =>
      if isStackTraceLine line then line :: spec_run_tail after
      else if forallb is_ws line then line :: spec_run_tail after
      else if existsb isStackTraceLine (firstn 2 after)
           then line :: spec_run_tail after
           else []
  end.

Fixpoint spec_line_run (ls : list jsstring) : list jsstring :=
  match ls with
  | [] => []
  | line :: after =>
      if isStackTraceLine line then line :: spec_run_tail after
      else spec_line_run after
  end.

(** ** The trace-likeness test *)

(** In the block test, a line counts as an exception-header-like line when
    it is trace-like and its trimmed text holds [Exception] or [Error]
    followed by a colon or by the end of the line, or starts with
    [Exception in thread]; it counts as a frame-like line when it is
    trace-like and its trimmed text starts with [at], white space and the
    first character of an identifier. *)
Definition exception_header_like (line : jsstring) : bool :=
  (isStackTraceLine line && looks_like_exception line)%bool.

Definition frame_like (line : jsstring) : bool :=
  (isStackTraceLine line && looks_like_at line)%bool.

Definition trace_like_count (ls : list jsstring) : nat :=
  length (filter isStackTraceLine ls).

(** ** Reading a match off a pattern *)

(** [Shape r s x] unfolds what [Matches r s x] says along the syntax of
    [r], down to the stars: a star over a character class consumes a word
    of that class, a group records the word its body consumed. *)
Fixpoint Shape (r : regex) (s x : mstate) : Prop :=
  match r with
  | Eps => x = s
  | Cls p => exists c, rest s = c :: rest x /\ p c = true /\ caps x = caps s
  | Seq a b => exists m, Shape a s m /\ Shape b m x
  | Alt a b => Shape a s x \/ Shape b s x
  | Star (Cls p) =>
      exists w, rest s = w ++ rest x /\ forallb p w = true /\ caps x = caps s
  | Star a => Matches (Star a) s x
  | Group n a =>
      exists m w, Shape a s m /\ rest s = w ++ rest m /\
                  rest x = rest m /\ caps x = (n, w) :: caps m
  | Bol => pos s = 0 /\ x = s
  | Eol => rest s = [] /\ x = s
  end.

(** ** The location of a frame *)



(** ** Unescaping, as the specification words it *)

(** One pass that replaces the two-character sequence backslash, [c] by
    the character [r], left to right. *)
Fixpoint spec_replace_escape (c r : char) (l : jsstring) : jsstring :=
  match l with
  | [] => []
  | x :: t =>
      match t with
      | y :: t' =>
          if (N.eqb c_backslash x && N.eqb c y)%bool
          then r :: spec_replace_escape c r t'
          else x :: spec_replace_escape c r t
      | [] => [x]
      end
  end.

(** One pass that replaces backslash, [marker] and [n] hexadecimal digits
    by the code unit the digits denote.  [skip] counts the characters of
    the sequence being replaced that are still to pass. *)
Definition hex_escape_at (marker : char) (n : nat) (l : jsstring) : bool :=
  match l with
  | x :: y :: t =>
      (N.eqb c_backslash x && N.eqb marker y && Nat.leb n (length t)
       && forallb is_hex (firstn n t))%bool
  | _ => false
  end.

Fixpoint spec_replace_hex (marker : char) (n skip : nat) (l : jsstring)
  : jsstring :=
  match l with
  | [] => []
  | x :: t =>
      match skip with
      | S k => spec_replace_hex marker n k t
      | O =>
          if hex_escape_at marker n l
          then fromCharCode (parseInt_hex (firstn n (tl t)))
               ++ spec_replace_hex marker n (S n) t
          else x :: spec_replace_hex marker n 0 t
      end
  end.

(** The seven passes in the order of the specification. *)
Definition spec_unescape (s : jsstring) : jsstring :=
  let s := spec_replace_escape c_n c_lf s in
  let s := spec_replace_escape c_r c_cr s in
  let s := spec_replace_escape c_t c_tab s in
  let s := spec_replace_escape c_dquote c_dquote s in
  let s := spec_replace_escape c_backslash c_backslash s in
  let s := spec_replace_hex c_u 4 0 s in
  spec_replace_hex c_x 2 0 s.

Definition hex_pattern (marker : char) (n : nat) : regex :=
  esc marker ;; Group 1 (Rep n (Cls is_hex)).

(** ** A JSON string value with simple escapes *)














(** ** Quoted strings *)

Definition is_plain (c : char) : bool := is_not2 c_dquote c_backslash c.

(** The inside of a quoted string as the quoted-string pattern reads it:
    characters other than the double quote and the backslash, and pairs of
    a backslash and a character that is not a line terminator. *)
Fixpoint qbody (l : jsstring) : bool :=
  match l with
  | [] => true
  | x :: t =>
      if N.eqb x c_backslash then
        match t with
        | y :: t' => (is_any y && qbody t')%bool
        | [] => false
        end
      else (negb (N.eqb x c_dquote) && qbody t)%bool
  end.

Definition pair_group : regex := Group 2 escaped_pair.

Definition quoted_group_body : regex := plain_run ;; Star pair_group.






(** ** Bounded scanning and termination *)

(** An exception header, a frame whose location is 1970 letters long and
    whose closing parenthesis stands at offset 2000, and a double quote at
    offset 2001; the line break is the two-character escape, and a
    carriage return stands after [at]. *)
Definition long_input : jsstring :=
  str "p.XError: what at y" ++ [c_backslash; c_n; c_backslash; c_t] ++
  str "at" ++ [c_cr] ++ str "a.b(" ++ repeat 97%N 1970 ++
  [c_rparen; c_dquote].

Definition plain_example : jsstring :=
  str "log line" ++ [c_lf] ++ str "x.YException: boom" ++ [c_lf; c_tab] ++
  str "at a.B.c(B.java:12)" ++ [c_lf] ++ str "note" ++ [c_lf; c_tab] ++
  str "at a.B.d(B.java:13)" ++ [c_lf] ++ str "end".

(** ** Lines, as the specification words them *)

(** The lines of a text: a line ends at a line feed, and a carriage
    return just before that line feed belongs to the line break.  [piece]
    holds the characters of the current line read so far. *)
Fixpoint spec_lines_from (piece l : jsstring) : list jsstring :=
  match l with
  | [] => [piece]
  | c :: t =>
      if N.eqb c_cr c then
        match t with
        | d :: t' =>
            if N.eqb c_lf d then piece :: spec_lines_from [] t'
            else spec_lines_from (piece ++ [c]) t
        | [] => spec_lines_from (piece ++ [c]) t
        end
      else if N.eqb c_lf c then piece :: spec_lines_from [] t
      else spec_lines_from (piece ++ [c]) t
  end.

Definition spec_lines (l : jsstring) : list jsstring := spec_lines_from [] l.

(** A line that is blank: white space only. *)
Definition is_blank (l : jsstring) : bool := forallb is_ws l.

(** * Further properties: definitions *)

(** ** Escaping for markup *)

(** What [escapeHtml] puts for one character. *)
Definition html_entity (c : char) : jsstring :=
  if N.eqb c_amp c then str "&amp;"
  else if N.eqb c_lt c then str "&lt;"
  else if N.eqb c_gt c then str "&gt;"
  else if N.eqb c_dquote c then str "&quot;"
  else if N.eqb c_squote c then str "&#39;"
  else [c].

(** The characters that open or close a tag or an attribute value. *)
Definition is_markup (c : char) : bool :=
  (N.eqb c c_lt || N.eqb c c_gt || N.eqb c c_dquote || N.eqb c c_squote)%bool.

Definition count_char (c : char) (l : jsstring) : nat :=
  length (filter (N.eqb c) l).

(** The number of tags, opening and closing, in the markup of one line of
    each type. *)
Definition tag_count (t : line_type) : nat :=
  match t with
  | T_exception => 4
  | T_at => 8
  | T_caused_by => 6
  | T_suppressed => 6
  | T_more => 4
  | T_unknown => 2
  end.


(** ** Parts of a text *)

(** [u] is a contiguous part of [l]. *)
Definition is_factor (u l : jsstring) : Prop :=
  exists a b, l = a ++ u ++ b.

(** What a strategy of [extractSerializedStackTrace] may return for
    [input]: a text that is not empty, passes the block test, and is the
    unescaped form of a contiguous part of the input. *)
Definition unescaped_part (input u : jsstring) : Prop :=
  u <> [] /\ containsStackTracePatterns u = true /\
  exists c, is_factor c input /\ u = unescapeJsonString c.


(** ** A carriage return at the end of a line *)

(** A pattern without [$]: what it matches does not depend on the text
    after the match. *)
Fixpoint eol_free (r : regex) : bool :=
  match r with
  | Eps => true
  | Cls _ => true
  | Seq a b => (eol_free a && eol_free b)%bool
  | Alt a b => (eol_free a && eol_free b)%bool
  | Star a => eol_free a
  | Group _ a => eol_free a
  | Bol => true
  | Eol => false
  end.

(** A pattern whose matches never end with the character [c]. *)
Fixpoint never_ends (c : char) (r : regex) : bool :=
  match r with
  | Eps => true
  | Cls p => negb (p c)
  | Seq a b => (never_ends c b && (nonempty b || never_ends c a))%bool
  | Alt a b => (never_ends c a && never_ends c b)%bool
  | Star a => never_ends c a
  | Group _ a => never_ends c a
  | Bol => true
  | Eol => true
  end.

(** The form of the five line patterns: a sequence of parts without [$]
    that ends with [\s*$], in which the part before a part that may match
    the empty string never ends with a carriage return. *)
Inductive cr_tail : regex -> Prop :=
| tail_base : forall p, p c_cr = true -> cr_tail (Seq (Star (Cls p)) Eol)
| tail_seq : forall a b,
    eol_free a = true -> cr_tail b ->
    (nonempty b = true \/ never_ends c_cr a = true) ->
    cr_tail (Seq a b).

(** The matcher state on the text without its last character, and on the
    text with one more character. *)
Definition chop (s : mstate) : mstate :=
  MState (pos s) (removelast (rest s)) (caps s).

Definition extend (c : char) (s : mstate) : mstate :=
  MState (pos s) (rest s ++ [c]) (caps s).


(** ** The first version of the class

    The source file holds an earlier version of [StackTraceParser] before
    the one modelled above.  Its line patterns, [isStackTraceLine], the
    line-by-line loop of [extractStackTrace], the parser and the renderer
    are the same, character for character; what differs is modelled
    here. *)
Module V1.

(** [unescapeJsonString]: five global replacements. *)
Definition unescapeJsonString (s : jsstring) : jsstring :=
  let s := replace_all (esc c_n) (const [c_lf]) s in
  let s := replace_all (esc c_r) (const [c_cr]) s in
  let s := replace_all (esc c_t) (const [c_tab]) s in
  let s := replace_all (esc c_dquote) (const [c_dquote]) s in
  replace_all (esc c_backslash) (const [c_backslash]) s.

(** The loop of [containsStackTracePatterns], which returns as soon as the
    count reaches two. *)
Fixpoint count_loop (lines : list jsstring) (stackTraceLineCount : nat)
  : bool :=
  match lines with
  | [] => false
  | line :: more =>
      if isStackTraceLine line then
        if Nat.leb 2 (S stackTraceLineCount) then true
        else count_loop more (S stackTraceLineCount)
      else count_loop more stackTraceLineCount
  end.

Definition containsStackTracePatterns (content : jsstring) : bool :=
  count_loop (split_lines content) 0.

Definition candidate (quotedContent : jsstring) : option jsstring :=
  let unescapedContent := unescapeJsonString quotedContent in
  if containsStackTracePatterns unescapedContent
  then Some unescapedContent else None.

(** [extractSerializedStackTrace]: the loop over the quoted strings. *)
Definition extractSerializedStackTrace (input : jsstring)
  : outcome (option jsstring) :=
  of_loop (exec_loop quotedStringPattern
             (fun m => candidate (group 1 m)) 0 0 input).

Definition extractStackTrace (input : jsstring) : outcome jsstring :=
  bind (extractSerializedStackTrace input) (fun serializedStackTrace =>
    match serializedStackTrace with
    | Some (c :: t) => Returns (c :: t)
    | _ => Returns (extractByLines input)
    end).

End V1.

(** The head of a text is the character [m]. *)
Definition head_is (m : char) (l : jsstring) : bool :=
  match l with x :: _ => N.eqb m x | [] => false end.


(** ** Blank lines *)

(** The code units of the class [\s]. *)
Definition ws_chars : list char :=
  [9; 10; 11; 12; 13; 32; 160; 5760; 8192; 8193; 8194; 8195; 8196; 8197;
   8198; 8199; 8200; 8201; 8202; 8232; 8233; 8239; 8287; 12288; 65279]%N.

(** A pattern that cannot match without reading a character that is not
    white space. *)
Fixpoint must_nonws (r : regex) : bool :=
  match r with
  | Eps => false
  | Cls p => forallb (fun c => negb (p c)) ws_chars
  | Seq a b => (must_nonws a || must_nonws b)%bool
  | Alt a b => (must_nonws a && must_nonws b)%bool
  | Star _ => false
  | Group _ a => must_nonws a
  | Bol => false
  | Eol => false
  end.


(** ** What a match is sure to hold *)

(** [Holds lit r]: the pattern [r] is a sequence, a group or an
    alternation in which the two-character escape [lit] stands, so that
    every match of [r] holds it. *)
Inductive Holds (c : char) : regex -> Prop :=
| holds_esc : Holds c (esc c)
| holds_seq_l : forall a b, Holds c a -> Holds c (Seq a b)
| holds_seq_r : forall a b, Holds c b -> Holds c (Seq a b)
| holds_alt : forall a b, Holds c a -> Holds c b -> Holds c (Alt a b)
| holds_group : forall n a, Holds c a -> Holds c (Group n a).


(** ** How a line of each kind begins *)

(** After the white space that starts the line: what each of the five
    line patterns asks of the first characters.  A frame starts with [at]
    and a white space; a cause, a suppressed exception and an elision
    start with their keyword; an exception header starts with
    [Exception in thread ] or with an identifier character followed by
    identifier characters and dots up to [Exception] or [Error]. *)
Definition at_start (l : jsstring) : bool :=
  match l with
  | a :: t :: c :: _ => (N.eqb a 97 && N.eqb t 116 && is_ws c)%bool
  | _ => false
  end.

Fixpoint chain_tail (l : jsstring) : bool :=
  (starts_with (str "Exception") l || starts_with (str "Error") l ||
   match l with
   | c :: t => is_ident_dot c && chain_tail t
   | [] => false
   end)%bool.

Definition exception_start (l : jsstring) : bool :=
  (starts_with (str "Exception in thread ") l ||
   match l with
   | c :: t => is_ident_start c && chain_tail t
   | [] => false
   end)%bool.

Definition line_starts (l : jsstring) : list bool :=
  [ exception_start l; at_start l; starts_with (str "Caused by:") l;
    starts_with (str "Suppressed:") l; starts_with (str "...") l ].


(** ** Lines built from their parts *)

(** [Consumes r w]: at any position, the pattern [r] can match the word
    [w], whatever follows; [ConsumesToEnd r w]: it can match [w] when
    nothing follows. *)
Definition Consumes (r : regex) (w : jsstring) : Prop :=
  forall q r0 cs, exists cs',
    Matches r (MState q (w ++ r0) cs) (MState (q + length w) r0 cs').

Definition ConsumesToEnd (r : regex) (w : jsstring) : Prop :=
  forall q cs, exists x, Matches r (MState q w cs) x.



(** ** Exception names *)

(** What [exception_chain] matches: an identifier character, identifier
    characters and dots, [Exception] or [Error], and possibly a colon,
    white space and a message that is not empty and holds no line
    terminator. *)
Definition chain_message (opt : jsstring) : Prop :=
  opt = [] \/
  exists s a msg,
    opt = c_colon :: s ++ a :: msg /\
    forallb is_ws s = true /\ is_any a = true /\ forallb is_any msg = true.

Definition chain_word (w : jsstring) : Prop :=
  exists c1 body lit opt,
    w = c1 :: body ++ lit ++ opt /\
    is_ident_start c1 = true /\ forallb is_ident_dot body = true /\
    (lit = str "Exception" \/ lit = str "Error") /\
    chain_message opt.

(** The text of a thread header: [Exception in thread ] and a text that
    is not empty and holds no line terminator. *)
Definition thread_header (w : jsstring) : Prop :=
  exists a msg,
    w = str "Exception in thread " ++ a :: msg /\
    is_any a = true /\ forallb is_any msg = true.

(** [/^(\s* )keyword\s*(<chain>)\s*$/] for a keyword. *)
Definition keyword_pattern (keyword : jsstring) : regex :=
  Bol ;; Group 1 (Star ws) ;; Lit keyword ;; Star ws ;;
  Group 2 exception_chain ;; Star ws ;; Eol.

(** A line made of a keyword and an exception name. *)
Definition keyword_line (keyword line : jsstring) : Prop :=
  exists lead s1 w trail,
    line = lead ++ keyword ++ s1 ++ w ++ trail /\
    forallb is_ws lead = true /\ forallb is_ws s1 = true /\
    chain_word w /\ forallb is_ws trail = true.


(** ** What a match is sure to read *)

(** [Needs Q r]: a character of the set [Q] stands in the pattern [r], in
    a sequence, a group or an alternation, so that every match of [r]
    reads such a character. *)
Inductive Needs (Q : char -> bool) : regex -> Prop :=
| needs_chr : forall c, Q c = true -> Needs Q (Chr c)
| needs_seq_l : forall a b, Needs Q a -> Needs Q (Seq a b)
| needs_seq_r : forall a b, Needs Q b -> Needs Q (Seq a b)
| needs_alt : forall a b, Needs Q a -> Needs Q b -> Needs Q (Alt a b)
| needs_group : forall n a, Needs Q a -> Needs Q (Group n a).

(** The double quote and the backslash. *)
Definition is_quote_or_backslash (c : char) : bool :=
  (N.eqb c c_dquote || N.eqb c c_backslash)%bool.


(** Plain text: no double quote, no backslash and no carriage return. *)
Definition is_plain_char (c : char) : bool :=
  negb (N.eqb c c_dquote || N.eqb c c_backslash || N.eqb c c_cr)%bool.

(** * Properties *)

(** ** The matcher is sound and complete for [Matches] *)

Lemma orelse_some {A} (x y : option A) (v : A) :
  orelse x y = Some v -> x = Some v \/ (x = None /\ y = Some v).
Proof. destruct x; simpl; intros H; [left | right]; auto. Qed.

Lemma star_iter_sound (a : regex) :
  (forall k s x, rmatch a k s = Some x ->
                 exists s', Matches a s s' /\ k s' = Some x) ->
  forall n k s x, star_iter (rmatch a) k n s = Some x ->
                  exists s', Matches (Star a) s s' /\ k s' = Some x.
Proof.
  intros IHa n. induction n as [|n IHn]; intros k s x H; simpl in H.
  - exists s. split; [constructor | exact H].
  - apply orelse_some in H. destruct H as [H | [_ H]].
    + apply IHa in H. destruct H as (s1 & Hm & Hk).
      destruct (Nat.ltb (length (rest s1)) (length (rest s))) eqn:Hlt;
        [|discriminate].
      apply Nat.ltb_lt in Hlt.
      apply IHn in Hk. destruct Hk as (s2 & Hs & Hk).
      exists s2. split; [eapply M_star_cons; eauto | exact Hk].
    + exists s. split; [constructor | exact H].
Qed.

Lemma rmatch_sound (r : regex) :
  forall k s x, rmatch r k s = Some x ->
                exists s', Matches r s s' /\ k s' = Some x.
Proof.
  induction r as [|p|a IHa b IHb|a IHa b IHb|a IHa|n a IHa| |];
    intros k s x H; simpl in H.
  - exists s; split; [constructor | exact H].
  - destruct (rest s) as [|c t] eqn:Hr; [discriminate|].
    destruct (p c) eqn:Hp; [|discriminate].
    exists (advance s t); split; [eapply M_cls; eauto | exact H].
  - apply IHa in H. destruct H as (s1 & H1 & H).
    apply IHb in H. destruct H as (s2 & H2 & H).
    exists s2; split; [econstructor; eauto | exact H].
  - apply orelse_some in H. destruct H as [H | [_ H]].
    + apply IHa in H. destruct H as (s1 & H1 & H).
      exists s1; split; [apply M_alt_l; assumption | exact H].
    + apply IHb in H. destruct H as (s1 & H1 & H).
      exists s1; split; [apply M_alt_r; assumption | exact H].
  - eapply star_iter_sound; eauto.
  - apply IHa in H. destruct H as (s1 & H1 & H).
    eexists; split; [apply M_group; eassumption | exact H].
  - destruct (Nat.eqb (pos s) 0) eqn:Hp; [|discriminate].
    apply Nat.eqb_eq in Hp.
    exists s; split; [constructor; assumption | exact H].
  - destruct (rest s) eqn:Hr; [|discriminate].
    exists s; split; [constructor; assumption | exact H].
Qed.

Lemma orelse_succeeds_l (x y : option mstate) :
  succeeds x -> succeeds (orelse x y).
Proof. intros [v ->]. exists v. reflexivity. Qed.

Lemma orelse_succeeds_r (x y : option mstate) :
  succeeds y -> succeeds (orelse x y).
Proof. intros [v ->]. destruct x as [u|]; [exists u | exists v]; reflexivity. Qed.

(** More fuel than the length of the remaining input changes nothing: the
    star needs at most one iteration for each character. *)
Lemma star_iter_complete (a : regex) :
  (forall s s', Matches a s s' ->
     forall k, succeeds (k s') -> succeeds (rmatch a k s)) ->
  forall s s', Matches (Star a) s s' ->
  forall k n, length (rest s) <= n -> succeeds (k s') ->
              succeeds (star_iter (rmatch a) k n s).
Proof.
  intros IHa s s' H. remember (Star a) as r eqn:Hr.
  induction H; try discriminate; inversion Hr; subst; intros k n Hn Hk.
  - destruct n; simpl; [assumption | apply orelse_succeeds_r; assumption].
  - destruct n as [|n]; [lia|]. simpl. apply orelse_succeeds_l.
    apply (IHa _ _ H). apply Nat.ltb_lt in H0 as Hlt. rewrite Hlt.
    apply IHMatches2; [reflexivity | lia | assumption].
Qed.

Lemma rmatch_complete (r : regex) :
  forall s s', Matches r s s' ->
  forall k, succeeds (k s') -> succeeds (rmatch r k s).
Proof.
  induction r as [|p|a IHa b IHb|a IHa b IHb|a IHa|n a IHa| |];
    intros s s' H k Hk.
  - inversion H; subst. exact Hk.
  - inversion H as [|? ? c t Hr Hp| | | | | | | |]; subst. simpl.
    rewrite Hr, Hp. exact Hk.
  - inversion H; subst. simpl. eapply IHa; eauto.
  - inversion H; subst; simpl.
    + apply orelse_succeeds_l. eapply IHa; eauto.
    + apply orelse_succeeds_r. eapply IHb; eauto.
  - simpl. eapply star_iter_complete; eauto.
  - inversion H; subst. simpl. eapply IHa; eauto.
  - inversion H as [| | | | | | | |? Hp|]; subst. simpl.
    rewrite Hp. exact Hk.
  - inversion H as [| | | | | | | | |? Hr]; subst. simpl.
    rewrite Hr. exact Hk.
Qed.

(** An attempt at a position succeeds exactly when there is a match there,
    and what it returns is a match. *)
Lemma match_at_sound r p l x :
  match_at r p l = Some x -> Matches r (MState p l []) x.
Proof.
  unfold match_at. intros H. apply rmatch_sound in H.
  destruct H as (s' & Hm & Hk). inversion Hk; subst. exact Hm.
Qed.

Lemma match_at_complete r p l s' :
  Matches r (MState p l []) s' -> exists x, match_at r p l = Some x.
Proof.
  intros H. unfold match_at.
  apply (rmatch_complete H). exists s'. reflexivity.
Qed.

Lemma match_at_none r p l :
  (forall s', ~ Matches r (MState p l []) s') -> match_at r p l = None.
Proof.
  intros H. destruct (match_at r p l) eqn:E; [|reflexivity].
  apply match_at_sound in E. elim (H _ E).
Qed.

(** ** What a match consumes *)

Lemma Matches_span r s s' :
  Matches r s s' ->
  exists w, rest s = w ++ rest s' /\ pos s' = pos s + length w /\
            (nonempty r = true -> w <> []).
Proof.
  induction 1; simpl.
  - exists []. split; [reflexivity | split; [simpl; lia | discriminate]].
  - exists [c]. split; [assumption | split; [simpl; lia | discriminate]].
  - destruct IHMatches1 as (w1 & E1 & P1 & N1).
    destruct IHMatches2 as (w2 & E2 & P2 & N2).
    exists (w1 ++ w2). split; [|split].
    + rewrite E1, E2, app_assoc. reflexivity.
    + rewrite P2, P1, length_app. lia.
    + intros Hn Hw. apply app_eq_nil in Hw. destruct Hw as [-> ->].
      apply orb_true_iff in Hn. destruct Hn as [Hn | Hn];
        [apply N1 in Hn | apply N2 in Hn]; congruence.
  - destruct IHMatches as (w & E & P & N). exists w.
    split; [|split]; auto.
    intros Hn. apply andb_true_iff in Hn. tauto.
  - destruct IHMatches as (w & E & P & N). exists w.
    split; [|split]; auto.
    intros Hn. apply andb_true_iff in Hn. tauto.
  - exists []. split; [reflexivity | split; [simpl; lia | discriminate]].
  - destruct IHMatches1 as (w1 & E1 & P1 & N1).
    destruct IHMatches2 as (w2 & E2 & P2 & N2).
    exists (w1 ++ w2). split; [|split].
    + rewrite E1, E2, app_assoc. reflexivity.
    + rewrite P2, P1, length_app. lia.
    + discriminate.
  - destruct IHMatches as (w & E & P & N). exists w.
    split; [|split]; auto.
  - exists []. split; [reflexivity | split; [simpl; lia | discriminate]].
  - exists []. split; [reflexivity | split; [simpl; lia | discriminate]].
Qed.

Lemma Matches_progress r s s' :
  Matches r s s' -> nonempty r = true ->
  pos s < pos s' /\ length (rest s') < length (rest s).
Proof.
  intros H Hn. destruct (Matches_span H) as (w & E & P & N).
  specialize (N Hn). destruct w as [|c w]; [congruence|].
  rewrite E, P, length_app. simpl. lia.
Qed.

(** ** Reading a match off a pattern *)

Lemma Matches_star_cls p s x :
  Matches (Star (Cls p)) s x ->
  exists w, rest s = w ++ rest x /\ forallb p w = true /\ caps x = caps s /\
            pos x = pos s + length w.
Proof.
  intros H. remember (Star (Cls p)) as r eqn:Hr.
  induction H; try discriminate; inversion Hr; subst.
  - exists []. simpl.
    split; [reflexivity|]. split; [reflexivity|]. split; [reflexivity|lia].
  - destruct (IHMatches2 eq_refl) as (w & E & F & C & P).
    inversion H; subst. simpl in *.
    exists (c :: w). simpl.
    match goal with Hc : _ = true |- _ => rewrite Hc end.
    match goal with Hs : rest _ = _ :: _ |- _ => rewrite Hs end.
    rewrite E, C, P, F.
    split; [reflexivity|]. split; [reflexivity|]. split; [reflexivity|lia].
Qed.

Lemma Matches_Shape r s x : Matches r s x -> Shape r s x.
Proof.
  revert s x.
  induction r as [|p|a IHa b IHb|a IHa b IHb|a IHa|n a IHa| |];
    intros s x H.
  - inversion H; subst. reflexivity.
  - inversion H; subst. simpl. eauto.
  - inversion H; subst. simpl. eauto.
  - inversion H; subst; simpl; eauto.
  - destruct a; try exact H.
    destruct (Matches_star_cls H) as (w & E & F & C & _). simpl. eauto.
  - inversion H; subst. simpl.
    match goal with Hm : Matches a s ?m |- _ =>
      destruct (Matches_span Hm) as (w & E & P & _); exists m, w end.
    repeat split; auto. simpl.
    rewrite P, E. replace (pos s + length w - pos s) with (length w) by lia.
    rewrite firstn_app, Nat.sub_diag, firstn_all. simpl.
    rewrite app_nil_r. reflexivity.
  - inversion H; subst. simpl. auto.
  - inversion H; subst. simpl. auto.
Qed.

(** A match is found only where there is one; with [^] in front, only at
    index 0. *)
Lemma search_from_sound r :
  forall l p m,
    search_from r p l = Some m ->
    exists k x, index m = p + k /\ k <= length l /\
                Matches r (MState (p + k) (skipn k l) []) x /\
                m = mk_result (p + k) x.
Proof.
  induction l as [|c t IH]; intros p m H; simpl in H.
  - destruct (match_at r p []) as [x|] eqn:E; [|discriminate].
    inversion H; subst. exists 0, x. rewrite Nat.add_0_r. simpl.
    repeat split; auto. apply match_at_sound. exact E.
  - destruct (match_at r p (c :: t)) as [x|] eqn:E.
    + inversion H; subst. exists 0, x. rewrite Nat.add_0_r. simpl.
      repeat split; [lia|]. apply match_at_sound. exact E.
    + apply IH in H. destruct H as (k & x & Hi & Hk & Hm & ->).
      exists (S k), x. replace (p + S k) with (S p + k) by lia. simpl.
      repeat split; auto. lia.
Qed.

Lemma re_exec_anchored r l m :
  re_exec (Bol ;; r) l = Some m ->
  exists x, Matches r (MState 0 l []) x /\ groups m = caps x.
Proof.
  unfold re_exec. intros H. apply search_from_sound in H.
  destruct H as (k & x & _ & _ & Hm & ->).
  inversion Hm; subst.
  match goal with Hb : Matches Bol _ _ |- _ => inversion Hb; subst end.
  simpl in *. subst. simpl in *. eauto.
Qed.

Lemma re_exec_complete r l x :
  Matches r (MState 0 l []) x -> exists m, re_exec r l = Some m.
Proof.
  intros H. apply match_at_complete in H. destruct H as [y Hy].
  unfold re_exec. destruct l; simpl; rewrite Hy; eauto.
Qed.

Lemma Matches_cls_intro (p : char -> bool) c q r cs :
  p c = true -> Matches (Cls p) (MState q (c :: r) cs) (MState (S q) r cs).
Proof.
  intros H. apply (@M_cls p (MState q (c :: r) cs) c r); [reflexivity|exact H].
Qed.

Lemma Matches_star_cls_intro (p : char -> bool) w :
  forallb p w = true ->
  forall q r cs,
    Matches (Star (Cls p)) (MState q (w ++ r) cs)
            (MState (q + length w) r cs).
Proof.
  induction w as [|c w IH]; simpl; intros H q r cs.
  - rewrite Nat.add_0_r. constructor.
  - apply andb_true_iff in H. destruct H as [Hc Hw].
    eapply M_star_cons.
    + apply Matches_cls_intro. exact Hc.
    + simpl. lia.
    + replace (q + S (length w)) with (S q + length w) by lia.
      apply IH. exact Hw.
Qed.

Lemma forallb_impl (p q : char -> bool) (l : jsstring) :
  (forall c, p c = true -> q c = true) ->
  forallb p l = true -> forallb q l = true.
Proof.
  intros Hpq. induction l as [|c l IH]; simpl; [reflexivity|].
  intros H. apply andb_true_iff in H. destruct H as [Hc Hl].
  rewrite (Hpq _ Hc), (IH Hl). reflexivity.
Qed.

(** *** Tactics to read a match *)

Ltac break_shape :=
  repeat match goal with
         | H : exists _, _ |- _ => destruct H
         | H : _ /\ _ |- _ => destruct H
         | H : (_ =? _)%N = true |- _ => apply N.eqb_eq in H
         end.

Ltac open_states :=
  repeat match goal with s : mstate |- _ => destruct s end;
  cbn [pos rest caps] in *;
  repeat match goal with
         | H : MState _ _ _ = MState _ _ _ |- _ => inversion H; clear H
         end;
  subst.

Ltac open_shape H :=
  apply Matches_Shape in H;
  unfold Lit, str, Plus, Opt, Chr, ws, any, digit, ident_start, ident_dot,
    ident_part, Not1, Not2 in H;
  cbn [list_ascii_of_string map fold_right Shape] in H;
  break_shape; open_states.

Ltac cancel_tail H :=
  match type of H with
  | _ = ?w ++ ?T =>
      is_var w;
      let tl := fresh "tl" in
      let E := fresh "E" in
      remember T as tl eqn:E in H;
      repeat (rewrite app_comm_cons in H || rewrite app_assoc in H);
      apply app_inv_tail in H; subst tl; try subst w
  end.

Ltac cancel_tails :=
  repeat match goal with
         | H : _ = ?w ++ _ |- _ => cancel_tail H
         end.

(** ** The loops of the extractor come to an end *)

(** An [exec] loop over a pattern that cannot match the empty string
    comes to an end. *)
Lemma exec_loop_terminates {A} (r : regex) (body : rmatch_result -> option A) :
  nonempty r = true ->
  forall l skip q, exec_loop r body skip q l <> Diverges.
Proof.
  intros Hn l. induction l as [|c t IH]; intros skip q; simpl.
  - destruct skip; [|discriminate].
    destruct (match_at r q []) as [s|] eqn:E; [|discriminate].
    apply match_at_sound in E.
    destruct (Matches_progress E Hn) as [_ Hl]. simpl in Hl. lia.
  - destruct skip as [|k]; [|apply IH].
    destruct (match_at r q (c :: t)) as [s|] eqn:E; [|apply IH].
    destruct (body (mk_result q s)); [discriminate|].
    apply match_at_sound in E.
    destruct (Matches_progress E Hn) as [Hp _]. simpl in Hp.
    destruct (Nat.eqb (pos s) q) eqn:Hq; [|apply IH].
    apply Nat.eqb_eq in Hq. lia.
Qed.

Lemma for_patterns_returns {A} (body : rmatch_result -> option A) input ps :
  forallb nonempty ps = true ->
  exists r, for_patterns body input ps = Returns r.
Proof.
  induction ps as [|p ps IH]; simpl; intros H.
  - eauto.
  - apply andb_true_iff in H. destruct H as [Hp Hps].
    pose proof (@exec_loop_terminates A p body Hp input 0 0) as Ht.
    destruct (exec_loop p body 0 0 input); eauto. congruence.
Qed.

Lemma extractFromQuotedStrings_returns input :
  exists r, extractFromQuotedStrings input = Returns r.
Proof.
  unfold extractFromQuotedStrings.
  pose proof (@exec_loop_terminates _ quotedStringPattern
                (fun m => candidate (group 1 m)) eq_refl input 0 0) as Ht.
  destruct (exec_loop _ _ 0 0 input); simpl; eauto. congruence.
Qed.

Lemma extractSerializedStackTrace_returns input :
  exists r, extractSerializedStackTrace input = Returns r.
Proof.
  unfold extractSerializedStackTrace, first_truthy.
  destruct (extractFromQuotedStrings_returns input) as [r1 ->]. simpl.
  destruct (truthy r1); [eauto|].
  destruct (@for_patterns_returns _ (fun m => candidate (group 1 m)) input
              incompletePatterns eq_refl) as [r2 E2].
  unfold extractFromIncompleteJson. rewrite E2. simpl.
  destruct (truthy r2); [eauto|].
  destruct (@for_patterns_returns _ (raw_candidate input) input
              escapedPatterns eq_refl) as [r3 E3].
  unfold extractFromRawEscapedText. rewrite E3. simpl.
  destruct (truthy r3); eauto.
Qed.

Lemma extractStackTrace_returns input :
  exists e, extractStackTrace input = Returns e.
Proof.
  unfold extractStackTrace.
  destruct (extractSerializedStackTrace_returns input) as [r ->]. simpl.
  destruct r as [[|c t]|]; eauto.
Qed.

(** ** The bounded forward scan *)

(** From index [i] the loop reads no character beyond index
    [startIndex + FORWARD_CAP + 1]. *)
Lemma forward_scan_firstn (startIndex : nat) (l : jsstring) :
  forall i escapeCount inEscape,
    i <= startIndex + FORWARD_CAP + 1 ->
    forward_scan startIndex i escapeCount inEscape l =
    forward_scan startIndex i escapeCount inEscape
      (firstn (startIndex + FORWARD_CAP + 2 - i) l).
Proof.
  induction l as [|c t IH]; intros i ec ie Hi.
  - rewrite firstn_nil. reflexivity.
  - replace (startIndex + FORWARD_CAP + 2 - i)
      with (S (startIndex + FORWARD_CAP + 2 - S i)) by lia.
    rewrite firstn_cons. cbn [forward_scan].
    destruct (Nat.ltb (startIndex + FORWARD_CAP) i) eqn:Hcap.
    + reflexivity.
    + apply Nat.ltb_ge in Hcap.
      rewrite <- !IH by lia. reflexivity.
Qed.

(** Where the loop stops, when it stops on a closing quote or a white
    space: never beyond index [startIndex + FORWARD_CAP + 1]. *)
Lemma forward_scan_le (startIndex : nat) (l : jsstring) :
  forall i escapeCount inEscape,
    i <= startIndex + FORWARD_CAP + 1 ->
    forward_scan startIndex i escapeCount inEscape l
      <= startIndex + FORWARD_CAP + 1.
Proof.
  induction l as [|c t IH]; intros i ec ie Hi; cbn [forward_scan]; [lia|].
  destruct (Nat.ltb (startIndex + FORWARD_CAP) i) eqn:Hcap.
  - repeat match goal with
           | |- context [if ?b then _ else _] => destruct b
           end; lia.
  - apply Nat.ltb_ge in Hcap.
    repeat match goal with
           | |- context [if ?b then _ else _] => destruct b
           end; try lia; apply IH; lia.
Qed.

(** When the loop assigns [end], it does so at a double quote or at a
    space, a tab or a line feed. *)
Lemma forward_scan_stop (startIndex : nat) (l : jsstring) :
  forall i escapeCount inEscape e,
    forward_scan startIndex i escapeCount inEscape l = e ->
    e <> startIndex ->
    i <= e /\
    exists c, nth_error l (e - i) = Some c /\ is_boundary c = true.
Proof.
  induction l as [|c t IH]; intros i ec ie e H Hne; cbn [forward_scan] in H.
  - congruence.
  - assert (K : forall ec' ie',
               (if Nat.ltb (startIndex + FORWARD_CAP) i then startIndex
                else forward_scan startIndex (S i) ec' ie' t) = e ->
               i <= e /\
               exists c0, nth_error (c :: t) (e - i) = Some c0 /\
                          is_boundary c0 = true).
    { intros ec' ie' H'.
      destruct (Nat.ltb (startIndex + FORWARD_CAP) i); [congruence|].
      destruct (IH _ _ _ _ H' Hne) as (Hle & c0 & Hn & Hb).
      split; [lia|]. exists c0. split; [|exact Hb].
      replace (e - i) with (S (e - S i)) by lia. exact Hn. }
    assert (Here : i = e -> is_boundary c = true ->
               i <= e /\
               exists c0, nth_error (c :: t) (e - i) = Some c0 /\
                          is_boundary c0 = true).
    { intros <- Hb. split; [lia|]. exists c. rewrite Nat.sub_diag. auto. }
    destruct (N.eqb c c_backslash && negb ie)%bool; [eapply K; exact H|].
    destruct ie; [eapply K; exact H|].
    destruct (N.eqb c c_dquote) eqn:Eq; cbn [andb] in H.
    + destruct (Nat.ltb 0 ec).
      * apply Here; [exact H|]. unfold is_boundary. rewrite Eq. reflexivity.
      * apply N.eqb_eq in Eq. subst c. cbn [orb] in H.
        change (N.eqb c_dquote c_space || N.eqb c_dquote c_tab
                || N.eqb c_dquote c_lf)%bool with false in H.
        eapply K; exact H.
    + destruct (N.eqb c c_space || N.eqb c c_tab || N.eqb c c_lf)%bool eqn:Ew;
        [|eapply K; exact H].
      destruct (Nat.leb 2 ec); [|eapply K; exact H].
      apply Here; [exact H|]. unfold is_boundary. rewrite Eq.
      cbn [orb]. exact Ew.
Qed.

(** C6, as the program has it: the forward walk reads at most
    [FORWARD_CAP + 2 = 2002] characters (the cap is tested after the
    character at index [i] has been handled, and only stops the walk when
    [i > startIndex + 2000]), so where it stops depends on no later
    character and is at most [startIndex + 2001]; when it stops before the
    cap and the end of the input, it stops at a double quote or at a
    space, a tab or a line feed; and [extractStackTrace] returns on every
    input. *)
Theorem C6_forward_scan_reads_at_most_2002 :
  (forall (startIndex : nat) (l : jsstring),
     forward_scan startIndex startIndex 0 false l =
     forward_scan startIndex startIndex 0 false (firstn (FORWARD_CAP + 2) l)) /\
  (forall (startIndex : nat) (l : jsstring),
     forward_scan startIndex startIndex 0 false l
       <= startIndex + FORWARD_CAP + 1) /\
  (forall (startIndex : nat) (l : jsstring),
     let e := forward_scan startIndex startIndex 0 false l in
     e <> startIndex ->
     exists c, nth_error l (e - startIndex) = Some c /\
               is_boundary c = true) /\
  (forall input : jsstring, exists e, extractStackTrace input = Returns e).
Proof.
  split; [|split; [|split]].
  - intros startIndex l.
    rewrite (@forward_scan_firstn startIndex l startIndex 0 false) at 1
      by lia.
    replace (startIndex + FORWARD_CAP + 2 - startIndex)
      with (FORWARD_CAP + 2) by lia.
    reflexivity.
  - intros startIndex l. apply forward_scan_le. lia.
  - intros startIndex l e Hne.
    destruct (@forward_scan_stop startIndex l startIndex 0 false e eq_refl Hne)
      as (_ & c & Hc). eauto.
  - exact extractStackTrace_returns.
Qed.

(** The walk does not stop after 2000 characters: on [long_input] it goes
    on to the double quote at offset 2001 and stops there, which the first
    2000 characters alone do not tell; the span it returns is 2001
    characters long, and [extractStackTrace] returns that span,
    unescaped. *)
Lemma C6_counterexample_quote_at_offset_2001 :
  forward_scan 0 0 0 false long_input = 2001 /\
  forward_scan 0 0 0 false (firstn FORWARD_CAP long_input) = 0 /\
  forward_scan 0 0 0 false long_input
    <> forward_scan 0 0 0 false (firstn FORWARD_CAP long_input) /\
  length (extractExtendedEscapedSequence long_input 0) = 2001 /\
  extractStackTrace long_input =
    Returns (unescapeJsonString (firstn 2001 long_input)).
Proof.
  assert (H1 : forward_scan 0 0 0 false long_input = 2001)
    by (vm_compute; reflexivity).
  assert (H2 : forward_scan 0 0 0 false (firstn FORWARD_CAP long_input) = 0)
    by (vm_compute; reflexivity).
  split; [exact H1|]. split; [exact H2|]. split; [|split].
  - rewrite H1, H2. discriminate.
  - vm_compute. reflexivity.
  - vm_compute. reflexivity.
Qed.

(** ** Splitting into lines *)

Lemma match_at_newline q l :
  match_at newline_pattern q l =
  match l with
  | [] => None
  | c :: t =>
      if N.eqb c_cr c then
        match t with
        | d :: t' => if N.eqb c_lf d then Some (MState (S (S q)) t' [])
                     else None
        | [] => None
        end
      else if N.eqb c_lf c then Some (MState (S q) t []) else None
  end.
Proof.
  unfold match_at, newline_pattern, Opt, Chr.
  destruct l as [|c t]; cbn [rmatch rest advance pos caps orelse];
    [reflexivity|].
  destruct (N.eqb_spec c_cr c) as [<-|Hc].
  - destruct t as [|d t']; cbn [rmatch rest advance pos caps orelse];
      [reflexivity|].
    destruct (N.eqb c_lf d); reflexivity.
  - cbn [orelse]. destruct (N.eqb c_lf c); reflexivity.
Qed.

Lemma split_go_spec :
  forall n l, length l <= n ->
  forall q piece,
    split_go newline_pattern 0 q piece l = spec_lines_from piece l.
Proof.
  induction n as [|n IH]; intros l Hn q piece.
  - destruct l; [reflexivity | simpl in Hn; lia].
  - destruct l as [|c t]; [reflexivity|]. simpl in Hn.
    cbn [split_go spec_lines_from]. rewrite match_at_newline.
    destruct (N.eqb c_cr c).
    + destruct t as [|d t'].
      * apply IH. simpl. lia.
      * destruct (N.eqb c_lf d).
        -- cbn [pos]. replace (Nat.eqb (S (S q)) q) with false
             by (symmetry; apply Nat.eqb_neq; lia).
           replace (S (S q) - q - 1) with 1 by lia.
           cbn [split_go]. f_equal. apply IH. simpl in Hn. lia.
        -- apply IH. simpl in *. lia.
    + destruct (N.eqb c_lf c).
      * cbn [pos]. replace (Nat.eqb (S q) q) with false
          by (symmetry; apply Nat.eqb_neq; lia).
        replace (S q - q - 1) with 0 by lia. f_equal. apply IH. lia.
      * apply IH. lia.
Qed.

(** [split(/\r?\n/)] gives the lines of the text. *)
Lemma split_lines_spec (l : jsstring) : split_lines l = spec_lines l.
Proof.
  unfold split_lines, re_split, spec_lines. destruct l as [|c t].
  - rewrite match_at_newline. reflexivity.
  - eapply split_go_spec. apply le_n.
Qed.

Lemma spec_lines_from_no_lf :
  forall n l, length l <= n ->
  forall piece, forallb (is_not c_lf) piece = true ->
    Forall (fun line => forallb (is_not c_lf) line = true)
           (spec_lines_from piece l).
Proof.
  assert (K : forall piece c, forallb (is_not c_lf) piece = true ->
                N.eqb c_lf c = false ->
                forallb (is_not c_lf) (piece ++ [c]) = true).
  { intros piece c Hp Hc. rewrite forallb_app, Hp. cbn [forallb].
    unfold is_not. rewrite N.eqb_sym, Hc. reflexivity. }
  induction n as [|n IH]; intros l Hn piece Hp.
  - destruct l; [|simpl in Hn; lia]. repeat constructor. exact Hp.
  - destruct l as [|c t]; [repeat constructor; exact Hp|]. simpl in Hn.
    cbn [spec_lines_from].
    destruct (N.eqb_spec c_cr c) as [<-|Hc].
    + destruct t as [|d t'].
      * apply IH; [simpl; lia | apply K; [exact Hp | reflexivity]].
      * destruct (N.eqb c_lf d).
        -- constructor; [exact Hp|]. apply IH; [simpl in Hn; lia|reflexivity].
        -- apply IH; [simpl in *; lia | apply K; [exact Hp | reflexivity]].
    + destruct (N.eqb c_lf c) eqn:El.
      * constructor; [exact Hp|]. apply IH; [lia|reflexivity].
      * apply IH; [lia | apply K; assumption].
Qed.

(** ** The parser *)

Lemma dropWhile_length (p : char -> bool) (l : jsstring) :
  length (dropWhile p l) <= length l.
Proof.
  induction l as [|c t IH]; simpl; [lia|].
  destruct (p c); simpl; lia.
Qed.

Lemma dropWhile_nil_iff (p : char -> bool) (l : jsstring) :
  dropWhile p l = [] <-> forallb p l = true.
Proof.
  induction l as [|c t IH]; simpl; [tauto|].
  destruct (p c); simpl; [exact IH|]. split; discriminate.
Qed.

Lemma dropWhile_app_last (p : char -> bool) (l : jsstring) (c : char) :
  p c = false -> dropWhile p (l ++ [c]) <> [].
Proof.
  intros Hc. induction l as [|x l IH]; simpl.
  - rewrite Hc. discriminate.
  - destruct (p x); [exact IH | discriminate].
Qed.

(** A line is blank for [trim] exactly when all its characters are white
    space. *)
Lemma trim_empty_iff (l : jsstring) :
  is_empty (trim l) = forallb is_ws l.
Proof.
  unfold trim, trimEnd, trimStart.
  destruct (forallb is_ws l) eqn:E.
  - apply dropWhile_nil_iff in E. rewrite E. reflexivity.
  - destruct (dropWhile is_ws l) as [|c t] eqn:D.
    + apply dropWhile_nil_iff in D. congruence.
    + assert (Hc : is_ws c = false).
      { clear E. induction l as [|x l IH]; simpl in D; [discriminate|].
        destruct (is_ws x) eqn:Hx; [auto|]. inversion D; subst. exact Hx. }
      simpl. pose proof (dropWhile_app_last is_ws (rev t) c Hc) as Hne.
      destruct (dropWhile is_ws (rev t ++ [c])) as [|y u]; [congruence|].
      simpl. destruct (rev u); reflexivity.
Qed.

Lemma parse_step_fold (ls : list jsstring) (acc : list StackTraceLine) :
  fold_left parse_step ls acc =
  acc ++ map parseStackTraceLine
           (filter (fun l => negb (forallb is_ws l)) ls).
Proof.
  revert acc. induction ls as [|l ls IH]; intros acc; simpl.
  - rewrite app_nil_r. reflexivity.
  - rewrite IH. unfold parse_step. rewrite trim_empty_iff.
    destruct (forallb is_ws l); simpl; [reflexivity|].
    rewrite <- app_assoc. reflexivity.
Qed.

Lemma parseStackTraceLine_content (line : jsstring) :
  content (parseStackTraceLine line) = line.
Proof.
  unfold parseStackTraceLine.
  destruct (re_exec exception_pattern line); [reflexivity|].
  destruct (re_exec at_pattern line).
  { destruct (split_method _), (split_location _); reflexivity. }
  destruct (re_exec caused_by_pattern line); [reflexivity|].
  destruct (re_exec suppressed_pattern line); [reflexivity|].
  destruct (re_exec more_pattern line); reflexivity.
Qed.

Lemma parseStackTraceLine_indent (line : jsstring) :
  (0 <= indent (parseStackTraceLine line))%Z.
Proof.
  assert (H : (0 <= Z.of_nat (length line)
                    - Z.of_nat (length (trimStart line)))%Z).
  { pose proof (dropWhile_length is_ws line). unfold trimStart. lia. }
  unfold parseStackTraceLine.
  destruct (re_exec exception_pattern line); [exact H|].
  destruct (re_exec at_pattern line).
  { destruct (split_method _), (split_location _); exact H. }
  destruct (re_exec caused_by_pattern line); [exact H|].
  destruct (re_exec suppressed_pattern line); [exact H|].
  destruct (re_exec more_pattern line); exact H.
Qed.

(** The type of a classified line tells which pattern matched first. *)
Lemma parseStackTraceLine_type (line : jsstring) :
  type (parseStackTraceLine line) =
  if re_test exception_pattern line then T_exception
  else if re_test at_pattern line then T_at
  else if re_test caused_by_pattern line then T_caused_by
  else if re_test suppressed_pattern line then T_suppressed
  else if re_test more_pattern line then T_more
  else T_unknown.
Proof.
  unfold parseStackTraceLine, re_test.
  destruct (re_exec exception_pattern line); [reflexivity|].
  destruct (re_exec at_pattern line).
  { destruct (split_method _), (split_location _); reflexivity. }
  destruct (re_exec caused_by_pattern line); [reflexivity|].
  destruct (re_exec suppressed_pattern line); [reflexivity|].
  destruct (re_exec more_pattern line); reflexivity.
Qed.

Lemma parseStackTraceLine_known_iff (line : jsstring) :
  type (parseStackTraceLine line) <> T_unknown <->
  existsb (fun pattern => re_test pattern line) STACK_TRACE_PATTERNS = true.
Proof.
  rewrite parseStackTraceLine_type. simpl.
  destruct (re_test exception_pattern line),
           (re_test at_pattern line),
           (re_test caused_by_pattern line),
           (re_test suppressed_pattern line),
           (re_test more_pattern line); simpl;
    split; congruence.
Qed.

Lemma line_type_eqb_eq (a b : line_type) :
  line_type_eqb a b = true <-> a = b.
Proof. destruct a, b; simpl; split; congruence. Qed.

Lemma parseStackTrace_lines (t : jsstring) :
  lines (parseStackTrace t) =
  map parseStackTraceLine
      (filter (fun l => negb (forallb is_ws l)) (split_lines t)).
Proof. unfold parseStackTrace. simpl. apply parse_step_fold. Qed.

Lemma isStackTraceLine_iff (line : jsstring) :
  isStackTraceLine line = true <->
  forallb is_ws line = false /\
  existsb (fun pattern => re_test pattern line) STACK_TRACE_PATTERNS = true.
Proof.
  unfold isStackTraceLine. rewrite trim_empty_iff.
  destruct (forallb is_ws line); split; intros H;
    try discriminate; try tauto.
  destruct H; discriminate.
Qed.

(** C7: [hasStackTrace] holds exactly when some classified line has a type
    other than [unknown], which is exactly when some physical line of the
    text is a recognizable structural line; the parser returns a result
    for every text, and for the empty text the result has no lines and
    [hasStackTrace = false]. *)
Theorem C7_hasStackTrace_iff_some_known_line :
  forall t : jsstring,
    (hasStackTrace (parseStackTrace t) = true <->
     exists l, In l (lines (parseStackTrace t)) /\ type l <> T_unknown) /\
    (hasStackTrace (parseStackTrace t) = false <->
     forall line, In line (split_lines t) -> isStackTraceLine line = false) /\
    parseStackTrace [] = mkParsed [] false [].
Proof.
  intros t.
  assert (H1 : hasStackTrace (parseStackTrace t) = true <->
     exists l, In l (lines (parseStackTrace t)) /\ type l <> T_unknown).
  { unfold parseStackTrace; simpl. rewrite existsb_exists.
    split; intros (l & Hin & Hl); exists l; split; auto.
    - intros E. rewrite E in Hl. discriminate.
    - destruct (line_type_eqb (type l) T_unknown) eqn:E; [|reflexivity].
      apply line_type_eqb_eq in E. contradiction. }
  split; [exact H1|]. split; [|reflexivity].
  rewrite <- not_true_iff_false, H1, parseStackTrace_lines. split.
  - intros Hno line Hin.
    destruct (isStackTraceLine line) eqn:E; [|reflexivity].
    apply isStackTraceLine_iff in E. destruct E as [Hb Hp].
    elim Hno. exists (parseStackTraceLine line). split.
    + apply in_map, filter_In. rewrite Hb. auto.
    + apply parseStackTraceLine_known_iff. exact Hp.
  - intros Hall (l & Hin & Hl). apply in_map_iff in Hin.
    destruct Hin as (line & <- & Hin). apply filter_In in Hin.
    destruct Hin as [Hin Hb]. apply negb_true_iff in Hb.
    apply parseStackTraceLine_known_iff in Hl.
    specialize (Hall line Hin).
    assert (isStackTraceLine line = true) by (apply isStackTraceLine_iff; auto).
    congruence.
Qed.

(** C8: [parseStackTrace t] splits [t] into its lines (a line ends at a
    line feed, with the carriage return before it if there is one; no line
    holds a line feed), drops the blank lines (white space only) and
    classifies the others: the classified lines are the image of the lines
    kept under the classifier, their contents are those lines in the order
    of the text, and [extractedText] is [t] itself. *)
Theorem C8_parse_lines_in_order :
  forall t : jsstring,
    let kept := filter (fun l => negb (is_blank l)) (spec_lines t) in
    split_lines t = spec_lines t /\
    Forall (fun line => forallb (is_not c_lf) line = true) (spec_lines t) /\
    lines (parseStackTrace t) = map parseStackTraceLine kept /\
    map content (lines (parseStackTrace t)) = kept /\
    extractedText (parseStackTrace t) = t.
Proof.
  intros t kept. subst kept. rewrite parseStackTrace_lines, split_lines_spec.
  split; [reflexivity|]. split.
  { eapply spec_lines_from_no_lf; [apply le_n | reflexivity]. }
  split; [reflexivity|]. split; [|reflexivity].
  rewrite map_map.
  rewrite (map_ext _ (fun line => line) parseStackTraceLine_content).
  apply map_id.
Qed.

Lemma parseStackTraceLine_frame_fields (line : jsstring) :
  frame_fields_ok (parseStackTraceLine line).
Proof.
  unfold parseStackTraceLine, frame_fields_ok.
  destruct (re_exec exception_pattern line); [simpl; auto|].
  destruct (re_exec at_pattern line).
  { destruct (split_method _), (split_location _); simpl;
      repeat split; discriminate. }
  destruct (re_exec caused_by_pattern line); [simpl; auto|].
  destruct (re_exec suppressed_pattern line); [simpl; auto|].
  destruct (re_exec more_pattern line); simpl; auto.
Qed.

(** C9: on every classified line, the frame fields (class name, method
    name, file name, line number) are absent unless the type is [at]; for
    the type [at] the class name, method name and file name are present.
    This holds for the classifier and so for every line of a parse
    result. *)
Theorem C9_frame_fields_only_on_frames :
  (forall line : jsstring, frame_fields_ok (parseStackTraceLine line)) /\
  (forall t : jsstring, Forall frame_fields_ok (lines (parseStackTrace t))).
Proof.
  split; [exact parseStackTraceLine_frame_fields|].
  intros t. rewrite parseStackTrace_lines. apply Forall_forall.
  intros l Hin. apply in_map_iff in Hin. destruct Hin as (line & <- & _).
  apply parseStackTraceLine_frame_fields.
Qed.

(** ** The renderer and the pipeline *)

Lemma format_line_returns (line : StackTraceLine) :
  (0 <= indent line)%Z -> exists out, format_line line = Returns out.
Proof.
  intros H. unfold format_line, repeat_js.
  destruct (indent line <? 0)%Z eqn:E; [apply Z.ltb_lt in E; lia|].
  simpl. eauto.
Qed.

Lemma map_outcome_returns {A B} (f : A -> outcome B) (l : list A) :
  Forall (fun x => exists y, f x = Returns y) l ->
  exists ys, map_outcome f l = Returns ys.
Proof.
  induction 1 as [|x l [y Hy] _ [ys IH]]; simpl; [eauto|].
  rewrite Hy. simpl. rewrite IH. simpl. eauto.
Qed.

Lemma formatAsHtml_parse_returns (e : jsstring) :
  exists out, formatAsHtml (parseStackTrace e) = Returns out /\
              out <> [] /\
              (hasStackTrace (parseStackTrace e) = false ->
               out = NO_STACKTRACE).
Proof.
  unfold formatAsHtml.
  destruct (hasStackTrace (parseStackTrace e)) eqn:Hh; cbn [negb].
  - destruct (@map_outcome_returns _ _ format_line (lines (parseStackTrace e)))
      as [ys Hys].
    { rewrite parseStackTrace_lines. apply Forall_forall. intros l Hin.
      apply in_map_iff in Hin. destruct Hin as (line & <- & _).
      apply format_line_returns, parseStackTraceLine_indent. }
    rewrite Hys. simpl. eexists. split; [reflexivity|].
    split; [discriminate|]. discriminate.
  - exists NO_STACKTRACE. split; [reflexivity|]. split; [discriminate|auto].
Qed.

(** C1: for every input string the pipeline extract, parse, render
    returns (it neither throws nor loops) and what it returns is a
    non-empty string; when the parse result has [hasStackTrace = false]
    the output is the fixed placeholder. *)
Theorem C1_pipeline_returns_nonempty_markup :
  forall x : jsstring,
  exists e out,
    extractStackTrace x = Returns e /\
    formatAsHtml (parseStackTrace e) = Returns out /\
    pipeline x = Returns out /\
    out <> [] /\
    (hasStackTrace (parseStackTrace e) = false -> out = NO_STACKTRACE).
Proof.
  intros x. destruct (extractStackTrace_returns x) as [e He].
  destruct (formatAsHtml_parse_returns e) as (out & Hf & Hne & Hp).
  exists e, out. unfold pipeline. rewrite He. simpl. auto.
Qed.

(** ** The line-run fallback *)

Lemma nth_skipn_cons (lines : list jsstring) :
  forall i line todo,
    skipn i lines = line :: todo ->
    nth i lines [] = line /\ skipn (S i) lines = todo /\ i < length lines.
Proof.
  induction lines as [|x lines IH]; intros i line todo H.
  - rewrite skipn_nil in H. discriminate.
  - destruct i as [|i]; simpl in H.
    + inversion H; subst. simpl. repeat split. lia.
    + apply IH in H. destruct H as (H1 & H2 & H3). simpl. repeat split; auto.
      lia.
Qed.

(** The index-based look-ahead reads the next two lines. *)
Lemma lookahead_firstn (lines : list jsstring) i line todo :
  skipn i lines = line :: todo ->
  lookahead lines i = existsb isStackTraceLine (firstn 2 todo).
Proof.
  intros H. apply nth_skipn_cons in H. destruct H as (_ & H & Hi).
  unfold lookahead. replace (i + 1) with (S i) by lia.
  destruct todo as [|a todo].
  - assert (length lines = S i).
    { pose proof (length_skipn (S i) lines) as L. rewrite H in L.
      simpl in L. lia. }
    replace (Nat.min (i + 3) (length lines) - S i) with 0 by lia.
    reflexivity.
  - apply nth_skipn_cons in H. destruct H as (Ha & H & Hi').
    destruct todo as [|b todo].
    + assert (length lines = S (S i)).
      { pose proof (length_skipn (S (S i)) lines) as L. rewrite H in L.
        simpl in L. lia. }
      replace (Nat.min (i + 3) (length lines) - S i) with 1 by lia.
      simpl. rewrite Ha. reflexivity.
    + apply nth_skipn_cons in H. destruct H as (Hb & _ & Hi'').
      replace (Nat.min (i + 3) (length lines) - S i) with 2 by lia.
      simpl. rewrite Ha, Hb. reflexivity.
Qed.

Lemma line_loop_in_run (lines : list jsstring) :
  forall todo i acc,
    skipn i lines = todo ->
    line_loop lines i todo true acc = acc ++ spec_run_tail todo.
Proof.
  induction todo as [|line todo IH]; intros i acc H;
    cbn [line_loop spec_run_tail].
  - rewrite app_nil_r. reflexivity.
  - pose proof (lookahead_firstn _ _ H) as Hl.
    apply nth_skipn_cons in H. destruct H as (_ & H & _).
    rewrite trim_empty_iff, Hl.
    destruct (isStackTraceLine line); cbn [andb negb].
    + rewrite (IH _ _ H), <- app_assoc. reflexivity.
    + destruct (forallb is_ws line); cbn [andb negb].
      * rewrite (IH _ _ H), <- app_assoc. reflexivity.
      * destruct (existsb isStackTraceLine (firstn 2 todo)); cbn [andb negb].
        -- rewrite (IH _ _ H), <- app_assoc. reflexivity.
        -- rewrite app_nil_r. reflexivity.
Qed.

Lemma line_loop_before_run (lines : list jsstring) :
  forall todo i acc,
    skipn i lines = todo ->
    line_loop lines i todo false acc = acc ++ spec_line_run todo.
Proof.
  induction todo as [|line todo IH]; intros i acc H; simpl.
  - rewrite app_nil_r. reflexivity.
  - apply nth_skipn_cons in H. destruct H as (_ & H & _).
    destruct (isStackTraceLine line); simpl.
    + erewrite line_loop_in_run by exact H.
      rewrite <- app_assoc. reflexivity.
    + apply IH. exact H.
Qed.

Lemma extractByLines_spec (input : jsstring) :
  extractByLines input = join [c_lf] (spec_line_run (split_lines input)).
Proof.
  unfold extractByLines.
  rewrite (@line_loop_before_run (split_lines input) _ 0 []); reflexivity.
Qed.

Lemma spec_line_run_nil (ls : list jsstring) :
  spec_line_run ls = [] <->
  forall line, In line ls -> isStackTraceLine line = false.
Proof.
  induction ls as [|l ls IH]; simpl.
  - split; [intros _ line [] | reflexivity].
  - destruct (isStackTraceLine l) eqn:E.
    + split; [discriminate|]. intros H. specialize (H l (or_introl eq_refl)).
      congruence.
    + rewrite IH. split.
      * intros H line [<- | Hin]; auto.
      * intros H line Hin. apply H. right. exact Hin.
Qed.

(** C5: when no serialized trace is found, [extractStackTrace] returns the
    line run of the input joined with single newlines.  The run starts at
    the first trace-like line; in the run, trace-like lines and blank lines
    are included, and any other line is included if a trace-like line is
    among the next two lines and ends the run otherwise.  When no line is
    trace-like no run starts and the result is the empty string. *)
Theorem C5_line_run_fallback :
  forall (input : jsstring) (r : option jsstring),
    extractSerializedStackTrace input = Returns r ->
    truthy r = false ->
    extractStackTrace input =
      Returns (join [c_lf] (spec_line_run (split_lines input))) /\
    ((forall line, In line (split_lines input) ->
                   isStackTraceLine line = false) ->
     extractStackTrace input = Returns []).
Proof.
  intros input r Hs Hr.
  assert (H : extractStackTrace input =
              Returns (join [c_lf] (spec_line_run (split_lines input)))).
  { unfold extractStackTrace. rewrite Hs. simpl.
    rewrite <- extractByLines_spec.
    destruct r as [[|c t]|]; try reflexivity. discriminate. }
  split; [exact H|].
  intros Hno. apply spec_line_run_nil in Hno. rewrite H, Hno. reflexivity.
Qed.

Lemma C5_line_run_fallback_witness :
  extractStackTrace plain_example =
    Returns (join [c_lf] (spec_line_run (split_lines plain_example))) /\
  ((forall line, In line (split_lines plain_example) ->
                 isStackTraceLine line = false) ->
   extractStackTrace plain_example = Returns []).
Proof.
  apply (@C5_line_run_fallback plain_example None).
  - vm_compute. reflexivity.
  - reflexivity.
Defined.

(** ** The trace-likeness test *)

Lemma scan_step_fold (ls : list jsstring) :
  forall st,
    let st' := fold_left scan_step ls st in
    stackTraceLineCount st' = stackTraceLineCount st + trace_like_count ls /\
    hasExceptionLine st' =
      (hasExceptionLine st || existsb exception_header_like ls)%bool /\
    hasAtLine st' = (hasAtLine st || existsb frame_like ls)%bool.
Proof.
  unfold trace_like_count.
  induction ls as [|l ls IH]; intros st; cbn [fold_left filter existsb length].
  - rewrite !orb_false_r. auto.
  - destruct (IH (scan_step st l)) as (Hc & He & Ha).
    cbv zeta in *. rewrite Hc, He, Ha. clear Hc He Ha IH.
    unfold scan_step, exception_header_like, frame_like.
    destruct (isStackTraceLine l); cbn [andb orb length stackTraceLineCount
      hasExceptionLine hasAtLine].
    + destruct (looks_like_exception l), (looks_like_at l),
        (hasExceptionLine st), (hasAtLine st);
        cbn [orb]; repeat split; lia.
    + repeat split.
Qed.



(** The middle condition can hold on its own: a single frame whose
    location holds [Error:] passes both tests of the loop, so a text of
    one trace-like line can be trace-like as a block. *)
Example single_line_block :
  trace_like_count (split_lines (str "at a.b(Error: x)")) = 1 /\
  exception_header_like (str "at a.b(Error: x)") = true /\
  frame_like (str "at a.b(Error: x)") = true /\
  containsStackTracePatterns (str "at a.b(Error: x)") = true.
Proof. vm_compute. repeat split. Qed.

(** ** Frames *)

(** What the frame pattern makes of a line it matches. *)
Lemma at_pattern_shape line m :
  re_exec at_pattern line = Some m ->
  exists lead sep c1 u c2 v loc trail,
    line = lead ++ str "at" ++ sep ++ ((c1 :: u) ++ c_dot :: c2 :: v) ++
           c_lparen :: loc ++ c_rparen :: trail /\
    forallb is_ws lead = true /\
    sep <> [] /\ forallb is_ws sep = true /\
    is_ident_start c1 = true /\ forallb is_ident_dot u = true /\
    is_ident_start c2 = true /\ forallb is_ident_part v = true /\
    loc <> [] /\ forallb (is_not c_rparen) loc = true /\
    forallb is_ws trail = true /\
    group 2 m = (c1 :: u) ++ c_dot :: c2 :: v /\
    group 3 m = loc.
Proof.
  intros H. apply re_exec_anchored in H. destruct H as (x & H & G).
  open_shape H. cancel_tails.
  match goal with
  | Hg : groups m = [(3, ?c3 :: ?w3); (2, (?c1 :: ?u) ++ c_dot :: ?c2 :: ?v);
                     (1, ?lead)],
    Hs : is_ws ?cs = true, Hss : forallb is_ws ?ss = true,
    Ht : forallb is_ws ?trail = true |- context [?cs :: ?ss ++ _] =>
      exists lead, (cs :: ss), c1, u, c2, v, (c3 :: w3), trail
  end.
  unfold group.
  match goal with Hg : groups m = _ |- _ => rewrite Hg end.
  cbn [get_cap Nat.eqb forallb].
  repeat match goal with H : _ = true |- _ => rewrite H end.
  rewrite app_nil_r. cbn [andb].
  repeat split; try discriminate.
  rewrite <- !app_assoc. reflexivity.
Qed.

Lemma lastIndexOf_from_absent c l :
  forallb (is_not c) l = true ->
  forall i found, lastIndexOf_from c i found l = found.
Proof.
  induction l as [|x l IH]; simpl; intros H i found; [reflexivity|].
  apply andb_true_iff in H. destruct H as [Hx Hl].
  unfold is_not in Hx. apply negb_true_iff in Hx. rewrite Hx.
  apply IH. exact Hl.
Qed.

Lemma lastIndexOf_from_last c a b :
  forallb (is_not c) b = true ->
  forall i found,
    lastIndexOf_from c i found (a ++ c :: b) = (i + Z.of_nat (length a))%Z.
Proof.
  intros Hb. induction a as [|x a IH]; intros i found.
  - simpl. rewrite N.eqb_refl, lastIndexOf_from_absent by exact Hb. lia.
  - cbn [app lastIndexOf_from length]. rewrite IH. lia.
Qed.

(** The method name is what follows the last dot, the class name what
    precedes it. *)
Lemma split_method_last_dot (a b : jsstring) :
  a <> [] -> forallb (is_not c_dot) b = true ->
  split_method (a ++ c_dot :: b) = (a, b).
Proof.
  intros Ha Hb. unfold split_method, lastIndexOf.
  rewrite lastIndexOf_from_last by exact Hb.
  assert (0 < length a) by (destruct a; [congruence | simpl; lia]).
  replace (0 + Z.of_nat (length a) >? 0)%Z with true
    by (symmetry; apply Z.gtb_lt; lia).
  unfold substring. cbn [skipn]. f_equal.
  - replace (Z.to_nat (0 + Z.of_nat (length a)) - 0) with (length a) by lia.
    rewrite firstn_app, Nat.sub_diag, firstn_all. simpl. apply app_nil_r.
  - replace (Z.to_nat (0 + Z.of_nat (length a) + 1)) with (length a + 1)
      by lia.
    rewrite skipn_app, skipn_all2 by lia.
    replace (length a + 1 - length a) with 1 by lia. reflexivity.
Qed.


Lemma ident_part_not_dot (c : char) :
  is_ident_part c = true -> is_not c_dot c = true.
Proof.
  unfold is_not. destruct (N.eqb_spec c c_dot) as [->|]; [|reflexivity].
  vm_compute. discriminate.
Qed.

Lemma ident_start_not_dot (c : char) :
  is_ident_start c = true -> is_not c_dot c = true.
Proof.
  unfold is_not. destruct (N.eqb_spec c c_dot) as [->|]; [|reflexivity].
  vm_compute. discriminate.
Qed.

(** How the fields of a frame come from the match of the frame pattern. *)
Lemma parseStackTraceLine_at line :
  type (parseStackTraceLine line) = T_at ->
  exists m,
    re_exec at_pattern line = Some m /\
    className (parseStackTraceLine line)
      = Some (fst (split_method (group 2 m))) /\
    methodName (parseStackTraceLine line)
      = Some (snd (split_method (group 2 m))) /\
    fileName (parseStackTraceLine line)
      = Some (fst (split_location (group 3 m))) /\
    lineNumber (parseStackTraceLine line)
      = snd (split_location (group 3 m)).
Proof.
  unfold parseStackTraceLine.
  destruct (re_exec exception_pattern line); [discriminate|].
  destruct (re_exec at_pattern line) as [m|].
  { intros _. exists m.
    destruct (split_method _), (split_location _). simpl. auto. }
  destruct (re_exec caused_by_pattern line); [discriminate|].
  destruct (re_exec suppressed_pattern line); [discriminate|].
  destruct (re_exec more_pattern line); discriminate.
Qed.

(** C10: on every line classified as a frame the class name and the
    method name are present and non-empty: the frame pattern demands a dot
    with an identifier character on either side, so the path always splits
    at a dot that is not its first character. *)
Theorem C10_frame_class_and_method_nonempty :
  forall line : jsstring,
    type (parseStackTraceLine line) = T_at ->
    exists cls meth,
      className (parseStackTraceLine line) = Some cls /\
      methodName (parseStackTraceLine line) = Some meth /\
      cls <> [] /\ meth <> [].
Proof.
  intros line Ht. apply parseStackTraceLine_at in Ht.
  destruct Ht as (m & Hm & Hc & Hn & _).
  apply at_pattern_shape in Hm.
  destruct Hm as (lead & sep & c1 & u & c2 & v & loc & trail & _ & _ & _ & _
                  & _ & _ & H2 & Hv & _ & _ & _ & G2 & _).
  rewrite G2 in Hc, Hn.
  rewrite split_method_last_dot in Hc, Hn;
    try discriminate;
    try (cbn [forallb]; rewrite (ident_start_not_dot _ H2),
           (forallb_impl _ _ _ ident_part_not_dot Hv); reflexivity).
  exists (c1 :: u), (c2 :: v). repeat split; auto; discriminate.
Qed.

Lemma C10_frame_class_and_method_nonempty_witness :
  exists cls meth,
    className (parseStackTraceLine (str "at a.b(x)")) = Some cls /\
    methodName (parseStackTraceLine (str "at a.b(x)")) = Some meth /\
    cls <> [] /\ meth <> [].
Proof.
  apply (C10_frame_class_and_method_nonempty (str "at a.b(x)")).
  vm_compute. reflexivity.
Defined.

(** ** The location of a frame *)







(** A location that starts with the colon has no file part, so it is no
    [file:digits] location: it is kept whole. *)
Example location_without_file :
  split_location (str ":12") = (str ":12", None).
Proof. vm_compute. reflexivity. Qed.



(** ** Unescaping *)

Lemma match_at_esc c q l :
  match_at (esc c) q l =
  match l with
  | x :: y :: t =>
      if (N.eqb c_backslash x && N.eqb c y)%bool
      then Some (MState (S (S q)) t []) else None
  | _ => None
  end.
Proof.
  unfold match_at, esc, Chr.
  destruct l as [|x [|y t]]; cbn [rmatch rest advance pos caps andb];
    try reflexivity.
  - destruct (N.eqb c_backslash x); reflexivity.
  - destruct (N.eqb c_backslash x); cbn [andb]; [|reflexivity].
    destruct (N.eqb c y); reflexivity.
Qed.

Lemma replace_escape_spec c r :
  forall n l, length l <= n ->
  forall q, replace_go (esc c) (const [r]) 0 q l = spec_replace_escape c r l.
Proof.
  induction n as [|n IH]; intros l Hn q.
  - destruct l; [|simpl in Hn; lia].
    cbn [replace_go spec_replace_escape]. rewrite match_at_esc. reflexivity.
  - destruct l as [|x t];
      [cbn [replace_go spec_replace_escape]; rewrite match_at_esc;
       reflexivity|].
    cbn [replace_go spec_replace_escape]. rewrite match_at_esc.
    simpl in Hn. destruct t as [|y t'].
    + cbn [replace_go]. rewrite match_at_esc. reflexivity.
    + destruct (N.eqb c_backslash x && N.eqb c y)%bool.
      * cbn [pos]. replace (Nat.eqb (S (S q)) q) with false
          by (symmetry; apply Nat.eqb_neq; lia).
        replace (S (S q) - q - 1) with 1 by lia.
        cbn [replace_go const app]. f_equal. apply IH. simpl in Hn. lia.
      * f_equal. apply IH. lia.
Qed.

Lemma replace_all_escape c r l :
  replace_all (esc c) (const [r]) l = spec_replace_escape c r l.
Proof. unfold replace_all. eapply replace_escape_spec. apply le_n. Qed.

Lemma rmatch_rep (p : char -> bool) (n : nat) :
  forall k s,
    rmatch (Rep n (Cls p)) k s =
    if (Nat.leb n (length (rest s)) && forallb p (firstn n (rest s)))%bool
    then k (MState (pos s + n) (skipn n (rest s)) (caps s))
    else None.
Proof.
  induction n as [|n IH]; intros k s.
  - destruct s as [q l cs]. cbn [Rep rmatch pos rest caps Nat.leb firstn
      forallb skipn andb]. rewrite Nat.add_0_r. reflexivity.
  - destruct s as [q l cs]. cbn [Rep rmatch pos rest caps].
    destruct l as [|c t]; [reflexivity|].
    cbn [length Nat.leb firstn forallb skipn].
    destruct (p c); cbn [andb]; [|rewrite andb_false_r; reflexivity].
    rewrite IH. unfold advance. cbn [pos rest caps].
    replace (S q + n) with (q + S n) by lia. reflexivity.
Qed.

Lemma match_at_hex marker n q l :
  match_at (hex_pattern marker n) q l =
  if hex_escape_at marker n l
  then Some (MState (q + 2 + n) (skipn n (skipn 2 l))
                    [(1, firstn n (skipn 2 l))])
  else None.
Proof.
  unfold match_at, hex_pattern, esc, Chr, hex_escape_at.
  destruct l as [|x [|y t]]; cbn [rmatch rest advance pos caps andb];
    try reflexivity.
  - destruct (N.eqb c_backslash x); reflexivity.
  - destruct (N.eqb c_backslash x); cbn [andb]; [|reflexivity].
    destruct (N.eqb marker y); cbn [andb]; [|reflexivity].
    rewrite rmatch_rep. unfold advance. cbn [pos rest caps skipn].
    destruct (Nat.leb n (length t) && forallb is_hex (firstn n t))%bool;
      [|reflexivity].
    unfold set_cap. cbn [pos rest caps].
    replace (S (S q) + n - S (S q)) with n by lia.
    replace (S (S q) + n) with (q + 2 + n) by lia. reflexivity.
Qed.

Lemma replace_hex_spec marker n :
  forall l skip q,
    replace_go (hex_pattern marker n)
      (fun m => fromCharCode (parseInt_hex (group 1 m))) skip q l
    = spec_replace_hex marker n skip l.
Proof.
  induction l as [|x t IH]; intros skip q;
    cbn [replace_go spec_replace_hex].
  - destruct skip; [|reflexivity]. rewrite match_at_hex. reflexivity.
  - destruct skip as [|k]; [|apply IH].
    rewrite match_at_hex.
    destruct (hex_escape_at marker n (x :: t)) eqn:E.
    + cbn [pos]. replace (Nat.eqb (q + 2 + n) q) with false
        by (symmetry; apply Nat.eqb_neq; lia).
      replace (q + 2 + n - q - 1) with (S n) by lia.
      rewrite IH. reflexivity.
    + rewrite IH. reflexivity.
Qed.

(** The first half of C3: [unescapeJsonString] is the seven passes of the
    specification, applied in its order. *)
Lemma unescapeJsonString_spec (s : jsstring) :
  unescapeJsonString s = spec_unescape s.
Proof.
  unfold unescapeJsonString, spec_unescape.
  rewrite !replace_all_escape.
  unfold replace_all.
  change unicode_escape with (hex_pattern c_u 4).
  change hex_escape with (hex_pattern c_x 2).
  rewrite !replace_hex_spec. reflexivity.
Qed.

(** The order of the passes shows on an escaped backslash followed by
    [n]: the [\n] pass comes first and takes the second backslash. *)
Example unescape_order :
  unescapeJsonString [c_backslash; c_backslash; c_n] = [c_backslash; c_lf].
Proof. vm_compute. reflexivity. Qed.

(** ** String values with simple escapes *)






Lemma spec_replace_escape_cons c r x y t :
  spec_replace_escape c r (x :: y :: t) =
  if (N.eqb c_backslash x && N.eqb c y)%bool
  then r :: spec_replace_escape c r t
  else x :: spec_replace_escape c r (y :: t).
Proof. reflexivity. Qed.




Lemma spec_replace_escape_id c r l :
  forallb (is_not c_backslash) l = true -> spec_replace_escape c r l = l.
Proof.
  induction l as [|x t IH]; intros H; [reflexivity|].
  cbn [forallb] in H. apply andb_true_iff in H. destruct H as [Hx Ht].
  destruct t as [|y t']; [reflexivity|].
  rewrite spec_replace_escape_cons, (IH Ht).
  unfold is_not in Hx. apply negb_true_iff in Hx.
  rewrite N.eqb_sym, Hx. reflexivity.
Qed.

Lemma spec_replace_hex_id marker n l :
  forallb (is_not c_backslash) l = true -> spec_replace_hex marker n 0 l = l.
Proof.
  induction l as [|x t IH]; intros H; [reflexivity|].
  cbn [forallb] in H. apply andb_true_iff in H. destruct H as [Hx Ht].
  cbn [spec_replace_hex]. unfold is_not in Hx. apply negb_true_iff in Hx.
  replace (hex_escape_at marker n (x :: t)) with false.
  - rewrite (IH Ht). reflexivity.
  - unfold hex_escape_at. destruct t; [reflexivity|].
    rewrite N.eqb_sym, Hx. reflexivity.
Qed.






Lemma includes_backslash p l :
  forallb (is_not c_backslash) l = true ->
  includes (c_backslash :: p) l = false.
Proof.
  induction l as [|x l IH]; intros H; [reflexivity|].
  cbn [forallb] in H. apply andb_true_iff in H. destruct H as [Hx Hl].
  cbn [includes starts_with]. unfold is_not in Hx.
  apply negb_true_iff in Hx. rewrite N.eqb_sym, Hx. cbn [andb orb].
  apply IH. exact Hl.
Qed.

(** ** Quoted strings *)

Lemma is_plain_iff c :
  is_plain c = true <-> N.eqb c c_dquote = false /\ N.eqb c c_backslash = false.
Proof.
  unfold is_plain, is_not2. rewrite negb_true_iff, orb_false_iff. tauto.
Qed.

Lemma qbody_plain_app p b :
  forallb is_plain p = true -> qbody (p ++ b) = qbody b.
Proof.
  induction p as [|x p IH]; intros H; [reflexivity|].
  cbn [forallb] in H. apply andb_true_iff in H. destruct H as [Hx Hp].
  apply is_plain_iff in Hx. destruct Hx as [Hq Hb].
  cbn [app qbody]. rewrite Hb, Hq. cbn [negb andb]. apply IH. exact Hp.
Qed.


Lemma star_pairs_shape s x :
  Matches (Star pair_group) s x ->
  exists w, rest s = w ++ rest x /\ qbody w = true.
Proof.
  intros H. remember (Star pair_group) as r eqn:Hr.
  induction H; try discriminate; inversion Hr; subst.
  - exists []. auto.
  - destruct (IHMatches2 eq_refl) as (w2 & E2 & Q2). clear IHMatches1 IHMatches2.
    unfold pair_group, escaped_pair, plain_run in H.
    open_shape H. cancel_tails.
    match goal with
    | Hd : is_any ?d = true, Hp : forallb (is_not2 _ _) ?p = true |- _ =>
        exists (c_backslash :: d :: p ++ w2);
        pose proof (@qbody_plain_app p w2 Hp) as Hq; split
    end.
    + cbn [app]. rewrite <- app_assoc. reflexivity.
    + cbn [qbody]. rewrite N.eqb_refl.
      match goal with Hd : is_any _ = true |- _ => rewrite Hd end.
      rewrite Hq, Q2. reflexivity.
Qed.






Lemma quoted_inside_shape s x :
  Matches quoted_group_body s x ->
  exists w, rest s = w ++ rest x /\ qbody w = true.
Proof.
  intros H. inversion H; subst.
  match goal with
  | H1 : Matches plain_run _ _, H2 : Matches (Star pair_group) _ _ |- _ =>
      apply Matches_star_cls in H1; destruct H1 as (p & E & Hp & _);
      apply star_pairs_shape in H2; destruct H2 as (w & E2 & Hw)
  end.
  exists (p ++ w). rewrite E, E2, app_assoc. split; [reflexivity|].
  rewrite qbody_plain_app by exact Hp. exact Hw.
Qed.











(** * Further properties *)

(** ** Escaping for markup *)

Lemma match_at_chr c q l :
  match_at (Chr c) q l =
  match l with
  | x :: t => if N.eqb c x then Some (MState (S q) t []) else None
  | [] => None
  end.
Proof.
  unfold match_at, Chr. destruct l as [|x t]; cbn [rmatch rest]; [reflexivity|].
  destruct (N.eqb c x); reflexivity.
Qed.

(** A global replacement of one character is a character-wise
    substitution. *)
Lemma replace_all_chr c repl :
  forall l q,
    replace_go (Chr c) (const repl) 0 q l
    = flat_map (fun x => if N.eqb c x then repl else [x]) l.
Proof.
  induction l as [|x t IH]; intros q; cbn [replace_go flat_map].
  - rewrite match_at_chr. reflexivity.
  - rewrite match_at_chr. destruct (N.eqb c x).
    + cbn [pos]. replace (Nat.eqb (S q) q) with false
        by (symmetry; apply Nat.eqb_neq; lia).
      replace (S q - q - 1) with 0 by lia. rewrite IH. reflexivity.
    + rewrite IH. reflexivity.
Qed.

Lemma flat_map_compose (f g : char -> jsstring) (l : jsstring) :
  flat_map g (flat_map f l) = flat_map (fun x => flat_map g (f x)) l.
Proof.
  induction l as [|x l IH]; [reflexivity|].
  cbn [flat_map]. rewrite flat_map_app, IH. reflexivity.
Qed.

Lemma escapeHtml_flat_map (text : jsstring) :
  escapeHtml text = flat_map html_entity text.
Proof.
  unfold escapeHtml, replace_all, amp_pattern, lt_pattern, gt_pattern,
    dquote_pattern, squote_pattern.
  rewrite !replace_all_chr, !flat_map_compose.
  apply flat_map_ext. intros c. unfold html_entity.
  destruct (N.eqb_spec c_amp c) as [<-|Ha]; [reflexivity|].
  destruct (N.eqb_spec c_lt c) as [<-|Hl]; [reflexivity|].
  destruct (N.eqb_spec c_gt c) as [<-|Hg]; [reflexivity|].
  destruct (N.eqb_spec c_dquote c) as [<-|Hd]; [reflexivity|].
  destruct (N.eqb_spec c_squote c) as [<-|Hs]; [reflexivity|].
  apply N.eqb_neq in Hl, Hg, Hd, Hs.
  repeat (cbn [flat_map app]; rewrite ?Hl, ?Hg, ?Hd, ?Hs, ?app_nil_r).
  reflexivity.
Qed.

(** X1: the five replacements of [escapeHtml] act as one substitution,
    character by character: each of the five special characters becomes
    its entity, once (the ampersand of an entity is not escaped again),
    and any other character is kept; so escaping distributes over
    concatenation. *)
Theorem X1_escapeHtml_characterwise :
  forall a b : jsstring,
    escapeHtml a = flat_map html_entity a /\
    escapeHtml (a ++ b) = escapeHtml a ++ escapeHtml b.
Proof.
  intros a b. rewrite !escapeHtml_flat_map, flat_map_app. auto.
Qed.

Lemma html_entity_cases (c : char) :
  (c = c_amp /\ html_entity c = str "&amp;") \/
  (c = c_lt /\ html_entity c = str "&lt;") \/
  (c = c_gt /\ html_entity c = str "&gt;") \/
  (c = c_dquote /\ html_entity c = str "&quot;") \/
  (c = c_squote /\ html_entity c = str "&#39;") \/
  (html_entity c = [c] /\ c <> c_amp /\ is_markup c = false).
Proof.
  unfold html_entity.
  destruct (N.eqb_spec c_amp c) as [<-|Ha]; [auto|].
  destruct (N.eqb_spec c_lt c) as [<-|Hl]; [auto|].
  destruct (N.eqb_spec c_gt c) as [<-|Hg]; [auto 6|].
  destruct (N.eqb_spec c_dquote c) as [<-|Hd]; [auto 6|].
  destruct (N.eqb_spec c_squote c) as [<-|Hs]; [auto 7|].
  do 5 right. split; [reflexivity|]. split; [congruence|].
  unfold is_markup.
  repeat match goal with
         | H : ?k <> c |- _ =>
             let E := fresh in
             assert (E : N.eqb c k = false)
               by (apply N.eqb_neq; congruence);
             rewrite ?E; clear H
         end.
  reflexivity.
Qed.

Lemma html_entity_clean (c : char) :
  forallb (fun x => negb (is_markup x)) (html_entity c) = true.
Proof.
  destruct (html_entity_cases c)
    as [[_ ->]|[[_ ->]|[[_ ->]|[[_ ->]|[[_ ->]|(-> & _ & H)]]]]];
    try reflexivity.
  cbn [forallb]. rewrite H. reflexivity.
Qed.

Lemma escapeHtml_clean (text : jsstring) :
  forallb (fun x => negb (is_markup x)) (escapeHtml text) = true.
Proof.
  rewrite escapeHtml_flat_map.
  induction text as [|c t IH]; [reflexivity|].
  cbn [flat_map]. rewrite forallb_app, html_entity_clean, IH. reflexivity.
Qed.

(** X2: the output of [escapeHtml] holds none of the characters that open
    or close a tag or an attribute value, whatever the text. *)
Theorem X2_escapeHtml_no_markup_character :
  forall text : jsstring,
    forallb (fun x => negb (is_markup x)) (escapeHtml text) = true.
Proof.
  intros text. rewrite escapeHtml_flat_map.
  induction text as [|c t IH]; [reflexivity|].
  cbn [flat_map]. rewrite forallb_app. apply andb_true_iff.
  split; [apply html_entity_clean | exact IH].
Qed.

Lemma html_entity_head_inj (x y : char) (a b : jsstring) :
  html_entity x ++ a = html_entity y ++ b -> x = y /\ a = b.
Proof.
  destruct (html_entity_cases x)
    as [[-> ->]|[[-> ->]|[[-> ->]|[[-> ->]|[[-> ->]|(-> & Hx & _)]]]]];
  destruct (html_entity_cases y)
    as [[-> ->]|[[-> ->]|[[-> ->]|[[-> ->]|[[-> ->]|(-> & Hy & _)]]]]];
  intros H; vm_compute in H; try discriminate;
  injection H; intros; subst; try (split; reflexivity);
  exfalso; (apply Hx || apply Hy); reflexivity.
Qed.

(** X3: [escapeHtml] is injective: two texts with the same escaped form
    are the same text. *)
Theorem X3_escapeHtml_injective :
  forall a b : jsstring, escapeHtml a = escapeHtml b -> a = b.
Proof.
  intros a b. rewrite !escapeHtml_flat_map. revert b.
  induction a as [|x a IH]; intros [|y b] H; cbn [flat_map] in H.
  - reflexivity.
  - destruct (html_entity_cases y)
      as [[_ E]|[[_ E]|[[_ E]|[[_ E]|[[_ E]|(E & _)]]]]];
      rewrite E in H; discriminate.
  - destruct (html_entity_cases x)
      as [[_ E]|[[_ E]|[[_ E]|[[_ E]|[[_ E]|(E & _)]]]]];
      rewrite E in H; discriminate.
  - apply html_entity_head_inj in H. destruct H as [-> H].
    rewrite (IH _ H). reflexivity.
Qed.

Lemma X3_escapeHtml_injective_witness :
  str "a<b" = str "a<b".
Proof.
  apply (X3_escapeHtml_injective (str "a<b") (str "a<b")). reflexivity.
Defined.

(** ** The markup of a rendered trace *)

Lemma count_char_app c (a b : jsstring) :
  count_char c (a ++ b) = count_char c a + count_char c b.
Proof. unfold count_char. rewrite filter_app, length_app. reflexivity. Qed.

Lemma count_char_clean c (l : jsstring) :
  is_markup c = true ->
  forallb (fun x => negb (is_markup x)) l = true -> count_char c l = 0.
Proof.
  intros Hc. unfold count_char.
  induction l as [|x l IH]; [reflexivity|]. cbn [forallb filter].
  intros H. apply andb_true_iff in H. destruct H as [Hx Hl].
  destruct (N.eqb_spec c x) as [<-|_]; [|exact (IH Hl)].
  rewrite Hc in Hx. discriminate.
Qed.

Lemma count_char_escapeHtml c text :
  is_markup c = true -> count_char c (escapeHtml text) = 0.
Proof.
  intros Hc. apply count_char_clean; [exact Hc|]. apply escapeHtml_clean.
Qed.

Lemma count_char_repeat c (s : jsstring) n :
  count_char c s = 0 -> count_char c (concat (repeat s n)) = 0.
Proof.
  intros Hs. induction n as [|n IH]; [reflexivity|].
  cbn [repeat concat]. rewrite count_char_app, Hs, IH. reflexivity.
Qed.

Lemma string_of_uint_digits (d : Decimal.uint) :
  forallb is_digit (str (NilEmpty.string_of_uint d)) = true.
Proof. induction d; cbn; auto. Qed.

Lemma number_to_string_digits (n : N) :
  forallb is_digit (number_to_string n) = true.
Proof.
  unfold number_to_string, NilZero.string_of_uint.
  destruct (N.to_uint n); try reflexivity; apply string_of_uint_digits.
Qed.

Lemma digit_not_markup (c : char) : is_digit c = true -> is_markup c = false.
Proof.
  unfold is_digit, is_markup. intros H.
  apply andb_true_iff in H. destruct H as [H1 H2].
  apply N.leb_le in H1, H2.
  repeat match goal with
         | |- context [N.eqb c ?k] =>
             replace (N.eqb c k) with false
               by (symmetry; apply N.eqb_neq; unfold k; lia)
         end.
  reflexivity.
Qed.

Lemma count_char_number c (n : N) :
  is_markup c = true -> count_char c (number_to_string n) = 0.
Proof.
  intros Hc. apply count_char_clean; [exact Hc|].
  eapply forallb_impl; [|apply number_to_string_digits].
  intros x Hx. rewrite (digit_not_markup _ Hx). reflexivity.
Qed.

Ltac count_constants :=
  repeat match goal with
         | |- context [count_char ?c (str ?s)] =>
             let v := eval vm_compute in (count_char c (str s)) in
             change (count_char c (str s)) with v
         | |- context [count_char ?c [?x]] =>
             let v := eval vm_compute in (count_char c [x]) in
             change (count_char c [x]) with v
         | |- context [count_char ?c []] =>
             change (count_char c []) with 0
         end.

Lemma count_char_quoted c (s : jsstring) :
  count_char c (quoted s)
  = count_char c [c_dquote] + count_char c s + count_char c [c_dquote].
Proof.
  change (quoted s) with ([c_dquote] ++ s ++ [c_dquote]).
  rewrite !count_char_app. lia.
Qed.

(** The characters that delimit tags and attribute values. *)
Lemma count_char_div c (cls body : jsstring) :
  c = c_lt \/ c = c_gt \/ c = c_dquote ->
  count_char c (div cls body) = 2 + count_char c cls + count_char c body.
Proof.
  intros [->|[->| ->]]; unfold div;
    rewrite !count_char_app, count_char_quoted; count_constants; lia.
Qed.

Lemma count_char_span c (cls body : jsstring) :
  c = c_lt \/ c = c_gt \/ c = c_dquote ->
  count_char c (span cls body) = 2 + count_char c cls + count_char c body.
Proof.
  intros [->|[->| ->]]; unfold span;
    rewrite !count_char_app, count_char_quoted; count_constants; lia.
Qed.

Lemma tag_char_markup c :
  c = c_lt \/ c = c_gt \/ c = c_dquote -> is_markup c = true.
Proof. intros [->|[->| ->]]; reflexivity. Qed.

Lemma count_char_type_name c t :
  c = c_lt \/ c = c_gt \/ c = c_dquote ->
  count_char c (str "stacktrace-" ++ type_name t) = 0.
Proof. intros [->|[->| ->]]; destruct t; reflexivity. Qed.

Lemma Returns_inj A (a b : A) : Returns a = Returns b -> a = b.
Proof. intros H. injection H as ->. reflexivity. Qed.

Lemma format_line_count c (line : StackTraceLine) (out : jsstring) :
  c = c_lt \/ c = c_gt \/ c = c_dquote ->
  format_line line = Returns out ->
  count_char c out = tag_count (type line).
Proof.
  intros Hc H. pose proof (tag_char_markup Hc) as Hm.
  unfold format_line, repeat_js in H.
  destruct (indent line <? 0)%Z; [discriminate|].
  unfold bind in H. cbv beta iota zeta in H.
  apply Returns_inj in H. subst out.
  assert (Hn : count_char c
                 (concat (repeat (str "&nbsp;") (Z.to_nat (indent line)))) = 0).
  { apply count_char_repeat. destruct Hc as [->|[->| ->]]; reflexivity. }
  destruct (type line); cbn [tag_count];
    rewrite (count_char_div _ _ Hc), (count_char_type_name _ Hc);
    try (destruct (lineNumber line) as [n|]; [destruct (N.eqb n 0)|]);
    repeat first
      [ rewrite count_char_app
      | rewrite count_char_span by exact Hc
      | rewrite count_char_escapeHtml by exact Hm
      | rewrite count_char_number by exact Hm
      | rewrite Hn ];
    destruct Hc as [->|[->| ->]]; count_constants; reflexivity.
Qed.

Lemma map_outcome_count c (ls : list StackTraceLine) :
  c = c_lt \/ c = c_gt \/ c = c_dquote ->
  forall outs,
    map_outcome format_line ls = Returns outs ->
    count_char c (join [c_lf] outs)
    = list_sum (map (fun line => tag_count (type line)) ls).
Proof.
  intros Hc. induction ls as [|x t IH]; intros outs H; cbn [map_outcome] in H.
  - injection H as <-. reflexivity.
  - destruct (format_line x) as [y| |] eqn:Hy; cbn [bind] in H;
      try discriminate.
    destruct (map_outcome format_line t) as [ys| |] eqn:Hys; cbn [bind] in H;
      try discriminate.
    injection H as <-. cbn [map].
    change (list_sum (?h :: ?r)) with (h + list_sum r).
    rewrite <- (IH _ eq_refl), <- (@format_line_count c x y Hc Hy).
    destruct ys as [|z ys];
      [cbn [join]; change (count_char c []) with 0; lia|].
    change (join [c_lf] (y :: z :: ys))
      with (y ++ [c_lf] ++ join [c_lf] (z :: ys)).
    rewrite !count_char_app.
    destruct Hc as [->|[->| ->]]; count_constants; lia.
Qed.

(** X4: in the markup of a trace, the characters [<], [>] and the double
    quote occur only in the tags the renderer writes itself: one pair for
    the container and, for each line, as many as the elements of its
    kind need (four for a header or an elision, eight for a frame, six
    for a cause or a suppressed exception, two for any other line),
    whatever the text of the lines and of their fields. *)
Theorem X4_formatAsHtml_markup_only_from_tags :
  forall (parsed : ParsedStackTrace) (out : jsstring) (c : char),
    c = c_lt \/ c = c_gt \/ c = c_dquote ->
    hasStackTrace parsed = true ->
    formatAsHtml parsed = Returns out ->
    count_char c out
    = 2 + list_sum (map (fun line => tag_count (type line)) (lines parsed)).
Proof.
  intros parsed out c Hc Ht H. unfold formatAsHtml in H. rewrite Ht in H.
  cbn [negb] in H.
  destruct (map_outcome format_line (lines parsed)) as [outs| |] eqn:Ho;
    cbn [bind] in H; try discriminate.
  injection H as <-.
  rewrite (count_char_div _ _ Hc), (@map_outcome_count c _ Hc _ Ho).
  destruct Hc as [->|[->| ->]]; count_constants; lia.
Qed.

Lemma X4_formatAsHtml_markup_only_from_tags_witness :
  count_char c_lt
    (str "<div class=" ++ quoted (str "stacktrace-container") ++ str ">" ++
     str "<div class=" ++ quoted (str "stacktrace-unknown") ++ str ">" ++
     str "a&lt;b" ++ str "</div>" ++ str "</div>")
  = 2 + list_sum [2].
Proof.
  apply (@X4_formatAsHtml_markup_only_from_tags
           (mkParsed
              [mkLine T_unknown (str "a<b") None None None None 0]
              true (str "a<b"))
           _ c_lt);
    [left; reflexivity | reflexivity | reflexivity].
Defined.

(** ** When rendering throws *)




(** ** The indent of a line *)

Lemma dropWhile_split (p : char -> bool) (l : jsstring) :
  exists lead,
    l = lead ++ dropWhile p l /\ forallb p lead = true /\
    match dropWhile p l with c :: _ => p c = false | [] => True end.
Proof.
  induction l as [|c t (lead & E & F & H)]; cbn [dropWhile].
  - exists []. auto.
  - destruct (p c) eqn:Hc.
    + exists (c :: lead). cbn [app forallb]. rewrite Hc, F, <- E. auto.
    + exists []. cbn [app forallb]. auto.
Qed.

Lemma parseStackTraceLine_indent_eq (line : jsstring) :
  indent (parseStackTraceLine line)
  = (Z.of_nat (length line) - Z.of_nat (length (trimStart line)))%Z.
Proof.
  unfold parseStackTraceLine.
  destruct (re_exec exception_pattern line); [reflexivity|].
  destruct (re_exec at_pattern line).
  { destruct (split_method _), (split_location _); reflexivity. }
  destruct (re_exec caused_by_pattern line); [reflexivity|].
  destruct (re_exec suppressed_pattern line); [reflexivity|].
  destruct (re_exec more_pattern line); reflexivity.
Qed.

(** X6: the indent recorded for a line is the number of white-space
    characters before its first character that is not white space (the
    whole length for a blank line), whatever the type of the line. *)
Theorem X6_indent_counts_leading_whitespace :
  forall line : jsstring,
  exists lead : jsstring,
    line = lead ++ trimStart line /\
    forallb is_ws lead = true /\
    match trimStart line with c :: _ => is_ws c = false | [] => True end /\
    indent (parseStackTraceLine line) = Z.of_nat (length lead).
Proof.
  intros line. destruct (dropWhile_split is_ws line) as (lead & E & F & H).
  exists lead. unfold trimStart. repeat (split; [assumption|]).
  rewrite parseStackTraceLine_indent_eq. unfold trimStart.
  rewrite E at 1. rewrite length_app. lia.
Qed.

(** ** Unescaping *)

Lemma spec_replace_escape_length c r :
  forall n l, length l <= n -> length (spec_replace_escape c r l) <= length l.
Proof.
  induction n as [|n IH]; intros [|x [|y t]] Hn; cbn [length] in *;
    try lia; try (cbn; lia).
  rewrite spec_replace_escape_cons.
  destruct (N.eqb c_backslash x && N.eqb c y)%bool; cbn [length].
  - pose proof (IH t). lia.
  - pose proof (IH (y :: t)). cbn [length] in *. lia.
Qed.

Lemma spec_replace_hex_length marker n :
  forall l skip, length (spec_replace_hex marker n skip l) <= length l.
Proof.
  induction l as [|x t IH]; intros skip; cbn [spec_replace_hex length];
    [lia|].
  destruct skip as [|k]; [|pose proof (IH k); lia].
  destruct (hex_escape_at marker n (x :: t)).
  - unfold fromCharCode. cbn [app length]. pose proof (IH (S n)). lia.
  - cbn [length]. pose proof (IH 0). lia.
Qed.

(** X7: [unescapeJsonString] never makes a text longer, and leaves a text
    without backslash as it is. *)
Theorem X7_unescapeJsonString_shrinks :
  forall s : jsstring,
    length (unescapeJsonString s) <= length s /\
    (forallb (is_not c_backslash) s = true -> unescapeJsonString s = s).
Proof.
  intros s. rewrite unescapeJsonString_spec. unfold spec_unescape. split.
  - repeat match goal with
           | |- length (spec_replace_hex ?m ?n ?k ?l) <= _ =>
               etransitivity; [apply spec_replace_hex_length|]
           | |- length (spec_replace_escape ?c ?r ?l) <= _ =>
               etransitivity;
               [apply (@spec_replace_escape_length c r _ l (le_n _))|]
           end.
    apply le_n.
  - intros H.
    rewrite !(@spec_replace_escape_id _ _ s H).
    rewrite !(@spec_replace_hex_id _ _ s H). reflexivity.
Qed.

Lemma X7_unescapeJsonString_shrinks_witness :
  unescapeJsonString (str "at a.B.c(B.java:12)") = str "at a.B.c(B.java:12)".
Proof.
  apply (proj2 (X7_unescapeJsonString_shrinks (str "at a.B.c(B.java:12)"))).
  reflexivity.
Defined.

(** ** What the serialized strategies return *)

Lemma is_factor_refl (l : jsstring) : is_factor l l.
Proof. exists [], []. rewrite app_nil_r. reflexivity. Qed.

Lemma is_factor_nil (l : jsstring) : is_factor [] l.
Proof. exists [], l. reflexivity. Qed.

Lemma is_factor_trans (u v l : jsstring) :
  is_factor u v -> is_factor v l -> is_factor u l.
Proof.
  intros (a & b & ->) (a' & b' & ->). exists (a' ++ a), (b ++ b').
  rewrite <- !app_assoc. reflexivity.
Qed.

Lemma is_factor_firstn n (l : jsstring) : is_factor (firstn n l) l.
Proof. exists [], (skipn n l). cbn [app]. rewrite firstn_skipn. reflexivity. Qed.

Lemma is_factor_skipn n (l : jsstring) : is_factor (skipn n l) l.
Proof.
  exists (firstn n l), []. rewrite app_nil_r, firstn_skipn. reflexivity.
Qed.

Lemma is_factor_substring a b (l : jsstring) : is_factor (substring a b l) l.
Proof.
  unfold substring.
  eapply is_factor_trans; [apply is_factor_firstn | apply is_factor_skipn].
Qed.

(** A group holds a part of the text the matcher was started on. *)
Lemma Matches_caps r s x :
  Matches r s x ->
  forall n v, get_cap n (caps x) = Some v ->
              get_cap n (caps s) = Some v \/ is_factor v (rest s).
Proof.
  induction 1 as [s|p s c t Hr Hp|a b s1 s2 s3 H1 IH1 H2 IH2
                  |a b s s' H IH|a b s s' H IH|a s
                  |a s1 s2 s3 H1 IH1 Hlt H2 IH2|m a s s' H IH|s Hp|s Hr];
    intros n v Hv; auto.
  - destruct (IH2 _ _ Hv) as [Hc|Hf]; [auto|]. right.
    destruct (Matches_span H1) as (w & E & _). rewrite E.
    eapply is_factor_trans; [exact Hf|]. exists w, []. rewrite app_nil_r.
    reflexivity.
  - destruct (IH2 _ _ Hv) as [Hc|Hf]; [auto|]. right.
    destruct (Matches_span H1) as (w & E & _). rewrite E.
    eapply is_factor_trans; [exact Hf|]. exists w, []. rewrite app_nil_r.
    reflexivity.
  - cbn [set_cap caps get_cap] in Hv.
    destruct (Nat.eqb n m); [|auto].
    injection Hv as <-. right. apply is_factor_firstn.
Qed.

Lemma match_at_group r q l s n :
  match_at r q l = Some s -> is_factor (group n (mk_result q s)) l.
Proof.
  intros H. apply match_at_sound in H.
  unfold group, mk_result. cbn [groups].
  destruct (get_cap n (caps s)) as [v|] eqn:E; [|apply is_factor_nil].
  destruct (Matches_caps H _ E) as [Hc|Hf]; [discriminate | exact Hf].
Qed.

(** A value the loop returns is the value of its body at a match of the
    pattern somewhere in the text. *)
Lemma exec_loop_found {A} r (body : rmatch_result -> option A) :
  forall l skip q a,
    exec_loop r body skip q l = Found a ->
    exists k s, k <= length l /\
                match_at r (q + k) (skipn k l) = Some s /\
                body (mk_result (q + k) s) = Some a.
Proof.
  assert (Hshift : forall (c : char) t q a,
    (exists k s, k <= length t /\ match_at r (S q + k) (skipn k t) = Some s /\
                 body (mk_result (S q + k) s) = Some a) ->
    exists k s, k <= length (c :: t) /\
                match_at r (q + k) (skipn k (c :: t)) = Some s /\
                body (mk_result (q + k) s) = Some a).
  { intros c t q a (k & s & Hk & Hm & Hb). exists (S k), s.
    replace (q + S k) with (S q + k) by lia. cbn [length skipn].
    split; [lia | auto]. }
  induction l as [|c t IH]; intros skip q a H; cbn [exec_loop] in H.
  - destruct skip; [|discriminate].
    destruct (match_at r q []) as [s|] eqn:E; [|discriminate].
    destruct (body (mk_result q s)) as [a'|] eqn:B; [|discriminate].
    injection H as <-. exists 0, s. rewrite Nat.add_0_r. cbn [skipn]. auto.
  - destruct skip as [|k'].
    + destruct (match_at r q (c :: t)) as [s|] eqn:E.
      * destruct (body (mk_result q s)) as [a'|] eqn:B.
        -- injection H as <-. exists 0, s. rewrite Nat.add_0_r.
           cbn [skipn length]. split; [lia | auto].
        -- destruct (Nat.eqb (pos s) q); [discriminate|].
           apply Hshift. eapply IH. exact H.
      * apply Hshift. eapply IH. exact H.
    + apply Hshift. eapply IH. exact H.
Qed.

Lemma for_patterns_found {A} (body : rmatch_result -> option A) input :
  forall ps a,
    for_patterns body input ps = Returns (Some a) ->
    exists p k s, In p ps /\ match_at p k (skipn k input) = Some s /\
                  body (mk_result k s) = Some a.
Proof.
  induction ps as [|p ps IH]; intros a H; cbn [for_patterns] in H.
  - discriminate.
  - destruct (exec_loop p body 0 0 input) as [a'| |] eqn:E.
    + injection H as <-. apply exec_loop_found in E.
      destruct E as (k & s & _ & Hm & Hb). exists p, k, s.
      split; [left; reflexivity | auto].
    + destruct (IH _ H) as (p' & k & s & Hin & Hm).
      exists p', k, s. split; [right; exact Hin | exact Hm].
    + discriminate.
Qed.

Lemma candidate_some c u :
  candidate c = Some u ->
  u = unescapeJsonString c /\ containsStackTracePatterns u = true /\ u <> [].
Proof.
  unfold candidate. intros H.
  destruct (containsStackTracePatterns (unescapeJsonString c)) eqn:E;
    [|discriminate].
  injection H as <-. split; [reflexivity|]. split; [exact E|].
  intros Hn. rewrite Hn in E. discriminate.
Qed.

Lemma candidate_group_part input r k s u :
  match_at r k (skipn k input) = Some s ->
  candidate (group 1 (mk_result k s)) = Some u ->
  unescaped_part input u.
Proof.
  intros Hm Hc. apply candidate_some in Hc. destruct Hc as (Hu & Ht & Hne).
  split; [exact Hne|]. split; [exact Ht|].
  exists (group 1 (mk_result k s)). split; [|exact Hu].
  eapply is_factor_trans; [eapply match_at_group; exact Hm|].
  apply is_factor_skipn.
Qed.

Lemma extractFromQuotedStrings_part input u :
  extractFromQuotedStrings input = Returns (Some u) -> unescaped_part input u.
Proof.
  unfold extractFromQuotedStrings. intros H.
  destruct (exec_loop quotedStringPattern
              (fun m => candidate (group 1 m)) 0 0 input) as [a| |] eqn:E;
    try discriminate.
  injection H as <-. apply exec_loop_found in E.
  destruct E as (k & s & _ & Hm & Hb). cbn [Nat.add] in *.
  eapply candidate_group_part; eauto.
Qed.

Lemma extractFromIncompleteJson_part input u :
  extractFromIncompleteJson input = Returns (Some u) ->
  unescaped_part input u.
Proof.
  unfold extractFromIncompleteJson. intros H.
  apply for_patterns_found in H. destruct H as (p & k & s & _ & Hm & Hb).
  eapply candidate_group_part; eauto.
Qed.

Lemma extractFromRawEscapedText_part input u :
  extractFromRawEscapedText input = Returns (Some u) ->
  unescaped_part input u.
Proof.
  unfold extractFromRawEscapedText. intros H.
  apply for_patterns_found in H. destruct H as (p & k & s & _ & Hm & Hb).
  unfold raw_candidate in Hb.
  destruct (includes [c_backslash; c_n] (group 1 (mk_result k s))
            && includes [c_backslash; c_t] (group 1 (mk_result k s))
            && includes (str "at ") (group 1 (mk_result k s)))%bool;
    [|discriminate].
  apply candidate_some in Hb. destruct Hb as (Hu & Ht & Hne).
  split; [exact Hne|]. split; [exact Ht|].
  eexists. split; [|exact Hu].
  unfold extractExtendedEscapedSequence. apply is_factor_substring.
Qed.

(** X8: [extractSerializedStackTrace] returns on every input, and what it
    returns is [null] or a text that is not empty, passes the block test
    of [containsStackTracePatterns] and is the unescaped form of a
    contiguous part of the input, whichever of the three strategies found
    it. *)
Theorem X8_extractSerializedStackTrace_result :
  forall input : jsstring,
  exists r,
    extractSerializedStackTrace input = Returns r /\
    match r with
    | Some u => unescaped_part input u
    | None => True
    end.
Proof.
  intros input.
  unfold extractSerializedStackTrace, first_truthy.
  destruct (extractFromQuotedStrings_returns input) as [r1 E1].
  rewrite E1. cbn [bind].
  destruct (truthy r1) eqn:T1.
  { exists r1. split; [reflexivity|]. destruct r1 as [u|]; [|exact I].
    apply extractFromQuotedStrings_part. exact E1. }
  destruct (@for_patterns_returns _ (fun m => candidate (group 1 m)) input
              incompletePatterns eq_refl) as [r2 E2].
  fold (extractFromIncompleteJson input) in E2. rewrite E2. cbn [bind].
  destruct (truthy r2) eqn:T2.
  { exists r2. split; [reflexivity|]. destruct r2 as [u|]; [|exact I].
    apply extractFromIncompleteJson_part. exact E2. }
  destruct (@for_patterns_returns _ (raw_candidate input) input
              escapedPatterns eq_refl) as [r3 E3].
  fold (extractFromRawEscapedText input) in E3. rewrite E3. cbn [bind].
  destruct (truthy r3) eqn:T3.
  { exists r3. split; [reflexivity|]. destruct r3 as [u|]; [|exact I].
    apply extractFromRawEscapedText_part. exact E3. }
  exists None. split; [reflexivity | exact I].
Qed.

(** ** From the block test to the parser *)

Lemma existsb_filter_length (f : jsstring -> bool) (ls : list jsstring) :
  existsb f ls = negb (Nat.eqb (length (filter f ls)) 0).
Proof.
  induction ls as [|l ls IH]; [reflexivity|]. cbn [existsb filter].
  destruct (f l); [reflexivity | exact IH].
Qed.

(** [hasStackTrace] says that some line of the text is trace-like. *)
Lemma hasStackTrace_existsb (t : jsstring) :
  hasStackTrace (parseStackTrace t)
  = existsb isStackTraceLine (split_lines t).
Proof.
  unfold parseStackTrace. cbn [hasStackTrace].
  rewrite parse_step_fold. cbn [app].
  induction (split_lines t) as [|l ls IH]; [reflexivity|].
  cbn [filter existsb].
  destruct (isStackTraceLine l) eqn:E.
  - apply isStackTraceLine_iff in E. destruct E as [Hb Hp].
    rewrite Hb. cbn [negb map existsb].
    apply parseStackTraceLine_known_iff in Hp.
    destruct (type (parseStackTraceLine l)) eqn:Ht; try reflexivity.
    elim Hp. reflexivity.
  - destruct (forallb is_ws l) eqn:Hb; cbn [negb]; [exact IH|].
    cbn [map existsb]. rewrite IH.
    destruct (line_type_eqb (type (parseStackTraceLine l)) T_unknown) eqn:Ht;
      [reflexivity|].
    assert (Hk : type (parseStackTraceLine l) <> T_unknown).
    { intros Hu. rewrite Hu in Ht. discriminate. }
    apply parseStackTraceLine_known_iff in Hk.
    assert (Hc : isStackTraceLine l = true)
      by (apply isStackTraceLine_iff; auto).
    congruence.
Qed.

Lemma containsStackTracePatterns_existsb (t : jsstring) :
  containsStackTracePatterns t = true ->
  existsb isStackTraceLine (split_lines t) = true.
Proof.
  unfold containsStackTracePatterns.
  destruct (scan_step_fold (split_lines t) (mkScan 0 false false))
    as (Hc & He & Ha).
  cbv zeta in *. rewrite Hc, He. cbn [stackTraceLineCount hasExceptionLine
                                      Nat.add orb].
  unfold trace_like_count. intros H.
  rewrite (existsb_filter_length isStackTraceLine).
  apply orb_true_iff in H. destruct H as [H|H].
  - apply orb_true_iff in H. destruct H as [H|H].
    + apply Nat.leb_le in H.
      destruct (length (filter isStackTraceLine (split_lines t)));
        [lia | reflexivity].
    + apply andb_true_iff in H. destruct H as [H _].
      apply existsb_exists in H. destruct H as (l & Hin & Hl).
      unfold exception_header_like in Hl. apply andb_true_iff in Hl.
      destruct Hl as [Hl _].
      assert (Hf : In l (filter isStackTraceLine (split_lines t)))
        by (apply filter_In; auto).
      destruct (filter isStackTraceLine (split_lines t));
        [destruct Hf | reflexivity].
  - apply Nat.leb_le in H.
    destruct (length (filter isStackTraceLine (split_lines t)));
      [lia | reflexivity].
Qed.

(** X9: a text that passes the block test of
    [containsStackTracePatterns] is a trace for the parser:
    [parseStackTrace] sets [hasStackTrace] on it. *)
Theorem X9_block_test_implies_hasStackTrace :
  forall t : jsstring,
    containsStackTracePatterns t = true ->
    hasStackTrace (parseStackTrace t) = true.
Proof.
  intros t H. rewrite hasStackTrace_existsb.
  apply containsStackTracePatterns_existsb. exact H.
Qed.

Lemma X9_block_test_implies_hasStackTrace_witness :
  hasStackTrace
    (parseStackTrace
       (str "x.YException: boom" ++ [c_lf; c_tab] ++
        str "at a.B.c(B.java:12)")) = true.
Proof.
  apply X9_block_test_implies_hasStackTrace. vm_compute. reflexivity.
Defined.

(** The converse fails: one frame line alone is a trace for the parser and
    does not pass the block test. *)
Example single_frame_is_no_block :
  hasStackTrace (parseStackTrace (str "at a.B.c(B.java:12)")) = true /\
  containsStackTracePatterns (str "at a.B.c(B.java:12)") = false.
Proof. split; vm_compute; reflexivity. Qed.

(** ** The extended escaped sequence *)

Lemma firstn_snoc_nth (l : jsstring) :
  forall n c, nth_error l n = Some c -> firstn (S n) l = firstn n l ++ [c].
Proof.
  induction l as [|x l IH]; intros [|n] c H; cbn in H; try discriminate.
  - injection H as <-. reflexivity.
  - cbn [firstn app]. rewrite <- (IH _ _ H). reflexivity.
Qed.

Lemma nth_error_skipn_add (l : jsstring) :
  forall a i, nth_error (skipn a l) i = nth_error l (a + i).
Proof.
  induction l as [|x l IH]; intros [|a] i; cbn [skipn Nat.add];
    try reflexivity.
  - destruct i; reflexivity.
  - cbn [nth_error]. apply IH.
Qed.

Lemma substring_snoc a p c (l : jsstring) :
  a <= p -> nth_error l p = Some c ->
  substring a (S p) l = substring a p l ++ [c].
Proof.
  intros Ha Hn. unfold substring.
  replace (S p - a) with (S (p - a)) by lia.
  apply firstn_snoc_nth. rewrite nth_error_skipn_add.
  replace (a + (p - a)) with p by lia. exact Hn.
Qed.

Lemma firstn_add_skipn (l : jsstring) :
  forall a b, firstn (a + b) l = firstn a l ++ firstn b (skipn a l).
Proof.
  induction l as [|x l IH]; intros [|a] b; cbn [Nat.add firstn skipn app];
    try reflexivity.
  - rewrite !firstn_nil. reflexivity.
  - rewrite IH. reflexivity.
Qed.

Lemma skipn_skipn_add (l : jsstring) :
  forall a b, skipn b (skipn a l) = skipn (a + b) l.
Proof.
  induction l as [|x l IH]; intros [|a] b; cbn [Nat.add skipn];
    try reflexivity.
  - rewrite !skipn_nil. reflexivity.
  - apply IH.
Qed.

Lemma substring_split a k e (l : jsstring) :
  a <= k -> k <= e ->
  substring a e l = substring a k l ++ substring k e l.
Proof.
  intros Ha He. unfold substring.
  replace (e - a) with ((k - a) + (e - k)) by lia.
  rewrite firstn_add_skipn, skipn_skipn_add.
  replace (a + (k - a)) with k by lia. reflexivity.
Qed.

(** The backward walk stops just after the nearest double quote, space,
    tab or line feed before [start], or at the start of the text. *)
Lemma backward_walk_spec (input : jsstring) :
  forall start,
    start <= length input ->
    backward_walk input start <= start /\
    forallb (fun c => negb (is_boundary c))
            (substring (backward_walk input start) start input) = true /\
    (backward_walk input start = 0 \/
     exists c, nth_error input (backward_walk input start - 1) = Some c /\
               is_boundary c = true).
Proof.
  induction start as [|p IH]; intros Hlen; cbn [backward_walk].
  - split; [lia|]. split; [reflexivity | left; reflexivity].
  - destruct (nth_error input p) as [c|] eqn:Hn.
    + destruct (is_boundary c) eqn:Hb.
      * split; [lia|]. split.
        -- unfold substring. rewrite Nat.sub_diag. reflexivity.
        -- right. exists c. cbn [Nat.sub]. rewrite Nat.sub_0_r. auto.
      * destruct (IH ltac:(lia)) as (Hle & Hf & Hs).
        split; [lia|]. split; [|exact Hs].
        rewrite (@substring_snoc _ p c input Hle Hn), forallb_app, Hf.
        cbn [forallb]. rewrite Hb. reflexivity.
    + apply nth_error_None in Hn. lia.
Qed.

(** X10: for a start index inside the input,
    [extractExtendedEscapedSequence] returns the text from [start] to
    [end], around the start index: the part before the start index holds
    no double quote, space, tab or line feed and begins at the start of
    the input or just after such a character; the part from the start
    index on is not empty, lies inside the input and is at most 2001
    characters long. *)
Theorem X10_extended_sequence_span :
  forall (input : jsstring) (startIndex : nat),
    startIndex < length input ->
    exists start end_ : nat,
      extractExtendedEscapedSequence input startIndex
        = substring start startIndex input ++ substring startIndex end_ input /\
      start = backward_walk input startIndex /\
      start <= startIndex /\ startIndex < end_ /\ end_ <= length input /\
      end_ <= startIndex + FORWARD_CAP + 1 /\
      forallb (fun c => negb (is_boundary c))
              (substring start startIndex input) = true /\
      (start = 0 \/
       exists c, nth_error input (start - 1) = Some c /\ is_boundary c = true).
Proof.
  intros input k Hk.
  destruct (@backward_walk_spec input k ltac:(lia)) as (Hle & Hf & Hs).
  pose proof (@forward_scan_le k (skipn k input) k 0 false ltac:(lia)) as Hcap.
  pose proof (@forward_scan_stop k (skipn k input) k 0 false _ eq_refl) as Hst.
  unfold extractExtendedEscapedSequence.
  set (e := forward_scan k k 0 false (skipn k input)) in *.
  assert (He : e = k \/ (k < e /\ e < length input)).
  { destruct (Nat.eq_dec e k) as [->|Hne]; [left; reflexivity|]. right.
    destruct (Hst Hne) as (Hke & c & Hn & _).
    split; [lia|].
    rewrite nth_error_skipn_add in Hn.
    assert (Hlt : k + (e - k) < length input)
      by (apply nth_error_Some; congruence).
    lia. }
  exists (backward_walk input k),
         (if Nat.leb e k then Nat.min (length input) (k + 1000) else e).
  assert (Hend : k < (if Nat.leb e k then Nat.min (length input) (k + 1000)
                      else e) /\
                 (if Nat.leb e k then Nat.min (length input) (k + 1000)
                  else e) <= length input /\
                 (if Nat.leb e k then Nat.min (length input) (k + 1000)
                  else e) <= k + FORWARD_CAP + 1).
  { unfold FORWARD_CAP in *.
    destruct (Nat.leb_spec e k); [lia|]. destruct He; lia. }
  destruct Hend as (H1 & H2 & H3).
  split; [apply substring_split; lia|].
  split; [reflexivity|]. auto 10.
Qed.

Lemma X10_extended_sequence_span_witness :
  exists start end_ : nat,
    extractExtendedEscapedSequence (str "a bE\nx c") 3
      = substring start 3 (str "a bE\nx c") ++
        substring 3 end_ (str "a bE\nx c") /\
    start = backward_walk (str "a bE\nx c") 3 /\
    start <= 3 /\ 3 < end_ /\ end_ <= length (str "a bE\nx c") /\
    end_ <= 3 + FORWARD_CAP + 1 /\
    forallb (fun c => negb (is_boundary c))
            (substring start 3 (str "a bE\nx c")) = true /\
    (start = 0 \/
     exists c, nth_error (str "a bE\nx c") (start - 1) = Some c /\
               is_boundary c = true).
Proof.
  apply (@X10_extended_sequence_span (str "a bE\nx c") 3).
  vm_compute. lia.
Defined.

(** ** The line run *)

Lemma spec_run_tail_prefix (ls : list jsstring) :
  exists n, spec_run_tail ls = firstn n ls.
Proof.
  induction ls as [|l ls [n IH]]; cbn [spec_run_tail].
  - exists 0. reflexivity.
  - destruct (isStackTraceLine l);
      [exists (S n); cbn [firstn]; rewrite IH; reflexivity|].
    destruct (forallb is_ws l);
      [exists (S n); cbn [firstn]; rewrite IH; reflexivity|].
    destruct (existsb isStackTraceLine (firstn 2 ls));
      [exists (S n); cbn [firstn]; rewrite IH; reflexivity|].
    exists 0. reflexivity.
Qed.

Lemma spec_line_run_block (ls : list jsstring) :
  exists i n,
    spec_line_run ls = firstn n (skipn i ls) /\
    (forall j, j < i -> isStackTraceLine (nth j ls []) = false) /\
    ((i = length ls /\ n = 0) \/
     (i < length ls /\ isStackTraceLine (nth i ls []) = true /\ 1 <= n)).
Proof.
  induction ls as [|l ls (i & n & E & Hb & Hi)]; cbn [spec_line_run].
  - exists 0, 0. split; [reflexivity|]. split; [intros j Hj; lia|].
    left. auto.
  - destruct (isStackTraceLine l) eqn:Hl.
    + destruct (spec_run_tail_prefix ls) as [m Hm].
      exists 0, (S m). cbn [skipn firstn nth length]. rewrite Hm.
      split; [reflexivity|]. split; [intros j Hj; lia|].
      right. split; [lia|]. split; [exact Hl | lia].
    + exists (S i), n. cbn [skipn length]. split; [exact E|]. split.
      * intros [|j] Hj; cbn [nth]; [exact Hl | apply Hb; lia].
      * destruct Hi as [[-> ->]|(Hlt & Ht & Hn)];
          [left; auto | right; cbn [nth]; split; [lia | auto]].
Qed.

(** X11: the lines that the line-by-line loop of [extractStackTrace]
    collects are a block of consecutive lines of the input: it starts at
    the first trace-like line, no line before it is trace-like, and it is
    empty only when no line is trace-like. *)
Theorem X11_line_run_is_a_block :
  forall input : jsstring,
    let lines := split_lines input in
    exists i n : nat,
      extractByLines input = join [c_lf] (firstn n (skipn i lines)) /\
      line_loop lines 0 lines false [] = firstn n (skipn i lines) /\
      (forall j, j < i -> isStackTraceLine (nth j lines []) = false) /\
      ((i = length lines /\ n = 0) \/
       (i < length lines /\ isStackTraceLine (nth i lines []) = true /\
        1 <= n)).
Proof.
  intros input lines.
  destruct (spec_line_run_block lines) as (i & n & E & Hb & Hi).
  exists i, n. unfold extractByLines. fold lines.
  rewrite (@line_loop_before_run lines lines 0 [] eq_refl). cbn [app].
  rewrite E. auto.
Qed.

(** ** A carriage return at the end of a line *)

Lemma firstn_length_app (w r : jsstring) : firstn (length w) (w ++ r) = w.
Proof. induction w as [|c w IH]; cbn; [destruct r|rewrite IH]; reflexivity. Qed.

Lemma length_removelast_lt (l : jsstring) :
  l <> [] -> S (length (removelast l)) = length l.
Proof.
  induction l as [|c l IH]; intros H; [congruence|].
  destruct l as [|d l]; [reflexivity|].
  change (removelast (c :: d :: l)) with (c :: removelast (d :: l)).
  cbn [length]. rewrite IH by discriminate. reflexivity.
Qed.

Lemma span_nonnil r s x :
  Matches r s x -> rest x <> [] -> rest s <> [].
Proof.
  intros H Hx. destruct (Matches_span H) as (w & E & _). rewrite E.
  destruct w; [exact Hx | discriminate].
Qed.

(** A pattern without [$] matches in the same way when the last character
    of the text, which the match does not reach, is taken away. *)
Lemma Matches_chop r s x :
  Matches r s x -> eol_free r = true -> rest x <> [] ->
  Matches r (chop s) (chop x).
Proof.
  induction 1 as [s|p s c t Hr Hp|a b s1 s2 s3 H1 IH1 H2 IH2
                  |a b s s' H IH|a b s s' H IH|a s
                  |a s1 s2 s3 H1 IH1 Hlt H2 IH2|m a s s' H IH|s Hp|s Hr];
    cbn [eol_free]; intros He Hx.
  - constructor.
  - cbn [advance rest] in Hx.
    change (chop (advance s t)) with (advance (chop s) (removelast t)).
    apply M_cls with (c := c); [|exact Hp].
    unfold chop. cbn [rest]. rewrite Hr.
    destruct t; [congruence | reflexivity].
  - apply andb_true_iff in He. destruct He as [Ha Hb].
    pose proof (span_nonnil H2 Hx) as H2n.
    eapply M_seq; [apply IH1 | apply IH2]; assumption.
  - apply andb_true_iff in He. destruct He as [Ha Hb].
    apply M_alt_l. apply IH; assumption.
  - apply andb_true_iff in He. destruct He as [Ha Hb].
    apply M_alt_r. apply IH; assumption.
  - constructor.
  - pose proof (span_nonnil H2 Hx) as H2n.
    pose proof (span_nonnil H1 H2n) as H1n.
    eapply M_star_cons; [apply IH1; assumption | | apply IH2; assumption].
    unfold chop. cbn [rest].
    pose proof (length_removelast_lt H1n). pose proof (length_removelast_lt H2n).
    lia.
  - cbn [set_cap rest] in Hx.
    destruct (Matches_span H) as (w & E & P & _).
    replace (chop (set_cap m (firstn (pos s' - pos s) (rest s)) s'))
      with (set_cap m (firstn (pos (chop s') - pos (chop s)) (rest (chop s)))
              (chop s')).
    + apply M_group. apply IH; assumption.
    + unfold chop, set_cap. cbn [pos rest caps].
      rewrite E, removelast_app by exact Hx.
      replace (pos s' - pos s) with (length w) by lia.
      rewrite !firstn_length_app. reflexivity.
  - apply M_bol. exact Hp.
  - discriminate.
Qed.

(** And in the same way when one more character follows the text. *)
Lemma Matches_extend c r s x :
  Matches r s x -> eol_free r = true -> Matches r (extend c s) (extend c x).
Proof.
  induction 1 as [s|p s d t Hr Hp|a b s1 s2 s3 H1 IH1 H2 IH2
                  |a b s s' H IH|a b s s' H IH|a s
                  |a s1 s2 s3 H1 IH1 Hlt H2 IH2|m a s s' H IH|s Hp|s Hr];
    cbn [eol_free]; intros He.
  - constructor.
  - change (extend c (advance s t)) with (advance (extend c s) (t ++ [c])).
    apply M_cls with (c := d); [|exact Hp].
    unfold extend. cbn [rest]. rewrite Hr. reflexivity.
  - apply andb_true_iff in He. destruct He as [Ha Hb].
    eapply M_seq; [apply IH1 | apply IH2]; assumption.
  - apply andb_true_iff in He. destruct He as [Ha Hb].
    apply M_alt_l. apply IH; assumption.
  - apply andb_true_iff in He. destruct He as [Ha Hb].
    apply M_alt_r. apply IH; assumption.
  - constructor.
  - eapply M_star_cons; [apply IH1; assumption | | apply IH2; assumption].
    unfold extend. cbn [rest]. rewrite !length_app. cbn [length]. lia.
  - destruct (Matches_span H) as (w & E & P & _).
    replace (extend c (set_cap m (firstn (pos s' - pos s) (rest s)) s'))
      with (set_cap m (firstn (pos (extend c s') - pos (extend c s))
                         (rest (extend c s)))
              (extend c s')).
    + apply M_group. apply IH; assumption.
    + unfold extend, set_cap. cbn [pos rest caps].
      rewrite E, <- app_assoc.
      replace (pos s' - pos s) with (length w) by lia.
      rewrite !firstn_length_app. reflexivity.
  - apply M_bol. exact Hp.
  - discriminate.
Qed.

Lemma app_eq_snoc (w1 w2 w' : jsstring) (c : char) :
  w1 ++ w2 = w' ++ [c] -> w2 <> [] -> exists v, w2 = v ++ [c].
Proof.
  intros E Hn. destruct (exists_last Hn) as (v & d & ->).
  rewrite app_assoc in E. apply app_inj_tail in E. destruct E as [_ ->].
  exists v. reflexivity.
Qed.

(** What [never_ends] says of a match. *)
Lemma never_ends_sound c r s x :
  Matches r s x -> never_ends c r = true ->
  forall w, rest s = w ++ rest x -> forall w', w <> w' ++ [c].
Proof.
  assert (Hnil : forall (s0 : mstate) w w',
            rest s0 = w ++ rest s0 -> w <> w' ++ [c]).
  { intros s0 w w' E ->. apply (f_equal (@length char)) in E.
    rewrite !length_app in E. cbn [length] in E. lia. }
  induction 1 as [s|p s d t Hr Hp|a b s1 s2 s3 H1 IH1 H2 IH2
                  |a b s s' H IH|a b s s' H IH|a s
                  |a s1 s2 s3 H1 IH1 Hlt H2 IH2|m a s s' H IH|s Hp|s Hr];
    cbn [never_ends]; intros Hn w E w'; try (eapply Hnil; exact E).
  - cbn [advance rest] in E. rewrite Hr in E.
    change (d :: t) with ([d] ++ t) in E. apply app_inv_tail in E. subst w.
    intros Hw. destruct w' as [|y w']; cbn in Hw.
    + injection Hw as ->. rewrite Hp in Hn. discriminate.
    + destruct w'; discriminate.
  - apply andb_true_iff in Hn. destruct Hn as [Hb Ha].
    destruct (Matches_span H1) as (w1 & E1 & _ & _).
    destruct (Matches_span H2) as (w2 & E2 & _ & N2).
    assert (Hw : w = w1 ++ w2).
    { rewrite E1, E2, app_assoc in E. apply app_inv_tail in E. auto. }
    subst w. intros Hw. destruct w2 as [|y w2].
    + rewrite app_nil_r in Hw. apply orb_true_iff in Ha.
      destruct Ha as [Ha|Ha]; [elim (N2 Ha); reflexivity|].
      exact (IH1 Ha _ E1 _ Hw).
    + destruct (@app_eq_snoc w1 (y :: w2) w' c Hw ltac:(discriminate))
        as [v Hv].
      exact (IH2 Hb _ E2 _ Hv).
  - apply andb_true_iff in Hn. destruct Hn as [Ha Hb]. exact (IH Ha _ E _).
  - apply andb_true_iff in Hn. destruct Hn as [Ha Hb]. exact (IH Hb _ E _).
  - destruct (Matches_span H1) as (w1 & E1 & _ & _).
    destruct (Matches_span H2) as (w2 & E2 & _ & _).
    assert (Hw : w = w1 ++ w2).
    { rewrite E1, E2, app_assoc in E. apply app_inv_tail in E. auto. }
    subst w. intros Hw. destruct w2 as [|y w2].
    + rewrite app_nil_r in Hw. exact (IH1 Hn _ E1 _ Hw).
    + destruct (@app_eq_snoc w1 (y :: w2) w' c Hw ltac:(discriminate))
        as [v Hv].
      exact (IH2 Hn _ E2 _ Hv).
  - cbn [set_cap rest] in E. exact (IH Hn _ E _).
Qed.

Lemma cr_tail_chop r :
  cr_tail r ->
  forall s x u, Matches r s x -> rest s = u ++ [c_cr] ->
                exists x', Matches r (chop s) x'.
Proof.
  induction 1 as [p Hp|a b Ha Hb IH Hab]; intros s x u H Hs.
  - inversion H as [| |? ? ? s2 ? H1 H2| | | | | | |]; subst.
    inversion H2 as [| | | | | | | | |? Hr]; subst.
    destruct (Matches_star_cls H1) as (w & E & F & _ & _).
    rewrite Hr, app_nil_r in E. rewrite Hs in E. subst w.
    rewrite forallb_app in F. apply andb_true_iff in F. destruct F as [F _].
    exists (MState (pos s + length u) [] (caps s)).
    unfold chop. rewrite Hs, removelast_last.
    eapply M_seq.
    + rewrite <- (app_nil_r u) at 1. apply Matches_star_cls_intro. exact F.
    + apply M_eol. reflexivity.
  - inversion H as [| |? ? ? s2 ? H1 H2| | | | | | |]; subst.
    destruct (Matches_span H1) as (w & E & _ & _).
    destruct (rest s2) as [|d t] eqn:Hr2.
    + exfalso. destruct Hab as [Hn|Hn].
      * destruct (Matches_progress H2 Hn) as [_ Hl].
        rewrite Hr2 in Hl. cbn in Hl. lia.
      * rewrite <- Hr2 in E.
        apply (@never_ends_sound c_cr a s s2 H1 Hn w E u).
        rewrite Hr2, app_nil_r in E. congruence.
    + assert (Hne : rest s2 <> []) by (rewrite Hr2; discriminate).
      destruct (exists_last Hne) as (v & d' & Hv).
      assert (d' = c_cr).
      { rewrite Hs, <- Hr2, Hv, app_assoc in E.
        apply app_inj_tail in E. destruct E as [_ E]. auto. }
      subst d'.
      destruct (IH _ _ _ H2 Hv) as [x' Hx'].
      exists x'. eapply M_seq; [|exact Hx'].
      apply Matches_chop; assumption.
Qed.

Lemma cr_tail_extend r :
  cr_tail r ->
  forall s x, Matches r s x -> exists x', Matches r (extend c_cr s) x'.
Proof.
  induction 1 as [p Hp|a b Ha Hb IH Hab]; intros s x H.
  - inversion H as [| |? ? ? s2 ? H1 H2| | | | | | |]; subst.
    inversion H2 as [| | | | | | | | |? Hr]; subst.
    destruct (Matches_star_cls H1) as (w & E & F & _ & _).
    rewrite Hr, app_nil_r in E.
    exists (MState (pos s + length (w ++ [c_cr])) [] (caps s)).
    unfold extend. rewrite E.
    eapply M_seq.
    + rewrite <- (app_nil_r (w ++ [c_cr])) at 1.
      apply Matches_star_cls_intro.
      rewrite forallb_app, F. cbn [forallb]. rewrite Hp. reflexivity.
    + apply M_eol. reflexivity.
  - inversion H as [| |? ? ? s2 ? H1 H2| | | | | | |]; subst.
    destruct (IH _ _ H2) as [x' Hx'].
    exists x'. eapply M_seq; [|exact Hx'].
    apply Matches_extend; assumption.
Qed.

Lemma re_test_true r l :
  re_test (Bol ;; r) l = true <-> exists x, Matches (Bol ;; r) (MState 0 l []) x.
Proof.
  unfold re_test. split.
  - destruct (re_exec (Bol ;; r) l) as [m|] eqn:E; [|discriminate].
    intros _. apply re_exec_anchored in E. destruct E as (x & Hx & _).
    exists x. eapply M_seq; [apply M_bol; reflexivity | exact Hx].
  - intros [x Hx]. apply re_exec_complete in Hx. destruct Hx as [m ->].
    reflexivity.
Qed.

Lemma re_test_cr r l :
  cr_tail (Bol ;; r) ->
  re_test (Bol ;; r) (l ++ [c_cr]) = re_test (Bol ;; r) l.
Proof.
  intros Ht.
  destruct (re_test (Bol ;; r) l) eqn:E.
  - apply re_test_true in E. destruct E as [x Hx].
    apply re_test_true. exact (cr_tail_extend Ht Hx).
  - destruct (re_test (Bol ;; r) (l ++ [c_cr])) eqn:E'; [|reflexivity].
    apply re_test_true in E'. destruct E' as [x Hx].
    destruct (@cr_tail_chop _ Ht _ _ l Hx eq_refl) as [x' Hx'].
    unfold chop in Hx'. cbn [pos rest caps] in Hx'.
    rewrite removelast_last in Hx'.
    assert (Hc : re_test (Bol ;; r) l = true)
      by (apply re_test_true; eauto).
    congruence.
Qed.

Ltac solve_cr_tail :=
  repeat first
    [ apply tail_base; reflexivity
    | apply tail_seq;
      [ reflexivity | | first [left; reflexivity | right; reflexivity] ] ].

Lemma line_patterns_cr_tail :
  cr_tail exception_pattern /\ cr_tail at_pattern /\
  cr_tail caused_by_pattern /\ cr_tail suppressed_pattern /\
  cr_tail more_pattern.
Proof.
  unfold exception_pattern, at_pattern, caused_by_pattern,
    suppressed_pattern, more_pattern.
  repeat split; solve_cr_tail.
Qed.

Lemma line_patterns_cr (l : jsstring) :
  re_test exception_pattern (l ++ [c_cr]) = re_test exception_pattern l /\
  re_test at_pattern (l ++ [c_cr]) = re_test at_pattern l /\
  re_test caused_by_pattern (l ++ [c_cr]) = re_test caused_by_pattern l /\
  re_test suppressed_pattern (l ++ [c_cr]) = re_test suppressed_pattern l /\
  re_test more_pattern (l ++ [c_cr]) = re_test more_pattern l.
Proof.
  destruct line_patterns_cr_tail as (H1 & H2 & H3 & H4 & H5).
  repeat split; apply re_test_cr; assumption.
Qed.

Lemma isStackTraceLine_cr (l : jsstring) :
  isStackTraceLine (l ++ [c_cr]) = isStackTraceLine l.
Proof.
  destruct (line_patterns_cr l) as (H1 & H2 & H3 & H4 & H5).
  unfold isStackTraceLine. rewrite !trim_empty_iff, forallb_app.
  cbn [forallb STACK_TRACE_PATTERNS existsb].
  rewrite H1, H2, H3, H4, H5.
  change (is_ws c_cr) with true. rewrite !andb_true_r. reflexivity.
Qed.

(** X12: a carriage return at the end of a line changes neither whether
    the line is trace-like nor the type the parser gives it (each of the
    five line patterns ends with [\s*$], and what stands before can never
    end with a carriage return). *)
Theorem X12_trailing_carriage_return :
  forall line : jsstring,
    isStackTraceLine (line ++ [c_cr]) = isStackTraceLine line /\
    type (parseStackTraceLine (line ++ [c_cr]))
    = type (parseStackTraceLine line).
Proof.
  intros line. split; [apply isStackTraceLine_cr|].
  destruct (line_patterns_cr line) as (H1 & H2 & H3 & H4 & H5).
  rewrite !parseStackTraceLine_type, H1, H2, H3, H4, H5. reflexivity.
Qed.

(** ** From extraction to rendering *)

Lemma first_truthy_some x next u :
  first_truthy x next = Returns (Some u) ->
  x = Returns (Some u) \/ next = Returns (Some u).
Proof.
  unfold first_truthy. destruct x as [r| |]; cbn [bind]; try discriminate.
  destruct (truthy r); auto.
Qed.

Lemma extractSerializedStackTrace_some input u :
  extractSerializedStackTrace input = Returns (Some u) ->
  unescaped_part input u.
Proof.
  unfold extractSerializedStackTrace. intros H.
  apply first_truthy_some in H. destruct H as [H|H];
    [apply extractFromQuotedStrings_part; exact H|].
  apply first_truthy_some in H. destruct H as [H|H];
    [apply extractFromIncompleteJson_part; exact H|].
  apply first_truthy_some in H. destruct H as [H|H];
    [apply extractFromRawEscapedText_part; exact H | discriminate].
Qed.

(** What [extractStackTrace] returns: a serialized trace that was found,
    or the line run. *)
Lemma extractStackTrace_cases input :
  exists e,
    extractStackTrace input = Returns e /\
    ((e <> [] /\ containsStackTracePatterns e = true) \/
     e = extractByLines input).
Proof.
  destruct (extractSerializedStackTrace_returns input) as [r Hr].
  unfold extractStackTrace. rewrite Hr. cbn [bind].
  destruct r as [[|c t]|]; eexists; (split; [reflexivity|]); auto.
  left. apply extractSerializedStackTrace_some in Hr.
  destruct Hr as (Hne & Hc & _). auto.
Qed.

Lemma spec_lines_from_single (l : jsstring) :
  forall piece,
    forallb (is_not c_lf) l = true -> spec_lines_from piece l = [piece ++ l].
Proof.
  induction l as [|c t IH]; intros piece H; cbn [spec_lines_from].
  - rewrite app_nil_r. reflexivity.
  - cbn [forallb] in H. apply andb_true_iff in H. destruct H as [Hc Ht].
    assert (Hlf : N.eqb c_lf c = false).
    { unfold is_not in Hc. apply negb_true_iff in Hc.
      rewrite N.eqb_sym. exact Hc. }
    assert (Hgo : spec_lines_from (piece ++ [c]) t = [piece ++ c :: t]).
    { rewrite (IH _ Ht), <- app_assoc. reflexivity. }
    destruct (N.eqb c_cr c); [|rewrite Hlf; exact Hgo].
    destruct t as [|d t']; [exact Hgo|].
    cbn [forallb] in Ht. apply andb_true_iff in Ht. destruct Ht as [Hd _].
    unfold is_not in Hd. apply negb_true_iff in Hd.
    rewrite N.eqb_sym, Hd. exact Hgo.
Qed.

(** The first line of a text that has a line feed: what stands before the
    line feed, without the carriage return that may end it. *)
Lemma spec_lines_from_head (l : jsstring) :
  forall piece tail,
    forallb (is_not c_lf) l = true ->
    exists h,
      spec_lines_from piece (l ++ c_lf :: tail)
        = h :: spec_lines_from [] tail /\
      (h = piece ++ l \/ h ++ [c_cr] = piece ++ l).
Proof.
  induction l as [|c t IH]; intros piece tail H; cbn [app spec_lines_from].
  - change (N.eqb c_cr c_lf) with false. rewrite N.eqb_refl.
    exists piece. rewrite app_nil_r. auto.
  - cbn [forallb] in H. apply andb_true_iff in H. destruct H as [Hc Ht].
    assert (Hlf : N.eqb c_lf c = false).
    { unfold is_not in Hc. apply negb_true_iff in Hc.
      rewrite N.eqb_sym. exact Hc. }
    assert (Hgo : exists h,
               spec_lines_from (piece ++ [c]) (t ++ c_lf :: tail)
                 = h :: spec_lines_from [] tail /\
               (h = piece ++ c :: t \/ h ++ [c_cr] = piece ++ c :: t)).
    { destruct (IH (piece ++ [c]) tail Ht) as (h & E & Hh).
      exists h. rewrite <- app_assoc in Hh. auto. }
    destruct (N.eqb_spec c_cr c) as [<-|Hcr]; [|rewrite Hlf; exact Hgo].
    destruct t as [|d t']; cbn [app].
    + rewrite N.eqb_refl. exists piece. auto.
    + cbn [forallb] in Ht. apply andb_true_iff in Ht. destruct Ht as [Hd _].
      unfold is_not in Hd. apply negb_true_iff in Hd.
      rewrite N.eqb_sym, Hd. exact Hgo.
Qed.

Lemma spec_run_tail_In (ls : list jsstring) :
  forall l, In l (spec_run_tail ls) -> In l ls.
Proof.
  induction ls as [|x ls IH]; cbn [spec_run_tail]; intros l H; [exact H|].
  destruct (isStackTraceLine x);
    [destruct H as [<-|H]; [left; reflexivity | right; auto]|].
  destruct (forallb is_ws x);
    [destruct H as [<-|H]; [left; reflexivity | right; auto]|].
  destruct (existsb isStackTraceLine (firstn 2 ls));
    [destruct H as [<-|H]; [left; reflexivity | right; auto] | destruct H].
Qed.

Lemma spec_line_run_head (ls : list jsstring) :
  forall l0 more,
    spec_line_run ls = l0 :: more ->
    isStackTraceLine l0 = true /\ In l0 ls /\ forall l, In l more -> In l ls.
Proof.
  induction ls as [|x ls IH]; cbn [spec_line_run]; intros l0 more H;
    [discriminate|].
  destruct (isStackTraceLine x) eqn:Hx.
  - injection H as <- <-. split; [exact Hx|]. split; [left; reflexivity|].
    intros l Hl. right. apply spec_run_tail_In. exact Hl.
  - destruct (IH _ _ H) as (H1 & H2 & H3).
    split; [exact H1|]. split; [right; exact H2|].
    intros l Hl. right. auto.
Qed.

Lemma isStackTraceLine_nil : isStackTraceLine [] = false.
Proof. reflexivity. Qed.

(** The line run, joined and split again, still starts with a trace-like
    line. *)
Lemma line_run_hasStackTrace (input : jsstring) :
  hasStackTrace (parseStackTrace (extractByLines input))
  = negb (is_empty (extractByLines input)).
Proof.
  rewrite extractByLines_spec, hasStackTrace_existsb, split_lines_spec.
  pose proof (@spec_lines_from_no_lf _ input (le_n _) [] eq_refl) as Hlf.
  fold (spec_lines input) in Hlf. rewrite <- split_lines_spec in Hlf.
  destruct (spec_line_run (split_lines input)) as [|l0 more] eqn:Hrun;
    [reflexivity|].
  destruct (spec_line_run_head _ Hrun) as (Ht & Hin & _).
  assert (Hl0 : forallb (is_not c_lf) l0 = true).
  { rewrite Forall_forall in Hlf. apply Hlf. exact Hin. }
  assert (Hne : l0 <> []).
  { intros ->. rewrite isStackTraceLine_nil in Ht. discriminate. }
  destruct more as [|l1 more].
  - cbn [join]. unfold spec_lines.
    rewrite (@spec_lines_from_single l0 [] Hl0). cbn [app existsb].
    rewrite Ht. destruct l0; [congruence | reflexivity].
  - change (join [c_lf] (l0 :: l1 :: more))
      with (l0 ++ c_lf :: join [c_lf] (l1 :: more)).
    unfold spec_lines.
    destruct (@spec_lines_from_head l0 [] (join [c_lf] (l1 :: more)) Hl0)
      as (h & E & Hh).
    rewrite E. cbn [existsb app] in *.
    assert (Hh' : isStackTraceLine h = true).
    { destruct Hh as [->|Hh]; [exact Ht|].
      rewrite <- isStackTraceLine_cr, Hh. exact Ht. }
    rewrite Hh'. destruct l0; [congruence | reflexivity].
Qed.

Lemma formatAsHtml_placeholder_iff (parsed : ParsedStackTrace) :
  formatAsHtml parsed = Returns NO_STACKTRACE <->
  hasStackTrace parsed = false.
Proof.
  unfold formatAsHtml. destruct (hasStackTrace parsed); cbn [negb].
  - split; [|discriminate]. intros H.
    destruct (map_outcome format_line (lines parsed)) as [ys| |];
      cbn [bind] in H; discriminate.
  - split; reflexivity.
Qed.

(** X13: for every input, the text that [extractStackTrace] returns is a
    trace for the parser exactly when it is not empty, whether it was
    found in serialized form or collected line by line; so the pipeline
    answers with the placeholder exactly when the extracted text is
    empty. *)
Theorem X13_extracted_text_is_a_trace_unless_empty :
  forall x : jsstring,
  exists e : jsstring,
    extractStackTrace x = Returns e /\
    hasStackTrace (parseStackTrace e) = negb (is_empty e) /\
    (pipeline x = Returns NO_STACKTRACE <-> e = []).
Proof.
  intros x. destruct (extractStackTrace_cases x) as (e & He & Hcase).
  exists e. split; [exact He|].
  assert (Hh : hasStackTrace (parseStackTrace e) = negb (is_empty e)).
  { destruct Hcase as [[Hne Hc]| ->]; [|apply line_run_hasStackTrace].
    rewrite hasStackTrace_existsb,
      (containsStackTracePatterns_existsb _ Hc).
    destruct e; [congruence | reflexivity]. }
  split; [exact Hh|].
  unfold pipeline. rewrite He. cbn [bind].
  rewrite formatAsHtml_placeholder_iff, Hh.
  destruct e; cbn [is_empty negb]; split; congruence.
Qed.

(** ** The prefix of a cause line *)

Lemma rmatch_lit (lit : jsstring) k :
  forall q r cs,
    rmatch (Lit lit) k (MState q (lit ++ r) cs)
    = k (MState (q + length lit) r cs).
Proof.
  induction lit as [|c t IH]; intros q r cs.
  - cbn [Lit fold_right rmatch app length]. rewrite Nat.add_0_r. reflexivity.
  - change (Lit (c :: t)) with (Seq (Chr c) (Lit t)).
    cbn [rmatch Chr rest app]. rewrite N.eqb_refl.
    unfold advance. cbn [pos rest caps]. rewrite IH. cbn [length].
    replace (S q + length t) with (q + S (length t)) by lia. reflexivity.
Qed.

(** A greedy star over a character class takes the whole run of the
    class, when what follows the star accepts that. *)
Lemma star_iter_greedy (p : char -> bool) k :
  forall w n q r cs y,
    forallb p w = true ->
    match r with c :: _ => p c = false | [] => True end ->
    length (w ++ r) <= n ->
    k (MState (q + length w) r cs) = Some y ->
    star_iter (rmatch (Cls p)) k n (MState q (w ++ r) cs) = Some y.
Proof.
  induction w as [|c w IH]; intros n q r cs y Hw Hr Hn Hk.
  - cbn [app length] in *. rewrite Nat.add_0_r in Hk.
    destruct n as [|n]; cbn [star_iter]; [exact Hk|].
    cbn [rmatch rest]. destruct r as [|d r]; [exact Hk|].
    rewrite Hr. exact Hk.
  - cbn [forallb] in Hw. apply andb_true_iff in Hw. destruct Hw as [Hc Hw].
    cbn [app length] in Hn. destruct n as [|n]; [lia|].
    cbn [star_iter rmatch rest app]. rewrite Hc.
    unfold advance. cbn [pos rest caps length].
    replace (Nat.ltb (length (w ++ r)) (S (length (w ++ r)))) with true
      by (symmetry; apply Nat.ltb_lt; lia).
    match goal with
    | |- orelse ?a ?b = _ => replace a with (Some y); [reflexivity|]
    end.
    symmetry. apply (IH n (S q) r cs y Hw Hr); [lia|].
    cbn [length] in Hk. replace (S q + length w) with (q + S (length w))
      by lia. exact Hk.
Qed.

Lemma rmatch_star_greedy (p : char -> bool) k w q r cs y :
  forallb p w = true ->
  match r with c :: _ => p c = false | [] => True end ->
  k (MState (q + length w) r cs) = Some y ->
  rmatch (Star (Cls p)) k (MState q (w ++ r) cs) = Some y.
Proof.
  intros Hw Hr Hk. cbn [rmatch rest].
  apply star_iter_greedy; auto.
Qed.

Lemma rmatch_seq a b k s : rmatch (a ;; b) k s = rmatch a (rmatch b k) s.
Proof. reflexivity. Qed.

Lemma rmatch_bol k l cs : rmatch Bol k (MState 0 l cs) = k (MState 0 l cs).
Proof. reflexivity. Qed.

(** Replacing [^\s*word\s*] once by nothing takes away the white space
    before the word, the word and the white space after it. *)
Lemma replace_first_prefix (word lead body : jsstring) :
  forallb is_ws lead = true ->
  match word with c :: _ => is_ws c = false | [] => False end ->
  replace_first (Bol ;; Star ws ;; Lit word ;; Star ws) []
                (lead ++ word ++ body)
  = trimStart body.
Proof.
  intros Hlead Hword.
  destruct (dropWhile_split is_ws body) as (run & Eb & Hrun & Hnext).
  fold (trimStart body) in Eb, Hnext.
  remember (trimStart body) as tb eqn:Htb. clear Htb. subst body.
  assert (Hm : match_at (Bol ;; Star ws ;; Lit word ;; Star ws) 0
                 (lead ++ word ++ run ++ tb)
               = Some (MState (length lead + length word + length run)
                              tb [])).
  { unfold match_at. rewrite rmatch_seq, rmatch_bol, rmatch_seq. unfold ws.
    apply rmatch_star_greedy; [exact Hlead | |].
    - destruct word as [|c word]; [destruct Hword | exact Hword].
    - rewrite rmatch_seq, rmatch_lit.
      apply rmatch_star_greedy; [exact Hrun | exact Hnext | reflexivity]. }
  unfold replace_first, re_exec.
  assert (Hs : search_from (Bol ;; Star ws ;; Lit word ;; Star ws) 0
                 (lead ++ word ++ run ++ tb)
               = Some (MResult 0 (length lead + length word + length run) []))
    by (destruct (lead ++ word ++ run ++ tb); cbn [search_from]; rewrite Hm;
        reflexivity).
  rewrite Hs. cbn [index end_index firstn app].
  rewrite !app_assoc, <- !length_app.
  rewrite skipn_app, skipn_all, Nat.sub_diag. reflexivity.
Qed.

Lemma Matches_lit (word : jsstring) :
  forall s x, Matches (Lit word) s x -> rest s = word ++ rest x.
Proof.
  induction word as [|c word IH]; intros s x H.
  - inversion H; subst. reflexivity.
  - change (Lit (c :: word)) with (Seq (Chr c) (Lit word)) in H.
    inversion H as [| |? ? ? m ? H1 H2| | | | | | |]; subst.
    inversion H1 as [|? ? d t Hr Hp| | | | | | | |]; subst.
    apply N.eqb_eq in Hp. subst d.
    apply IH in H2. cbn [advance rest] in H2.
    rewrite Hr, H2. reflexivity.
Qed.

Lemma prefix_word_shape (word : jsstring) (r : regex) line m :
  re_exec (Bol ;; Group 1 (Star ws) ;; Lit word ;; r) line = Some m ->
  exists lead body,
    line = lead ++ word ++ body /\ forallb is_ws lead = true.
Proof.
  intros H. apply re_exec_anchored in H. destruct H as (x & H & _).
  inversion H as [| |? ? ? m1 ? H1 H2| | | | | | |]; subst.
  inversion H2 as [| |? ? ? m2 ? H3 H4| | | | | | |]; subst.
  apply Matches_lit in H3.
  apply Matches_Shape in H1. unfold ws in H1. cbn [Shape] in H1.
  destruct H1 as (m0 & w & (w0 & E0 & F0 & _) & E1 & E2 & _).
  cbn [rest] in E0, E1.
  exists w0, (rest m2). split; [|exact F0].
  rewrite E0, <- E2, H3. reflexivity.
Qed.

(** X14: on a line that the parser classifies as a cause or as a
    suppressed exception, the replacement that [formatAsHtml] makes
    before escaping takes away exactly the white space before the
    keyword, the keyword with its colon, and the white space after it. *)
Theorem X14_cause_prefix_is_stripped :
  forall line : jsstring,
    (type (parseStackTraceLine line) = T_caused_by ->
     exists lead body,
       line = lead ++ str "Caused by:" ++ body /\
       forallb is_ws lead = true /\
       replace_first caused_by_prefix []
                     (content (parseStackTraceLine line))
       = trimStart body) /\
    (type (parseStackTraceLine line) = T_suppressed ->
     exists lead body,
       line = lead ++ str "Suppressed:" ++ body /\
       forallb is_ws lead = true /\
       replace_first suppressed_prefix []
                     (content (parseStackTraceLine line))
       = trimStart body).
Proof.
  intros line. rewrite parseStackTraceLine_content, parseStackTraceLine_type.
  unfold re_test.
  destruct (re_exec exception_pattern line); [split; discriminate|].
  destruct (re_exec at_pattern line); [split; discriminate|].
  destruct (re_exec caused_by_pattern line) as [m|] eqn:Ec.
  - split; [intros _ | discriminate].
    apply prefix_word_shape in Ec. destruct Ec as (lead & body & E & Hl).
    exists lead, body. split; [exact E|]. split; [exact Hl|].
    rewrite E. apply replace_first_prefix; [exact Hl | reflexivity].
  - destruct (re_exec suppressed_pattern line) as [m|] eqn:Es.
    + split; [discriminate | intros _].
      apply prefix_word_shape in Es. destruct Es as (lead & body & E & Hl).
      exists lead, body. split; [exact E|]. split; [exact Hl|].
      rewrite E. apply replace_first_prefix; [exact Hl | reflexivity].
    + destruct (re_exec more_pattern line); split; discriminate.
Qed.

Lemma X14_cause_prefix_is_stripped_witness :
  exists lead body,
    str "  Caused by: x.YError: z" = lead ++ str "Caused by:" ++ body /\
    forallb is_ws lead = true /\
    replace_first caused_by_prefix []
      (content (parseStackTraceLine (str "  Caused by: x.YError: z")))
    = trimStart body.
Proof.
  apply (proj1 (X14_cause_prefix_is_stripped (str "  Caused by: x.YError: z"))).
  vm_compute. reflexivity.
Defined.

(** ** The first version of the class *)

Lemma count_loop_spec (ls : list jsstring) :
  forall n, n <= 1 ->
    V1.count_loop ls n = Nat.leb 2 (n + trace_like_count ls).
Proof.
  unfold trace_like_count.
  induction ls as [|l ls IH]; intros n Hn; cbn [V1.count_loop filter length].
  - symmetry. apply Nat.leb_gt. lia.
  - destruct (isStackTraceLine l); cbn [length]; [|apply IH; exact Hn].
    destruct n as [|n].
    + change (Nat.leb 2 1) with false. cbv iota. rewrite IH by lia.
      f_equal.
    + replace (Nat.leb 2 (S (S n))) with true by reflexivity.
      symmetry. apply Nat.leb_le. lia.
Qed.

Lemma V1_containsStackTracePatterns_count (content : jsstring) :
  V1.containsStackTracePatterns content
  = Nat.leb 2 (trace_like_count (split_lines content)).
Proof.
  unfold V1.containsStackTracePatterns. rewrite count_loop_spec by lia.
  reflexivity.
Qed.

Lemma containsStackTracePatterns_count (content : jsstring) :
  2 <= trace_like_count (split_lines content) ->
  containsStackTracePatterns content = true.
Proof.
  intros H. unfold containsStackTracePatterns.
  destruct (scan_step_fold (split_lines content) (mkScan 0 false false))
    as (Hc & _ & _).
  cbv zeta in Hc. rewrite Hc. cbn [stackTraceLineCount Nat.add].
  apply Nat.leb_le in H. rewrite H. reflexivity.
Qed.

(** X15: the block test of the first version, which leaves its loop as
    soon as it has counted two trace-like lines, holds exactly when the
    text has at least two trace-like lines; whatever it accepts, the block
    test of the later version accepts too. *)
Theorem X15_first_version_block_test :
  forall content : jsstring,
    V1.containsStackTracePatterns content
    = Nat.leb 2 (trace_like_count (split_lines content)) /\
    (V1.containsStackTracePatterns content = true ->
     containsStackTracePatterns content = true).
Proof.
  intros content. split; [apply V1_containsStackTracePatterns_count|].
  rewrite V1_containsStackTracePatterns_count. intros H.
  apply containsStackTracePatterns_count. apply Nat.leb_le. exact H.
Qed.

Lemma X15_first_version_block_test_witness :
  containsStackTracePatterns
    (str "x.YException: boom" ++ [c_lf; c_tab] ++ str "at a.B.c(B.java:12)")
  = true.
Proof.
  apply (proj2 (X15_first_version_block_test
                  (str "x.YException: boom" ++ [c_lf; c_tab] ++
                   str "at a.B.c(B.java:12)"))).
  vm_compute. reflexivity.
Defined.

Lemma includes_pair_cons (m x : char) (l : jsstring) :
  includes [c_backslash; m] (x :: l)
  = ((N.eqb c_backslash x && head_is m l) || includes [c_backslash; m] l)%bool.
Proof.
  cbn [includes starts_with]. unfold head_is.
  destruct l as [|y t]; [rewrite andb_false_r; reflexivity|].
  rewrite andb_true_r. reflexivity.
Qed.

(** A pass that puts a character other than [m] for an escape does not
    bring a backslash and [m] together. *)
Lemma pass_keeps_no_pair (c r m : char) :
  N.eqb m r = false ->
  (r = c_backslash -> c = c_backslash) ->
  forall n l, length l <= n ->
    includes [c_backslash; m] l = false ->
    includes [c_backslash; m] (spec_replace_escape c r l) = false /\
    (head_is m (spec_replace_escape c r l) = true -> head_is m l = true).
Proof.
  intros Hr Hrc. induction n as [|n IH]; intros l Hn Hl.
  - destruct l; [|cbn in Hn; lia]. split; [reflexivity | auto].
  - destruct l as [|x [|y t]]; [split; [reflexivity | auto] | |].
    + split; [exact Hl | auto].
    + rewrite spec_replace_escape_cons.
      rewrite includes_pair_cons in Hl. apply orb_false_iff in Hl.
      destruct Hl as [Hxy Hyt].
      destruct (N.eqb c_backslash x && N.eqb c y)%bool eqn:Hrep.
      * pose proof Hyt as Hyt'.
        rewrite includes_pair_cons in Hyt'. apply orb_false_iff in Hyt'.
        destruct Hyt' as [Hy Ht].
        destruct (IH t ltac:(cbn [length] in Hn; lia) Ht) as [Hi Hh].
        split.
        -- rewrite includes_pair_cons, Hi, orb_false_r.
           destruct (N.eqb_spec c_backslash r) as [Er|_]; [|reflexivity].
           cbn [andb].
           destruct (head_is m (spec_replace_escape c r t)) eqn:Hm;
             [|reflexivity].
           specialize (Hh eq_refl).
           apply andb_true_iff in Hrep. destruct Hrep as [_ Hcy].
           apply N.eqb_eq in Hcy. subst y.
           rewrite (Hrc (eq_sym Er)), N.eqb_refl, Hh in Hy. discriminate.
        -- cbn [head_is]. rewrite Hr. discriminate.
      * destruct (IH (y :: t) ltac:(cbn [length] in *; lia) Hyt) as [Hi Hh].
        split.
        -- rewrite includes_pair_cons, Hi, orb_false_r.
           destruct (N.eqb c_backslash x) eqn:Ex; [|reflexivity].
           cbn [andb] in *.
           destruct (head_is m (spec_replace_escape c r (y :: t))) eqn:Hm;
             [|reflexivity].
           rewrite (Hh eq_refl) in Hxy. discriminate.
        -- cbn [head_is]. auto.
Qed.

Lemma spec_replace_hex_no_pair (m : char) (n : nat) (l : jsstring) :
  includes [c_backslash; m] l = false -> spec_replace_hex m n 0 l = l.
Proof.
  induction l as [|x t IH]; intros H; [reflexivity|].
  rewrite includes_pair_cons in H. apply orb_false_iff in H.
  destruct H as [Hx Ht]. cbn [spec_replace_hex].
  replace (hex_escape_at m n (x :: t)) with false.
  - rewrite (IH Ht). reflexivity.
  - unfold hex_escape_at. destruct t as [|y t']; [reflexivity|].
    cbn [head_is] in Hx. rewrite Hx. reflexivity.
Qed.

Lemma five_passes_no_pair (m : char) (s : jsstring) :
  N.eqb m c_lf = false -> N.eqb m c_cr = false -> N.eqb m c_tab = false ->
  N.eqb m c_dquote = false -> N.eqb m c_backslash = false ->
  includes [c_backslash; m] s = false ->
  includes [c_backslash; m] (V1.unescapeJsonString s) = false.
Proof.
  intros H1 H2 H3 H4 H5 H. unfold V1.unescapeJsonString.
  rewrite !replace_all_escape.
  apply (@pass_keeps_no_pair c_backslash c_backslash m H5 (fun _ => eq_refl)
           _ _ (le_n _)).
  apply (@pass_keeps_no_pair c_dquote c_dquote m H4
           ltac:(discriminate) _ _ (le_n _)).
  apply (@pass_keeps_no_pair c_t c_tab m H3 ltac:(discriminate) _ _ (le_n _)).
  apply (@pass_keeps_no_pair c_r c_cr m H2 ltac:(discriminate) _ _ (le_n _)).
  apply (@pass_keeps_no_pair c_n c_lf m H1 ltac:(discriminate) _ _ (le_n _)).
  exact H.
Qed.

(** X16: on a text in which no backslash stands before [u] or [x], the
    later [unescapeJsonString] returns what the first version returns: its
    five passes never bring a backslash and one of these letters
    together, so the two passes for [\uXXXX] and [\xXX] find nothing. *)
Theorem X16_unescape_versions_agree :
  forall s : jsstring,
    includes [c_backslash; c_u] s = false ->
    includes [c_backslash; c_x] s = false ->
    unescapeJsonString s = V1.unescapeJsonString s.
Proof.
  intros s Hu Hx.
  pose proof (@five_passes_no_pair c_u s eq_refl eq_refl eq_refl eq_refl
                eq_refl Hu) as Hu'.
  pose proof (@five_passes_no_pair c_x s eq_refl eq_refl eq_refl eq_refl
                eq_refl Hx) as Hx'.
  rewrite unescapeJsonString_spec. unfold spec_unescape.
  assert (E : V1.unescapeJsonString s
              = spec_replace_escape c_backslash c_backslash
                  (spec_replace_escape c_dquote c_dquote
                     (spec_replace_escape c_t c_tab
                        (spec_replace_escape c_r c_cr
                           (spec_replace_escape c_n c_lf s)))))
    by (unfold V1.unescapeJsonString; rewrite !replace_all_escape;
        reflexivity).
  rewrite <- E.
  rewrite (@spec_replace_hex_no_pair c_u 4 _ Hu').
  rewrite (@spec_replace_hex_no_pair c_x 2 _ Hx'). reflexivity.
Qed.

Lemma X16_unescape_versions_agree_witness :
  unescapeJsonString (str "E: a\n\tat b.C.d(e)")
  = V1.unescapeJsonString (str "E: a\n\tat b.C.d(e)").
Proof.
  apply X16_unescape_versions_agree; reflexivity.
Defined.

Lemma V1_candidate_some c u :
  V1.candidate c = Some u ->
  u = V1.unescapeJsonString c /\ V1.containsStackTracePatterns u = true.
Proof.
  unfold V1.candidate. intros H.
  destruct (V1.containsStackTracePatterns (V1.unescapeJsonString c)) eqn:E;
    [|discriminate].
  injection H as <-. auto.
Qed.

(** X17: the first version of [extractStackTrace] returns on every input;
    a serialized trace that it returns is the unescaped inside of a
    quoted part of the input with at least two trace-like lines; and, as
    for the later version, what it returns is a trace for the parser
    exactly when it is not empty. *)
Theorem X17_first_version_extraction :
  forall input : jsstring,
  exists r e,
    V1.extractSerializedStackTrace input = Returns r /\
    match r with
    | Some u =>
        2 <= trace_like_count (split_lines u) /\
        exists c, is_factor c input /\ u = V1.unescapeJsonString c
    | None => True
    end /\
    V1.extractStackTrace input = Returns e /\
    hasStackTrace (parseStackTrace e) = negb (is_empty e).
Proof.
  intros input. unfold V1.extractStackTrace, V1.extractSerializedStackTrace.
  pose proof (@exec_loop_terminates _ quotedStringPattern
                (fun m => V1.candidate (group 1 m)) eq_refl input 0 0) as Ht.
  destruct (exec_loop quotedStringPattern
              (fun m => V1.candidate (group 1 m)) 0 0 input)
    as [u| |] eqn:E; [| |congruence]; cbn [of_loop bind].
  - apply exec_loop_found in E. destruct E as (k & s & _ & Hm & Hb).
    cbn [Nat.add] in *. apply V1_candidate_some in Hb.
    destruct Hb as [Hu Hc].
    assert (H2 : 2 <= trace_like_count (split_lines u)).
    { rewrite V1_containsStackTracePatterns_count in Hc.
      apply Nat.leb_le. exact Hc. }
    assert (Hh : hasStackTrace (parseStackTrace u) = true).
    { rewrite hasStackTrace_existsb.
      apply containsStackTracePatterns_existsb.
      apply containsStackTracePatterns_count. exact H2. }
    assert (Hne : u <> []).
    { intros ->. vm_compute in H2. lia. }
    exists (Some u), u. split; [reflexivity|]. split.
    + split; [exact H2|]. exists (group 1 (mk_result k s)).
      split; [|exact Hu].
      eapply is_factor_trans; [eapply match_at_group; exact Hm|].
      apply is_factor_skipn.
    + destruct u as [|c t]; [congruence|].
      split; [reflexivity | exact Hh].
  - exists None, (extractByLines input).
    split; [reflexivity|]. split; [exact I|].
    split; [reflexivity | apply line_run_hasStackTrace].
Qed.

(** ** Blank lines *)

Lemma is_ws_In (c : char) : is_ws c = true -> In c ws_chars.
Proof.
  unfold is_ws, in_range. intros H.
  repeat (apply orb_true_iff in H; destruct H as [H|H]);
    try (apply N.eqb_eq in H; subst c; cbn; tauto).
  apply andb_true_iff in H. destruct H as [H1 H2].
  apply N.leb_le in H1, H2.
  assert (Hc : (c = 8192 \/ c = 8193 \/ c = 8194 \/ c = 8195 \/ c = 8196 \/
                c = 8197 \/ c = 8198 \/ c = 8199 \/ c = 8200 \/ c = 8201 \/
                c = 8202)%N) by lia.
  repeat (destruct Hc as [Hc|Hc]; [subst c; cbn; tauto|]).
  subst c. cbn. tauto.
Qed.

Lemma must_nonws_sound r s x :
  Matches r s x -> must_nonws r = true -> forallb is_ws (rest s) = false.
Proof.
  induction 1 as [s|p s c t Hr Hp|a b s1 s2 s3 H1 IH1 H2 IH2
                  |a b s s' H IH|a b s s' H IH|a s
                  |a s1 s2 s3 H1 IH1 Hlt H2 IH2|m a s s' H IH|s Hp|s Hr];
    cbn [must_nonws]; intros Hm; try discriminate; auto.
  - rewrite Hr. cbn [forallb].
    destruct (is_ws c) eqn:Hc; [|reflexivity].
    apply is_ws_In in Hc. rewrite forallb_forall in Hm.
    specialize (Hm _ Hc). rewrite Hp in Hm. discriminate.
  - apply orb_true_iff in Hm. destruct Hm as [Hm|Hm]; [auto|].
    destruct (Matches_span H1) as (w & E & _ & _).
    rewrite E, forallb_app, (IH2 Hm). apply andb_false_r.
  - apply andb_true_iff in Hm. destruct Hm as [Hm _]. auto.
  - apply andb_true_iff in Hm. destruct Hm as [_ Hm]. auto.
Qed.

Lemma forallb_skipn (p : char -> bool) (l : jsstring) :
  forall k, forallb p l = true -> forallb p (skipn k l) = true.
Proof.
  induction l as [|c l IH]; intros [|k] H; cbn [skipn]; auto.
  cbn [forallb] in H. apply andb_true_iff in H. destruct H as [_ H]. auto.
Qed.

Lemma re_test_blank r line :
  must_nonws r = true -> forallb is_ws line = true -> re_test r line = false.
Proof.
  intros Hm Hb. unfold re_test.
  destruct (re_exec r line) as [m|] eqn:E; [|reflexivity].
  unfold re_exec in E. apply search_from_sound in E.
  destruct E as (k & x & _ & _ & H & _).
  apply (must_nonws_sound H) in Hm. cbn [rest] in Hm.
  rewrite (@forallb_skipn is_ws line k Hb) in Hm. discriminate.
Qed.

Lemma line_patterns_blank (line : jsstring) :
  forallb is_ws line = true ->
  existsb (fun pattern => re_test pattern line) STACK_TRACE_PATTERNS = false.
Proof.
  intros Hb. cbn [STACK_TRACE_PATTERNS existsb].
  rewrite !(fun r H => @re_test_blank r line H Hb) by (vm_compute; reflexivity).
  reflexivity.
Qed.

(** X18: none of the five line patterns matches a blank line, so the test
    for an empty trimmed line in [isStackTraceLine] never changes its
    answer; and a line, blank or not, is trace-like exactly when the
    parser gives it a type other than [unknown]. *)
Theorem X18_blank_lines_match_no_pattern :
  forall line : jsstring,
    isStackTraceLine line
    = existsb (fun pattern => re_test pattern line) STACK_TRACE_PATTERNS /\
    (isStackTraceLine line = true <->
     type (parseStackTraceLine line) <> T_unknown).
Proof.
  intros line.
  assert (H : isStackTraceLine line
              = existsb (fun pattern => re_test pattern line)
                        STACK_TRACE_PATTERNS).
  { unfold isStackTraceLine. rewrite trim_empty_iff.
    destruct (forallb is_ws line) eqn:Hb; [|reflexivity].
    symmetry. apply line_patterns_blank. exact Hb. }
  split; [exact H|].
  rewrite H. symmetry. apply parseStackTraceLine_known_iff.
Qed.

(** ** The guard of the raw strategy *)

Lemma starts_with_app (p a b : jsstring) :
  starts_with p a = true -> starts_with p (a ++ b) = true.
Proof.
  revert a. induction p as [|x p IH]; intros [|y a] H; cbn in *;
    try reflexivity; try discriminate.
  apply andb_true_iff in H. destruct H as [H1 H2].
  rewrite H1, (IH _ H2). reflexivity.
Qed.

Lemma includes_app_l (p a b : jsstring) :
  includes p a = true -> includes p (a ++ b) = true.
Proof.
  induction a as [|x a IH]; intros H.
  - cbn [includes] in H. rewrite orb_false_r in H.
    destruct p; [destruct b; reflexivity | discriminate].
  - cbn [includes app] in *. apply orb_true_iff in H. destruct H as [H|H].
    + change (x :: a ++ b) with ((x :: a) ++ b).
      rewrite (starts_with_app _ _ b H). reflexivity.
    + rewrite (IH H). apply orb_true_r.
Qed.

Lemma includes_app_r (p a b : jsstring) :
  includes p b = true -> includes p (a ++ b) = true.
Proof.
  intros H. induction a as [|x a IH]; [exact H|].
  cbn [includes app]. rewrite IH. apply orb_true_r.
Qed.

Lemma Matches_lit_pair (c d : char) s x :
  Matches (Chr c ;; Chr d) s x -> rest s = c :: d :: rest x.
Proof.
  intros H. apply (@Matches_lit [c; d]).
  change (Lit [c; d]) with (Chr c ;; Chr d ;; Eps).
  inversion H as [| |? ? ? m ? H1 H2| | | | | | |]; subst.
  eapply M_seq; [exact H1|]. eapply M_seq; [exact H2 | constructor].
Qed.

Lemma Holds_sound c r :
  Holds c r ->
  forall s x w, Matches r s x -> rest s = w ++ rest x ->
                includes [c_backslash; c] w = true.
Proof.
  induction 1 as [|a b Ha IH|a b Hb IH|a b Ha IHa Hb IHb|n a Ha IH];
    intros s x w H E.
  - unfold esc in H. apply Matches_lit_pair in H.
    rewrite H in E. change (c_backslash :: c :: rest x)
      with ([c_backslash; c] ++ rest x) in E.
    apply app_inv_tail in E. subst w. cbn. rewrite !N.eqb_refl. reflexivity.
  - inversion H as [| |? ? ? s2 ? H1 H2| | | | | | |]; subst.
    destruct (Matches_span H1) as (w1 & E1 & _ & _).
    destruct (Matches_span H2) as (w2 & E2 & _ & _).
    assert (w = w1 ++ w2).
    { rewrite E1, E2, app_assoc in E. apply app_inv_tail in E. auto. }
    subst w. apply includes_app_l. exact (IH _ _ _ H1 E1).
  - inversion H as [| |? ? ? s2 ? H1 H2| | | | | | |]; subst.
    destruct (Matches_span H1) as (w1 & E1 & _ & _).
    destruct (Matches_span H2) as (w2 & E2 & _ & _).
    assert (w = w1 ++ w2).
    { rewrite E1, E2, app_assoc in E. apply app_inv_tail in E. auto. }
    subst w. apply includes_app_r. exact (IH _ _ _ H2 E2).
  - inversion H; subst; eauto.
  - inversion H as [| | | | | | |? ? ? s' H1| |]; subst.
    cbn [set_cap rest] in E. eauto.
Qed.

Lemma match_at_group1 (a : regex) q l s :
  match_at (Group 1 a) q l = Some s ->
  exists s' w, Matches a (MState q l []) s' /\ l = w ++ rest s' /\
               group 1 (mk_result q s) = w.
Proof.
  intros H. apply match_at_sound in H.
  inversion H as [| | | | | | |? ? ? s' H1| |]; subst.
  destruct (Matches_span H1) as (w & E & P & _). cbn [pos rest] in *.
  exists s', w. split; [exact H1|]. split; [exact E|].
  unfold group, mk_result, set_cap. cbn [groups caps get_cap Nat.eqb].
  rewrite E. replace (pos s' - q) with (length w) by lia.
  apply firstn_length_app.
Qed.

Ltac find_holds :=
  first [ apply holds_esc
        | apply holds_group; find_holds
        | apply holds_seq_l; find_holds
        | apply holds_seq_r; find_holds ].

Lemma escapedPatterns_hold (pattern : regex) :
  In pattern escapedPatterns ->
  exists a, pattern = Group 1 a /\ Holds c_n a /\ Holds c_t a.
Proof.
  intros [<-|[<-|[]]]; eexists; (split; [reflexivity|]);
    split; find_holds.
Qed.

(** X19: in [extractFromRawEscapedText], whatever one of the two patterns
    matches holds the two-character escapes [\n] and [\t], so the first
    two tests of the guard before [extractExtendedEscapedSequence] always
    hold: the guard only asks whether the match includes [at] followed by
    a space. *)
Theorem X19_raw_guard_only_tests_at :
  forall (input : jsstring) (pattern : regex) (k : nat) (s : mstate),
    In pattern escapedPatterns ->
    match_at pattern k (skipn k input) = Some s ->
    includes [c_backslash; c_n] (group 1 (mk_result k s)) = true /\
    includes [c_backslash; c_t] (group 1 (mk_result k s)) = true /\
    raw_candidate input (mk_result k s)
    = if includes (str "at ") (group 1 (mk_result k s))
      then candidate (extractExtendedEscapedSequence input k)
      else None.
Proof.
  intros input pattern k s Hin Hm.
  destruct (@escapedPatterns_hold pattern Hin) as (a & -> & Hn & Ht).
  apply match_at_group1 in Hm. destruct Hm as (s' & w & Hs & E & Hg).
  assert (In1 : includes [c_backslash; c_n] w = true)
    by (eapply Holds_sound; [exact Hn | exact Hs | exact E]).
  assert (In2 : includes [c_backslash; c_t] w = true)
    by (eapply Holds_sound; [exact Ht | exact Hs | exact E]).
  unfold raw_candidate. rewrite Hg, In1, In2. cbn [andb index mk_result].
  auto.
Qed.

Lemma X19_raw_guard_only_tests_at_witness :
  includes [c_backslash; c_n]
    (group 1 (mk_result 0 (MState 14 [] [(1, str "XError\n\tat a")]))) = true /\
  includes [c_backslash; c_t]
    (group 1 (mk_result 0 (MState 14 [] [(1, str "XError\n\tat a")]))) = true /\
  raw_candidate (str "XError\n\tat a")
    (mk_result 0 (MState 14 [] [(1, str "XError\n\tat a")]))
  = if includes (str "at ")
         (group 1 (mk_result 0 (MState 14 [] [(1, str "XError\n\tat a")])))
    then candidate (extractExtendedEscapedSequence (str "XError\n\tat a") 0)
    else None.
Proof.
  apply (@X19_raw_guard_only_tests_at (str "XError\n\tat a")
           (nth 0 escapedPatterns Eps) 0
           (MState 14 [] [(1, str "XError\n\tat a")])).
  - left. reflexivity.
  - vm_compute. reflexivity.
Defined.

(** ** At most one line pattern matches *)

Lemma ws_not_ident (c : char) :
  is_ws c = true ->
  is_ident_dot c = false /\ is_ident_start c = false /\
  N.eqb 69 c = false /\ N.eqb 97 c = false /\ N.eqb 67 c = false /\
  N.eqb 83 c = false /\ N.eqb c_dot c = false.
Proof.
  intros H. apply is_ws_In in H. unfold ws_chars in H.
  repeat (destruct H as [<-|H]; [vm_compute; auto 10|]). destruct H.
Qed.

Lemma ident_start_dot (c : char) :
  is_ident_start c = true -> is_ident_dot c = true.
Proof.
  unfold is_ident_start, is_ident_dot, is_ident_part.
  destruct (is_lower c), (is_upper c), (is_digit c),
    (N.eqb c c_underscore), (N.eqb c c_dollar), (N.eqb c c_dot);
    cbn; auto.
Qed.

Lemma ident_part_dot (c : char) :
  is_ident_part c = true -> is_ident_dot c = true.
Proof. unfold is_ident_dot. intros ->. reflexivity. Qed.

Lemma trimStart_app (lead rem : jsstring) :
  forallb is_ws lead = true ->
  match rem with c :: _ => is_ws c = false | [] => True end ->
  trimStart (lead ++ rem) = rem.
Proof.
  unfold trimStart. intros Hl Hr.
  induction lead as [|x lead IH]; cbn [app dropWhile].
  - destruct rem as [|c t]; [reflexivity|]. cbn [dropWhile]. rewrite Hr.
    reflexivity.
  - cbn [forallb] in Hl. apply andb_true_iff in Hl. destruct Hl as [Hx Hl].
    rewrite Hx. exact (IH Hl).
Qed.

Lemma starts_with_refl (p b : jsstring) : starts_with p (p ++ b) = true.
Proof.
  induction p as [|x p IH]; [reflexivity|].
  cbn [app starts_with]. rewrite N.eqb_refl, IH. reflexivity.
Qed.

Lemma starts_with_split (p l : jsstring) :
  starts_with p l = true -> exists b, l = p ++ b.
Proof.
  revert l. induction p as [|x p IH]; intros l H.
  - exists l. reflexivity.
  - destruct l as [|y l]; [discriminate|]. cbn [starts_with] in H.
    apply andb_true_iff in H. destruct H as [Hx Hp].
    apply N.eqb_eq in Hx. subst y.
    destruct (IH _ Hp) as [b ->]. exists b. reflexivity.
Qed.

(** A line that starts with a keyword: what stands after the leading
    white space starts with the keyword. *)
Lemma keyword_start (word : jsstring) (r : regex) line m :
  match word with c :: _ => is_ws c = false | [] => False end ->
  re_exec (Bol ;; Group 1 (Star ws) ;; Lit word ;; r) line = Some m ->
  starts_with word (trimStart line) = true.
Proof.
  intros Hw H. apply prefix_word_shape in H.
  destruct H as (lead & body & -> & Hl).
  rewrite trimStart_app; [apply starts_with_refl | exact Hl |].
  destruct word; [destruct Hw | exact Hw].
Qed.

Lemma at_pattern_start line m :
  re_exec at_pattern line = Some m -> at_start (trimStart line) = true.
Proof.
  intros H. apply at_pattern_shape in H.
  destruct H as (lead & sep & c1 & u & c2 & v & loc & trail & -> & Hl & Hs
                 & Hsw & _).
  rewrite trimStart_app; [|exact Hl | reflexivity].
  destruct sep as [|c sep]; [congruence|].
  cbn [forallb] in Hsw. apply andb_true_iff in Hsw. destruct Hsw as [Hc _].
  cbn. rewrite Hc. reflexivity.
Qed.

Lemma Matches_star_dotted s x :
  Matches (Star (Chr c_dot ;; ident_start ;; Star ident_part)) s x ->
  exists v, rest s = v ++ rest x /\ forallb is_ident_dot v = true.
Proof.
  intros H.
  remember (Star (Chr c_dot ;; ident_start ;; Star ident_part)) as r eqn:Hr.
  induction H as [| | | | |a s|a s1 s2 s3 H1 _ Hlt H2 IH2| | |];
    try discriminate; inversion Hr; subst.
  - exists []. auto.
  - destruct (IH2 eq_refl) as (v & E & F).
    apply Matches_Shape in H1.
    unfold Chr, ident_start, ident_part in H1. cbn [Shape] in H1.
    destruct H1 as (m1 & (d & E1 & Hd & _) & m2 & (c & E2 & Hc & _)
                    & (w & E3 & Hw & _)).
    apply N.eqb_eq in Hd. subst d.
    exists (c_dot :: c :: w ++ v). split.
    + rewrite E1, E2, E3, E. cbn [app]. rewrite app_assoc. reflexivity.
    + cbn [forallb]. rewrite forallb_app, F, (ident_start_dot _ Hc).
      rewrite (forallb_impl _ is_ident_dot w ident_part_dot Hw).
      reflexivity.
Qed.

Lemma chain_tail_intro (w t : jsstring) :
  forallb is_ident_dot w = true ->
  (starts_with (str "Exception") t || starts_with (str "Error") t)%bool
    = true ->
  chain_tail (w ++ t) = true.
Proof.
  intros Hw Ht. induction w as [|c w IH]; cbn [app].
  - destruct t; cbn [chain_tail]; rewrite Ht; reflexivity.
  - cbn [forallb] in Hw. apply andb_true_iff in Hw. destruct Hw as [Hc Hw].
    cbn [chain_tail]. rewrite Hc, (IH Hw). cbn [andb].
    apply orb_true_r.
Qed.

Lemma exception_chain_start s x :
  Matches exception_chain s x ->
  exists c t, rest s = c :: t /\ is_ident_start c = true /\
              chain_tail t = true.
Proof.
  unfold exception_chain. intros H.
  inversion H as [| |? ? ? m1 ? H1 H2| | | | | | |]; subst.
  inversion H2 as [| |? ? ? m2 ? H3 H4| | | | | | |]; subst.
  inversion H4 as [| |? ? ? m3 ? H5 H6| | | | | | |]; subst.
  inversion H6 as [| |? ? ? m4 ? H7 H8| | | | | | |]; subst.
  inversion H1 as [|? ? c t Hr Hc| | | | | | | |]; subst.
  destruct (Matches_star_cls H3) as (u & Eu & Fu & _ & _).
  destruct (Matches_star_dotted H5) as (v & Ev & Fv).
  cbn [advance rest] in Eu.
  exists c, t. split; [exact Hr|]. split; [exact Hc|].
  rewrite Eu, Ev, app_assoc. apply chain_tail_intro.
  - rewrite forallb_app, Fu, Fv. reflexivity.
  - inversion H7 as [| | |? ? ? ? Hl|? ? ? ? Hl| | | | |]; subst.
    + apply (@Matches_lit (str "Exception")) in Hl.
      rewrite Hl, starts_with_refl. reflexivity.
    + apply (@Matches_lit (str "Error")) in Hl.
      rewrite Hl, starts_with_refl. apply orb_true_r.
Qed.

Lemma exception_pattern_start line m :
  re_exec exception_pattern line = Some m ->
  exception_start (trimStart line) = true.
Proof.
  unfold exception_pattern. intros H. apply re_exec_anchored in H.
  destruct H as (x & H & _).
  inversion H as [| |? ? ? m1 ? H1 H2| | | | | | |]; subst.
  inversion H2 as [| |? ? ? m2 ? H3 H4| | | | | | |]; subst.
  apply Matches_Shape in H1. unfold ws in H1. cbn [Shape] in H1.
  destruct H1 as (m0 & w & (lead & E0 & F0 & _) & _ & E2 & _).
  cbn [rest] in E0. rewrite <- E2 in *. clear E2.
  inversion H3 as [| | | | | | |? ? ? s' H5| |]; subst.
  inversion H5 as [| | |? ? ? ? Ha|? ? ? ? Hb| | | | |]; subst.
  - inversion Ha as [| |? ? ? m3 ? H6 H7| | | | | | |]; subst.
    apply (@Matches_lit (str "Exception in thread ")) in H6.
    rewrite H6.
    rewrite trimStart_app; [|exact F0 | reflexivity].
    unfold exception_start. rewrite starts_with_refl. reflexivity.
  - apply exception_chain_start in Hb.
    destruct Hb as (c & t & Er & Hc & Ht). rewrite Er.
    rewrite trimStart_app; [|exact F0|].
    + unfold exception_start. rewrite Hc, Ht. apply orb_true_r.
    + destruct (is_ws c) eqn:Hw; [|reflexivity].
      apply ws_not_ident in Hw. destruct Hw as (_ & Hw & _). congruence.
Qed.

(** How each pattern makes a line begin. *)
Lemma line_pattern_starts (line : jsstring) :
  (re_test exception_pattern line = true ->
   exception_start (trimStart line) = true) /\
  (re_test at_pattern line = true -> at_start (trimStart line) = true) /\
  (re_test caused_by_pattern line = true ->
   starts_with (str "Caused by:") (trimStart line) = true) /\
  (re_test suppressed_pattern line = true ->
   starts_with (str "Suppressed:") (trimStart line) = true) /\
  (re_test more_pattern line = true ->
   starts_with (str "...") (trimStart line) = true).
Proof.
  unfold re_test. repeat split.
  - destruct (re_exec exception_pattern line) eqn:E; [|discriminate].
    intros _. eapply exception_pattern_start; eauto.
  - destruct (re_exec at_pattern line) eqn:E; [|discriminate].
    intros _. eapply at_pattern_start; eauto.
  - destruct (re_exec caused_by_pattern line) eqn:E; [|discriminate].
    intros _. eapply keyword_start; [|exact E]. reflexivity.
  - destruct (re_exec suppressed_pattern line) eqn:E; [|discriminate].
    intros _. eapply keyword_start; [|exact E]. reflexivity.
  - destruct (re_exec more_pattern line) eqn:E; [|discriminate].
    intros _. eapply keyword_start; [|exact E]. reflexivity.
Qed.

Lemma chain_tail_ws (c : char) (t : jsstring) :
  is_ws c = true -> chain_tail (c :: t) = false.
Proof.
  intros H. apply ws_not_ident in H. destruct H as (Hd & _ & He & _).
  cbn [chain_tail]. rewrite Hd.
  change (starts_with (str "Exception") (c :: t))
    with (N.eqb 69 c && starts_with (str "xception") t)%bool.
  change (starts_with (str "Error") (c :: t))
    with (N.eqb 69 c && starts_with (str "rror") t)%bool.
  rewrite He. reflexivity.
Qed.

(** The five beginnings exclude one another. *)
Lemma line_starts_exclusive (l : jsstring) :
  length (filter (fun b : bool => b) (line_starts l)) <= 1.
Proof.
  unfold line_starts.
  destruct (starts_with (str "Caused by:") l) eqn:Hc.
  { apply starts_with_split in Hc. destruct Hc as [b ->].
    vm_compute. lia. }
  destruct (starts_with (str "Suppressed:") l) eqn:Hs.
  { apply starts_with_split in Hs. destruct Hs as [b ->].
    vm_compute. lia. }
  destruct (starts_with (str "...") l) eqn:Hm.
  { apply starts_with_split in Hm. destruct Hm as [b ->].
    vm_compute. lia. }
  destruct (at_start l) eqn:Ha.
  { destruct l as [|a [|t [|c r]]]; try discriminate.
    cbn [at_start] in Ha.
    apply andb_true_iff in Ha. destruct Ha as [Ha Hw].
    apply andb_true_iff in Ha. destruct Ha as [Ha Ht].
    apply N.eqb_eq in Ha, Ht. subst a t.
    match goal with
    | |- context [exception_start ?l0] =>
        assert (He : exception_start l0 = false)
    end.
    { unfold exception_start.
      match goal with
      | |- (?a || (?b && chain_tail ?t))%bool = false =>
          change a with false; change b with true;
          change (chain_tail t) with (chain_tail (c :: r))
      end.
      cbn [orb andb]. apply chain_tail_ws. exact Hw. }
    rewrite He. cbn. lia. }
  destruct (exception_start l); cbn; lia.
Qed.

Lemma re_tests_exclusive (line : jsstring) :
  length (filter (fun pattern => re_test pattern line) STACK_TRACE_PATTERNS)
    <= 1.
Proof.
  destruct (line_pattern_starts line) as (H1 & H2 & H3 & H4 & H5).
  pose proof (line_starts_exclusive (trimStart line)) as Hx.
  unfold line_starts in Hx. cbn [STACK_TRACE_PATTERNS filter].
  destruct (re_test exception_pattern line);
    [rewrite (H1 eq_refl) in Hx|clear H1];
  (destruct (re_test at_pattern line);
    [rewrite (H2 eq_refl) in Hx|clear H2]);
  (destruct (re_test caused_by_pattern line);
    [rewrite (H3 eq_refl) in Hx|clear H3]);
  (destruct (re_test suppressed_pattern line);
    [rewrite (H4 eq_refl) in Hx|clear H4]);
  (destruct (re_test more_pattern line);
    [rewrite (H5 eq_refl) in Hx|clear H5]);
  cbn [filter length] in Hx |- *;
  try lia;
  exfalso;
  repeat match type of Hx with
         | context [if ?b then _ else _] => destruct b
         end; cbn [length] in Hx; lia.
Qed.

(** X20: no line matches two of the five line patterns, so the order in
    which [parseStackTraceLine] tries them does not matter: the type of a
    line is the kind of the one pattern that matches it. *)
Theorem X20_line_patterns_exclude_one_another :
  forall line : jsstring,
    length (filter (fun pattern => re_test pattern line) STACK_TRACE_PATTERNS)
      <= 1 /\
    (type (parseStackTraceLine line) = T_exception <->
     re_test exception_pattern line = true) /\
    (type (parseStackTraceLine line) = T_at <->
     re_test at_pattern line = true) /\
    (type (parseStackTraceLine line) = T_caused_by <->
     re_test caused_by_pattern line = true) /\
    (type (parseStackTraceLine line) = T_suppressed <->
     re_test suppressed_pattern line = true) /\
    (type (parseStackTraceLine line) = T_more <->
     re_test more_pattern line = true).
Proof.
  intros line. pose proof (re_tests_exclusive line) as Hx.
  split; [exact Hx|].
  rewrite parseStackTraceLine_type.
  cbn [STACK_TRACE_PATTERNS filter] in Hx.
  destruct (re_test exception_pattern line), (re_test at_pattern line),
    (re_test caused_by_pattern line), (re_test suppressed_pattern line),
    (re_test more_pattern line);
    cbn [length] in Hx; try lia;
    repeat split; intros; congruence.
Qed.

(** ** The markup of the whole pipeline *)

Lemma extracted_hasStackTrace (x e : jsstring) :
  extractStackTrace x = Returns e ->
  hasStackTrace (parseStackTrace e) = negb (is_empty e).
Proof.
  intros He. destruct (extractStackTrace_cases x) as (e' & He' & Hcase).
  rewrite He in He'. apply Returns_inj in He'. subst e'.
  destruct Hcase as [[Hne Hc]| ->]; [|apply line_run_hasStackTrace].
  rewrite hasStackTrace_existsb, (containsStackTracePatterns_existsb _ Hc).
  destruct e; [congruence | reflexivity].
Qed.

Lemma formatAsHtml_tags c (parsed : ParsedStackTrace) (out : jsstring) :
  c = c_lt \/ c = c_gt \/ c = c_dquote ->
  hasStackTrace parsed = true ->
  formatAsHtml parsed = Returns out ->
  count_char c out
  = 2 + list_sum (map (fun line => tag_count (type line)) (lines parsed)).
Proof.
  intros Hc Ht H. unfold formatAsHtml in H. rewrite Ht in H.
  cbn [negb] in H.
  destruct (map_outcome format_line (lines parsed)) as [outs| |] eqn:Ho;
    cbn [bind] in H; try discriminate.
  apply Returns_inj in H. subst out.
  rewrite (count_char_div _ _ Hc), (@map_outcome_count c _ Hc _ Ho).
  destruct Hc as [->|[->| ->]]; count_constants; lia.
Qed.

(** X21: for every input, the markup that the pipeline returns holds the
    characters [<], [>] and the double quote only in the tags of the
    renderer: each of them occurs twice for the container or the
    placeholder, and for each line of the trace as often as the elements
    of its kind need.  Nothing of the input can open or close a tag or an
    attribute value. *)
Theorem X21_pipeline_markup_only_from_tags :
  forall x : jsstring,
  exists e out : jsstring,
    extractStackTrace x = Returns e /\
    pipeline x = Returns out /\
    let tags :=
      2 + list_sum (map (fun line => tag_count (type line))
                        (lines (parseStackTrace e))) in
    count_char c_lt out = tags /\
    count_char c_gt out = tags /\
    count_char c_dquote out = tags.
Proof.
  intros x. destruct (extractStackTrace_returns x) as [e He].
  destruct (formatAsHtml_parse_returns e) as (out & Hf & _ & Hp).
  exists e, out. split; [exact He|].
  split; [unfold pipeline; rewrite He; exact Hf|].
  pose proof (@extracted_hasStackTrace x e He) as Hh.
  destruct e as [|c0 e0].
  - rewrite (Hp Hh). vm_compute. auto.
  - cbn [is_empty negb] in Hh. cbv zeta.
    repeat split;
      apply (fun Hc => @formatAsHtml_tags _ _ out Hc Hh Hf); auto.
Qed.

(** ** One [\uXXXX] or [\xXX] escape *)

Lemma spec_replace_escape_absent c r :
  forall n l, length l <= n ->
    includes [c_backslash; c] l = false -> spec_replace_escape c r l = l.
Proof.
  induction n as [|n IH]; intros [|x [|y t]] Hn H; try reflexivity;
    cbn [length] in Hn; try lia.
  rewrite spec_replace_escape_cons.
  rewrite includes_pair_cons in H. apply orb_false_iff in H.
  destruct H as [Hx Ht]. cbn [head_is] in Hx. rewrite Hx.
  rewrite (IH (y :: t)); [reflexivity | cbn [length]; lia | exact Ht].
Qed.

Lemma includes_pair_app (m : char) (a l : jsstring) :
  forallb (is_not c_backslash) a = true ->
  includes [c_backslash; m] (a ++ l) = includes [c_backslash; m] l.
Proof.
  induction a as [|x a IH]; intros H; [reflexivity|].
  cbn [forallb] in H. apply andb_true_iff in H. destruct H as [Hx Ha].
  cbn [app]. rewrite includes_pair_cons, (IH Ha).
  unfold is_not in Hx. apply negb_true_iff in Hx.
  rewrite N.eqb_sym, Hx. reflexivity.
Qed.

Lemma one_escape_pairs (c m : char) (a t : jsstring) :
  N.eqb c m = false ->
  N.eqb c_backslash m = false ->
  forallb (is_not c_backslash) a = true ->
  forallb (is_not c_backslash) t = true ->
  includes [c_backslash; c] (a ++ c_backslash :: m :: t) = false.
Proof.
  intros Hc Hm Ha Ht. rewrite includes_pair_app by exact Ha.
  rewrite includes_pair_cons. cbn [head_is]. rewrite Hc, andb_false_r.
  cbn [orb]. rewrite includes_pair_cons, Hm.
  apply includes_backslash. exact Ht.
Qed.

Lemma spec_replace_hex_app (m : char) (n : nat) (a l : jsstring) :
  forallb (is_not c_backslash) a = true ->
  spec_replace_hex m n 0 (a ++ l) = a ++ spec_replace_hex m n 0 l.
Proof.
  induction a as [|x a IH]; intros H; [reflexivity|].
  cbn [forallb] in H. apply andb_true_iff in H. destruct H as [Hx Ha].
  cbn [app spec_replace_hex].
  replace (hex_escape_at m n (x :: a ++ l)) with false.
  - rewrite (IH Ha). reflexivity.
  - unfold hex_escape_at. unfold is_not in Hx. apply negb_true_iff in Hx.
    destruct (a ++ l); [reflexivity|]. rewrite N.eqb_sym, Hx. reflexivity.
Qed.

Lemma spec_replace_hex_skip (m : char) (n : nat) (w l : jsstring) :
  spec_replace_hex m n (length w) (w ++ l) = spec_replace_hex m n 0 l.
Proof.
  induction w as [|x w IH]; [reflexivity|].
  cbn [length app spec_replace_hex]. exact IH.
Qed.

Lemma hex_value_lt (c : char) : is_hex c = true -> (hex_value c < 16)%N.
Proof.
  unfold is_hex, hex_value, is_digit, in_range. intros H.
  destruct ((48 <=? c)%N && (c <=? 57)%N)%bool eqn:Hd.
  - apply andb_true_iff in Hd. destruct Hd as [H1 H2].
    apply N.leb_le in H1, H2. lia.
  - cbn [orb] in H.
    destruct ((97 <=? c)%N && (c <=? 102)%N)%bool eqn:Hl.
    + apply andb_true_iff in Hl. destruct Hl as [H1 H2].
      apply N.leb_le in H1, H2. lia.
    + cbn [orb] in H. apply andb_true_iff in H. destruct H as [H1 H2].
      apply N.leb_le in H1, H2. lia.
Qed.

Lemma parseInt_hex_lt (ds : jsstring) :
  forallb is_hex ds = true -> (parseInt_hex ds < 16 ^ N.of_nat (length ds))%N.
Proof.
  unfold parseInt_hex.
  assert (G : forall ds acc k,
             forallb is_hex ds = true -> (acc < 16 ^ k)%N ->
             (fold_left (fun a c => (a * 16 + hex_value c)%N) ds acc
              < 16 ^ (k + N.of_nat (length ds)))%N).
  { clear ds. induction ds as [|d ds IH]; intros acc k H Hacc.
    - cbn [fold_left length]. rewrite N.add_0_r. exact Hacc.
    - cbn [forallb] in H. apply andb_true_iff in H. destruct H as [Hd Hds].
      cbn [fold_left length].
      replace (k + N.of_nat (S (length ds)))%N
        with ((k + 1) + N.of_nat (length ds))%N by lia.
      apply IH; [exact Hds|].
      pose proof (@hex_value_lt d Hd).
      rewrite N.pow_add_r. change (16 ^ 1)%N with 16%N. nia. }
  intros H. exact (G ds 0%N 0%N H ltac:(reflexivity)).
Qed.

(** X22: in a text without any other backslash, one escape [\uXXXX]
    (four hexadecimal digits) or [\xXX] (two) is replaced by the code
    unit that the digits denote and the rest is kept, provided that code
    unit is not the backslash itself. *)
Theorem X22_one_hex_escape_is_decoded :
  forall (marker : char) (n : nat) (a ds b : jsstring),
    (marker = c_u /\ n = 4) \/ (marker = c_x /\ n = 2) ->
    forallb (is_not c_backslash) a = true ->
    forallb (is_not c_backslash) b = true ->
    length ds = n ->
    forallb is_hex ds = true ->
    parseInt_hex ds <> c_backslash ->
    unescapeJsonString (a ++ [c_backslash; marker] ++ ds ++ b)
    = a ++ [parseInt_hex ds] ++ b.
Proof.
  intros marker n a ds b Hm Ha Hb Hlen Hds Hv.
  assert (Hhex : forallb (is_not c_backslash) ds = true).
  { eapply forallb_impl; [|exact Hds]. intros c Hc.
    unfold is_not. destruct (N.eqb_spec c c_backslash) as [->|]; [|reflexivity].
    vm_compute in Hc. discriminate. }
  assert (Ht : forallb (is_not c_backslash) (ds ++ b) = true)
    by (rewrite forallb_app, Hhex, Hb; reflexivity).
  assert (Hmod : fromCharCode (parseInt_hex ds) = [parseInt_hex ds]).
  { unfold fromCharCode. f_equal. apply N.mod_small.
    pose proof (@parseInt_hex_lt ds Hds) as Hlt. rewrite Hlen in Hlt.
    destruct Hm as [[_ ->]|[_ ->]]; cbn in Hlt; lia. }
  assert (Hclean : forallb (is_not c_backslash) (a ++ [parseInt_hex ds] ++ b)
                   = true).
  { cbn [app]. rewrite forallb_app. cbn [forallb]. rewrite Ha, Hb.
    unfold is_not.
    destruct (N.eqb_spec (parseInt_hex ds) c_backslash); [contradiction|].
    reflexivity. }
  assert (Hdec : spec_replace_hex marker n 0
                   (a ++ [c_backslash; marker] ++ ds ++ b)
                 = a ++ [parseInt_hex ds] ++ b).
  { rewrite spec_replace_hex_app by exact Ha. f_equal.
    cbn [app spec_replace_hex].
    assert (He : hex_escape_at marker n (c_backslash :: marker :: ds ++ b)
                 = true).
    { unfold hex_escape_at. rewrite !N.eqb_refl. cbn [andb].
      rewrite length_app, <- Hlen, firstn_app, Nat.sub_diag, firstn_all.
      cbn [firstn]. rewrite app_nil_r, Hds, andb_true_r.
      apply Nat.leb_le. lia. }
    rewrite He. cbn [tl].
    rewrite <- Hlen at 1. rewrite firstn_app, Nat.sub_diag, firstn_all.
    cbn [firstn]. rewrite app_nil_r, Hmod. cbn [app]. f_equal.
    replace (spec_replace_hex marker n n (ds ++ b))
      with (spec_replace_hex marker n (length ds) (ds ++ b))
      by (rewrite Hlen; reflexivity).
    rewrite spec_replace_hex_skip. apply spec_replace_hex_id. exact Hb. }
  rewrite unescapeJsonString_spec. unfold spec_unescape.
  cbn [app] in *.
  assert (Hno : forall c, N.eqb c marker = false ->
                  includes [c_backslash; c]
                    (a ++ c_backslash :: marker :: ds ++ b) = false)
    by (intros c Hc; apply one_escape_pairs; try assumption;
        destruct Hm as [[-> _]|[-> _]]; reflexivity).
  assert (Hpass : forall c r, N.eqb c marker = false ->
                    spec_replace_escape c r
                      (a ++ c_backslash :: marker :: ds ++ b)
                    = a ++ c_backslash :: marker :: ds ++ b).
  { intros c r Hc. eapply spec_replace_escape_absent; [apply le_n|].
    apply Hno. exact Hc. }
  destruct Hm as [[-> ->]|[-> ->]].
  - rewrite !Hpass by reflexivity. rewrite Hdec.
    apply spec_replace_hex_id. exact Hclean.
  - rewrite !Hpass by reflexivity.
    rewrite (@spec_replace_hex_no_pair c_u 4 _ (Hno c_u eq_refl)).
    exact Hdec.
Qed.

Lemma X22_one_hex_escape_is_decoded_witness :
  unescapeJsonString (str "a" ++ [c_backslash; c_u] ++ str "00e9" ++ str "b")
  = str "a" ++ [parseInt_hex (str "00e9")] ++ str "b".
Proof.
  apply (@X22_one_hex_escape_is_decoded c_u 4 (str "a") (str "00e9") (str "b"));
    try reflexivity.
  - left. split; reflexivity.
  - vm_compute. discriminate.
Defined.

(** When the digits denote the backslash, the pass for [\xXX] reads the
    result again: the text [\x41] becomes [A]. *)
Example hex_escape_read_twice :
  unescapeJsonString ([c_backslash; c_u] ++ str "005cx41") = str "A".
Proof. vm_compute. reflexivity. Qed.

(** ** Parsing a frame built from its parts *)

Lemma consumes_eps : Consumes Eps [].
Proof.
  intros q r0 cs. exists cs. cbn [app length]. rewrite Nat.add_0_r.
  constructor.
Qed.

Lemma consumes_cls (p : char -> bool) (c : char) :
  p c = true -> Consumes (Cls p) [c].
Proof.
  intros H q r0 cs. exists cs. cbn [app length].
  replace (q + 1) with (S q) by lia. apply Matches_cls_intro. exact H.
Qed.

Lemma consumes_star_cls (p : char -> bool) (w : jsstring) :
  forallb p w = true -> Consumes (Star (Cls p)) w.
Proof.
  intros H q r0 cs. exists cs. apply Matches_star_cls_intro. exact H.
Qed.

Lemma consumes_seq a b wa wb :
  Consumes a wa -> Consumes b wb -> Consumes (Seq a b) (wa ++ wb).
Proof.
  intros Ha Hb q r0 cs.
  destruct (Ha q (wb ++ r0) cs) as [cs1 H1].
  destruct (Hb (q + length wa) r0 cs1) as [cs2 H2].
  exists cs2. rewrite <- app_assoc, length_app, Nat.add_assoc.
  eapply M_seq; eauto.
Qed.

Lemma consumes_group n a w : Consumes a w -> Consumes (Group n a) w.
Proof.
  intros Ha q r0 cs. destruct (Ha q r0 cs) as [cs1 H1].
  exists ((n, firstn (q + length w - q) (w ++ r0)) :: cs1).
  apply (M_group n) in H1. exact H1.
Qed.

Lemma consumes_plus_cls (p : char -> bool) (c : char) (w : jsstring) :
  p c = true -> forallb p w = true -> Consumes (Plus (Cls p)) (c :: w).
Proof.
  intros Hc Hw. change (c :: w) with ([c] ++ w). unfold Plus.
  apply consumes_seq; [apply consumes_cls | apply consumes_star_cls]; auto.
Qed.

Lemma consumes_lit (w : jsstring) : Consumes (Lit w) w.
Proof.
  induction w as [|c w IH]; [apply consumes_eps|].
  change (Lit (c :: w)) with (Seq (Chr c) (Lit w)).
  change (c :: w) with ([c] ++ w).
  apply consumes_seq; [|exact IH]. apply consumes_cls. apply N.eqb_refl.
Qed.

Lemma to_end_eol : ConsumesToEnd Eol [].
Proof. intros q cs. eexists. apply M_eol. reflexivity. Qed.

Lemma to_end_seq a b wa wb :
  Consumes a wa -> ConsumesToEnd b wb -> ConsumesToEnd (Seq a b) (wa ++ wb).
Proof.
  intros Ha Hb q cs. destruct (Ha q wb cs) as [cs1 H1].
  destruct (Hb (q + length wa) cs1) as [x H2].
  exists x. eapply M_seq; eauto.
Qed.

Lemma to_end_re_test r line :
  ConsumesToEnd r line -> re_test (Bol ;; r) line = true.
Proof.
  intros H. apply re_test_true. destruct (H 0 []) as [x Hx].
  exists x. eapply M_seq; [apply M_bol; reflexivity | exact Hx].
Qed.






(** ** Elision lines *)

Lemma more_pattern_shape line :
  re_test more_pattern line = true ->
  exists lead s1 ds s2 trail,
    line = lead ++ str "..." ++ s1 ++ ds ++ s2 ++ str "more" ++ trail /\
    forallb is_ws lead = true /\ forallb is_ws s1 = true /\
    ds <> [] /\ forallb is_digit ds = true /\
    forallb is_ws s2 = true /\ forallb is_ws trail = true.
Proof.
  unfold re_test.
  destruct (re_exec more_pattern line) as [m|] eqn:H; [|discriminate].
  intros _. apply re_exec_anchored in H. destruct H as (x & H & _).
  open_shape H. cancel_tails.
  match goal with
  | Hl : forallb is_ws ?lead = true, H1 : forallb is_ws ?s1 = true,
    Hd : is_digit ?d = true, Hds : forallb is_digit ?ds = true,
    H2 : forallb is_ws ?s2 = true, Ht : forallb is_ws ?trail = true
    |- context [?lead ++ _ :: _ :: _ :: ?s1 ++ ?d :: ?ds ++ ?s2 ++ _] =>
      exists lead, s1, (d :: ds), s2, trail
  end.
  cbn [forallb].
  repeat match goal with H : _ = true |- _ => rewrite H end.
  rewrite ?app_nil_r. cbn [andb app].
  repeat split; discriminate.
Qed.

Lemma more_line_matches lead s1 ds s2 trail :
  forallb is_ws lead = true -> forallb is_ws s1 = true ->
  ds <> [] -> forallb is_digit ds = true ->
  forallb is_ws s2 = true -> forallb is_ws trail = true ->
  re_test more_pattern
    (lead ++ str "..." ++ s1 ++ ds ++ s2 ++ str "more" ++ trail) = true.
Proof.
  intros Hlead Hs1 Hds Hdig Hs2 Htrail.
  destruct ds as [|d ds]; [congruence|].
  cbn [forallb] in Hdig. apply andb_true_iff in Hdig.
  destruct Hdig as [Hd Hdig].
  unfold more_pattern. apply to_end_re_test.
  replace (lead ++ str "..." ++ s1 ++ (d :: ds) ++ s2 ++ str "more" ++ trail)
    with (lead ++ str "..." ++ s1 ++ (d :: ds) ++ s2 ++ str "more" ++
          trail ++ [])
    by (rewrite app_nil_r; reflexivity).
  apply to_end_seq;
    [apply consumes_group, consumes_star_cls; exact Hlead|].
  apply to_end_seq; [apply consumes_lit|].
  apply to_end_seq; [apply consumes_star_cls; exact Hs1|].
  apply to_end_seq; [apply consumes_plus_cls; assumption|].
  apply to_end_seq; [apply consumes_star_cls; exact Hs2|].
  apply to_end_seq; [apply consumes_lit|].
  apply to_end_seq; [apply consumes_star_cls; exact Htrail|].
  apply to_end_eol.
Qed.

(** X24: the lines that the parser classifies as elisions are exactly the
    lines made of three dots, a non-empty run of digits and the word
    [more], with white space allowed before, between and after them. *)
Theorem X24_elision_lines :
  forall line : jsstring,
    type (parseStackTraceLine line) = T_more <->
    exists lead s1 ds s2 trail : jsstring,
      line = lead ++ str "..." ++ s1 ++ ds ++ s2 ++ str "more" ++ trail /\
      forallb is_ws lead = true /\ forallb is_ws s1 = true /\
      ds <> [] /\ forallb is_digit ds = true /\
      forallb is_ws s2 = true /\ forallb is_ws trail = true.
Proof.
  intros line. split.
  - intros Ht. apply more_pattern_shape.
    rewrite parseStackTraceLine_type in Ht.
    destruct (re_test exception_pattern line); [discriminate|].
    destruct (re_test at_pattern line); [discriminate|].
    destruct (re_test caused_by_pattern line); [discriminate|].
    destruct (re_test suppressed_pattern line); [discriminate|].
    destruct (re_test more_pattern line); [reflexivity | discriminate].
  - intros (lead & s1 & ds & s2 & trail & -> & Hlead & Hs1 & Hds & Hdig
            & Hs2 & Htrail).
    pose proof (@more_line_matches lead s1 ds s2 trail
                  Hlead Hs1 Hds Hdig Hs2 Htrail) as Hm.
    pose proof (re_tests_exclusive
                  (lead ++ str "..." ++ s1 ++ ds ++ s2 ++ str "more" ++ trail))
      as Hx.
    rewrite parseStackTraceLine_type.
    cbn [STACK_TRACE_PATTERNS filter] in Hx. rewrite Hm in Hx.
    repeat match type of Hx with
           | context [if re_test ?p ?l then _ else _] =>
               destruct (re_test p l)
           end; cbn [length] in Hx; try lia.
    rewrite Hm. reflexivity.
Qed.

(** ** Headers, causes and suppressed exceptions *)

Lemma consumes_star_nil a : Consumes (Star a) [].
Proof.
  intros q r0 cs. exists cs. cbn [app length]. rewrite Nat.add_0_r.
  constructor.
Qed.

Lemma consumes_alt_l a b w : Consumes a w -> Consumes (Alt a b) w.
Proof.
  intros H q r0 cs. destruct (H q r0 cs) as [cs' H']. exists cs'.
  apply M_alt_l. exact H'.
Qed.

Lemma consumes_alt_r a b w : Consumes b w -> Consumes (Alt a b) w.
Proof.
  intros H q r0 cs. destruct (H q r0 cs) as [cs' H']. exists cs'.
  apply M_alt_r. exact H'.
Qed.

Lemma chain_consumes (w : jsstring) :
  chain_word w -> Consumes exception_chain w.
Proof.
  intros (c1 & body & lit & opt & -> & Hc1 & Hbody & Hlit & Hopt).
  unfold exception_chain.
  change (c1 :: body ++ lit ++ opt)
    with ([c1] ++ body ++ [] ++ lit ++ opt).
  apply consumes_seq; [apply consumes_cls; exact Hc1|].
  apply consumes_seq; [apply consumes_star_cls; exact Hbody|].
  apply consumes_seq; [apply consumes_star_nil|].
  apply consumes_seq.
  - destruct Hlit as [-> | ->];
      [apply consumes_alt_l | apply consumes_alt_r]; apply consumes_lit.
  - destruct Hopt as [-> | (s & a & msg & -> & Hs & Ha & Hmsg)].
    + apply consumes_alt_r, consumes_eps.
    + apply consumes_alt_l.
      change (c_colon :: s ++ a :: msg) with ([c_colon] ++ s ++ a :: msg).
      apply consumes_seq; [apply consumes_cls; apply N.eqb_refl|].
      apply consumes_seq; [apply consumes_star_cls; exact Hs|].
      apply consumes_plus_cls; assumption.
Qed.

Lemma message_shape s x :
  Matches (Opt (Chr c_colon ;; Star ws ;; Plus any)) s x ->
  exists opt, rest s = opt ++ rest x /\ chain_message opt.
Proof.
  unfold Opt. intros H.
  inversion H as [| | |? ? ? ? Hl|? ? ? ? Hr| | | | |]; subst.
  - apply Matches_Shape in Hl. unfold Chr, ws, Plus, any in Hl.
    cbn [Shape] in Hl.
    destruct Hl as (m1 & (c0 & E1 & Hc0 & _) & m2 & (w & E2 & Hw & _)
                    & m3 & (a & E3 & Ha & _) & (msg & E4 & Hmsg & _)).
    apply N.eqb_eq in Hc0. subst c0.
    exists (c_colon :: w ++ a :: msg). split.
    + rewrite E1, E2, E3, E4. cbn [app]. rewrite <- app_assoc. reflexivity.
    + right. exists w, a, msg. auto.
  - inversion Hr; subst. exists []. split; [reflexivity | left; reflexivity].
Qed.

Lemma chain_shape s x :
  Matches exception_chain s x ->
  exists w, rest s = w ++ rest x /\ chain_word w.
Proof.
  unfold exception_chain. intros H.
  inversion H as [| |? ? ? m1 ? H1 H2| | | | | | |]; subst.
  inversion H2 as [| |? ? ? m2 ? H3 H4| | | | | | |]; subst.
  inversion H4 as [| |? ? ? m3 ? H5 H6| | | | | | |]; subst.
  inversion H6 as [| |? ? ? m4 ? H7 H8| | | | | | |]; subst.
  inversion H1 as [|? ? c t Hr Hc| | | | | | | |]; subst.
  destruct (Matches_star_cls H3) as (u & Eu & Fu & _ & _).
  destruct (Matches_star_dotted H5) as (v & Ev & Fv).
  destruct (message_shape H8) as (opt & Eo & Ho).
  cbn [advance rest] in Eu.
  assert (Hlit : exists lit, rest m3 = lit ++ rest m4 /\
                   (lit = str "Exception" \/ lit = str "Error")).
  { inversion H7 as [| | |? ? ? ? Hl|? ? ? ? Hl| | | | |]; subst.
    - apply (@Matches_lit (str "Exception")) in Hl. eauto.
    - apply (@Matches_lit (str "Error")) in Hl. eauto. }
  destruct Hlit as (lit & El & Hlit).
  exists (c :: (u ++ v) ++ lit ++ opt). split.
  - rewrite Hr, Eu, Ev, El, Eo. cbn [app]. rewrite <- !app_assoc.
    reflexivity.
  - exists c, (u ++ v), lit, opt. split; [reflexivity|].
    split; [exact Hc|]. split; [|auto].
    rewrite forallb_app, Fu, Fv. reflexivity.
Qed.

Lemma keyword_pattern_iff (keyword line : jsstring) :
  re_test (keyword_pattern keyword) line = true <-> keyword_line keyword line.
Proof.
  unfold keyword_pattern. split.
  - intros H. apply re_test_true in H. destruct H as [x H].
    inversion H as [| |? ? ? m0 ? Hb H0| | | | | | |]; subst.
    inversion Hb as [| | | | | | | |? Hp0|]; subst.
    inversion H0 as [| |? ? ? m1 ? H1 H2| | | | | | |]; subst.
    inversion H2 as [| |? ? ? m2 ? H3 H4| | | | | | |]; subst.
    inversion H4 as [| |? ? ? m3 ? H5 H6| | | | | | |]; subst.
    inversion H6 as [| |? ? ? m4 ? H7 H8| | | | | | |]; subst.
    inversion H8 as [| |? ? ? m5 ? H9 H10| | | | | | |]; subst.
    inversion H10 as [| | | | | | | | |? Hend]; subst.
    apply Matches_Shape in H1. unfold ws in H1. cbn [Shape] in H1.
    destruct H1 as (m0 & w0 & (lead & E0 & F0 & _) & _ & E0' & _).
    cbn [rest] in E0. rewrite <- E0' in E0. clear E0'.
    apply Matches_lit in H3.
    destruct (Matches_star_cls H5) as (s1 & E1 & F1 & _ & _).
    inversion H7 as [| | | | | | |? ? ? s' Hc| |]; subst.
    apply chain_shape in Hc. destruct Hc as (w & Ew & Hw).
    destruct (Matches_star_cls H9) as (trail & Et & Ft & _ & _).
    cbn [set_cap rest] in Et. rewrite Hend, app_nil_r in Et.
    exists lead, s1, w, trail.
    split; [|auto]. rewrite H3, E1, Ew, Et. reflexivity.
  - intros (lead & s1 & w & trail & -> & Hlead & Hs1 & Hw & Htrail).
    apply to_end_re_test.
    replace (lead ++ keyword ++ s1 ++ w ++ trail)
      with (lead ++ keyword ++ s1 ++ w ++ trail ++ [])
      by (rewrite app_nil_r; reflexivity).
    apply to_end_seq;
      [apply consumes_group, consumes_star_cls; exact Hlead|].
    apply to_end_seq; [apply consumes_lit|].
    apply to_end_seq; [apply consumes_star_cls; exact Hs1|].
    apply to_end_seq; [apply consumes_group, chain_consumes; exact Hw|].
    apply to_end_seq; [apply consumes_star_cls; exact Htrail|].
    apply to_end_eol.
Qed.

Lemma type_iff_other (line : jsstring) (t : line_type) (p : regex) :
  In (t, p) [(T_caused_by, caused_by_pattern);
             (T_suppressed, suppressed_pattern)] ->
  (type (parseStackTraceLine line) = t <-> re_test p line = true).
Proof.
  intros Hin. pose proof (re_tests_exclusive line) as Hx.
  rewrite parseStackTraceLine_type.
  cbn [STACK_TRACE_PATTERNS filter] in Hx.
  destruct Hin as [E|[E|[]]]; injection E as <- <-;
    destruct (re_test exception_pattern line), (re_test at_pattern line),
      (re_test caused_by_pattern line), (re_test suppressed_pattern line),
      (re_test more_pattern line);
    cbn [length] in Hx; try lia; split; intros; congruence.
Qed.

(** X25: the lines that the parser classifies as causes (as suppressed
    exceptions) are exactly the lines made of the keyword [Caused by:]
    ([Suppressed:]) and an exception name: an identifier character,
    identifier characters and dots, [Exception] or [Error], and possibly a
    colon, white space and a message that is not empty; white space may
    stand before the keyword, after it and at the end. *)
Theorem X25_cause_and_suppressed_lines :
  forall line : jsstring,
    (type (parseStackTraceLine line) = T_caused_by <->
     keyword_line (str "Caused by:") line) /\
    (type (parseStackTraceLine line) = T_suppressed <->
     keyword_line (str "Suppressed:") line).
Proof.
  intros line. split.
  - rewrite (@type_iff_other line T_caused_by caused_by_pattern)
      by (left; reflexivity).
    apply (keyword_pattern_iff (str "Caused by:")).
  - rewrite (@type_iff_other line T_suppressed suppressed_pattern)
      by (right; left; reflexivity).
    apply (keyword_pattern_iff (str "Suppressed:")).
Qed.

(** X26: the lines that the parser classifies as exception headers are
    exactly the lines made of a thread header ([Exception in thread ] and
    a text that is not empty) or of an exception name, with white space
    allowed before and after. *)
Theorem X26_exception_header_lines :
  forall line : jsstring,
    type (parseStackTraceLine line) = T_exception <->
    exists lead w trail : jsstring,
      line = lead ++ w ++ trail /\
      forallb is_ws lead = true /\ forallb is_ws trail = true /\
      (thread_header w \/ chain_word w).
Proof.
  intros line.
  assert (Ht : type (parseStackTraceLine line) = T_exception <->
               re_test exception_pattern line = true).
  { rewrite parseStackTraceLine_type.
    destruct (re_test exception_pattern line); [tauto|].
    destruct (re_test at_pattern line), (re_test caused_by_pattern line),
      (re_test suppressed_pattern line), (re_test more_pattern line);
      split; discriminate. }
  rewrite Ht. unfold exception_pattern. split.
  - intros H. apply re_test_true in H. destruct H as [x H].
    inversion H as [| |? ? ? m0 ? Hb H0| | | | | | |]; subst.
    inversion Hb as [| | | | | | | |? Hp0|]; subst.
    inversion H0 as [| |? ? ? m1 ? H1 H2| | | | | | |]; subst.
    inversion H2 as [| |? ? ? m2 ? H3 H4| | | | | | |]; subst.
    inversion H4 as [| |? ? ? m3 ? H5 H6| | | | | | |]; subst.
    inversion H6 as [| | | | | | | | |? Hend]; subst.
    apply Matches_Shape in H1. unfold ws in H1. cbn [Shape] in H1.
    destruct H1 as (m0 & w0 & (lead & E0 & F0 & _) & _ & E0' & _).
    cbn [rest] in E0. rewrite <- E0' in E0. clear E0'.
    inversion H3 as [| | | | | | |? ? ? s' Hg| |]; subst.
    destruct (Matches_star_cls H5) as (trail & Et & Ft & _ & _).
    cbn [set_cap rest] in Et. rewrite Hend, app_nil_r in Et.
    assert (Hw : exists w, rest m1 = w ++ rest s' /\
                           (thread_header w \/ chain_word w)).
    { inversion Hg as [| | |? ? ? ? Ha|? ? ? ? Hc| | | | |]; subst.
      - inversion Ha as [| |? ? ? m4 ? H7 H8| | | | | | |]; subst.
        apply (@Matches_lit (str "Exception in thread ")) in H7.
        apply Matches_Shape in H8. unfold Plus, any in H8. cbn [Shape] in H8.
        destruct H8 as (m5 & (a & E5 & Ha5 & _) & (msg & E6 & Hmsg & _)).
        exists (str "Exception in thread " ++ a :: msg). split.
        + rewrite H7, E5, E6, <- app_assoc. reflexivity.
        + left. exists a, msg. auto.
      - apply chain_shape in Hc. destruct Hc as (w & Ew & Hw).
        exists w. auto. }
    destruct Hw as (w & Ew & Hw).
    exists lead, w, trail. split; [|auto]. rewrite Ew, Et. reflexivity.
  - intros (lead & w & trail & -> & Hlead & Htrail & Hw).
    apply to_end_re_test.
    replace (lead ++ w ++ trail) with (lead ++ w ++ trail ++ [])
      by (rewrite app_nil_r; reflexivity).
    apply to_end_seq;
      [apply consumes_group, consumes_star_cls; exact Hlead|].
    apply to_end_seq.
    { apply consumes_group. destruct Hw as [(a & msg & -> & Ha & Hmsg)|Hw].
      - apply consumes_alt_l. apply consumes_seq; [apply consumes_lit|].
        apply consumes_plus_cls; assumption.
      - apply consumes_alt_r, chain_consumes. exact Hw. }
    apply to_end_seq; [apply consumes_star_cls; exact Htrail|].
    apply to_end_eol.
Qed.

(** ** Text without quotes and backslashes *)

Lemma Needs_sound Q r :
  Needs Q r -> forall s x, Matches r s x -> existsb Q (rest s) = true.
Proof.
  induction 1 as [c Hc|a b Ha IH|a b Hb IH|a b Ha IHa Hb IHb|n a Ha IH];
    intros s x H.
  - unfold Chr in H. inversion H as [|? ? d t Hr Hp| | | | | | | |]; subst.
    apply N.eqb_eq in Hp. subst d. rewrite Hr. cbn [existsb]. rewrite Hc.
    reflexivity.
  - inversion H as [| |? ? ? s2 ? H1 H2| | | | | | |]; subst. eauto.
  - inversion H as [| |? ? ? s2 ? H1 H2| | | | | | |]; subst.
    destruct (Matches_span H1) as (w & E & _ & _).
    rewrite E, existsb_app, (IH _ _ H2). apply orb_true_r.
  - inversion H; subst; eauto.
  - inversion H as [| | | | | | |? ? ? s' H1| |]; subst. eauto.
Qed.

Lemma existsb_skipn (Q : char -> bool) (l : jsstring) :
  forall k, existsb Q (skipn k l) = true -> existsb Q l = true.
Proof.
  induction l as [|c l IH]; intros [|k] H; cbn [skipn] in H; auto.
  cbn [existsb]. rewrite (IH _ H). apply orb_true_r.
Qed.

Lemma match_at_needs Q r (input : jsstring) :
  Needs Q r -> existsb Q input = false ->
  forall q k, match_at r q (skipn k input) = None.
Proof.
  intros Hn Hq q k.
  destruct (match_at r q (skipn k input)) as [s|] eqn:E; [|reflexivity].
  apply match_at_sound in E. apply (Needs_sound Hn) in E. cbn [rest] in E.
  apply existsb_skipn in E. congruence.
Qed.

(** A loop over a pattern that matches nowhere finds nothing. *)
Lemma exec_loop_none {A} r (body : rmatch_result -> option A) :
  forall l q,
    (forall k, match_at r (q + k) (skipn k l) = None) ->
    exec_loop r body 0 q l = NotFound.
Proof.
  induction l as [|c t IH]; intros q H; cbn [exec_loop].
  - specialize (H 0). rewrite Nat.add_0_r in H. cbn [skipn] in H.
    rewrite H. reflexivity.
  - pose proof (H 0) as H0. rewrite Nat.add_0_r in H0. cbn [skipn] in H0.
    rewrite H0. apply IH. intros k. specialize (H (S k)).
    cbn [skipn] in H. replace (S q + k) with (q + S k) by lia. exact H.
Qed.

Lemma for_patterns_none {A} (body : rmatch_result -> option A) Q input ps :
  Forall (Needs Q) ps -> existsb Q input = false ->
  for_patterns body input ps = Returns None.
Proof.
  intros Hps Hq. induction Hps as [|p ps Hp _ IH]; cbn [for_patterns];
    [reflexivity|].
  rewrite exec_loop_none; [exact IH|].
  intros k. apply (match_at_needs _ Hp Hq).
Qed.

Ltac find_needs :=
  first [ apply needs_chr; reflexivity
        | apply needs_group; find_needs
        | apply needs_seq_l; find_needs
        | apply needs_seq_r; find_needs ].

Lemma serialized_patterns_need :
  Needs is_quote_or_backslash quotedStringPattern /\
  Forall (Needs is_quote_or_backslash) incompletePatterns /\
  Forall (Needs is_quote_or_backslash) escapedPatterns.
Proof.
  split; [unfold quotedStringPattern; find_needs|].
  split; unfold incompletePatterns, escapedPatterns, esc;
    repeat (apply Forall_cons; [find_needs|]); apply Forall_nil.
Qed.

(** X27: a text without double quote and without backslash holds no
    serialized trace: none of the patterns of the three strategies can
    match in it, [extractSerializedStackTrace] returns [null], and
    [extractStackTrace] returns what its line-by-line loop collects. *)
Theorem X27_plain_text_goes_to_the_line_loop :
  forall input : jsstring,
    forallb (is_not2 c_dquote c_backslash) input = true ->
    extractSerializedStackTrace input = Returns None /\
    extractStackTrace input = Returns (extractByLines input).
Proof.
  intros input H.
  assert (Hq : existsb is_quote_or_backslash input = false).
  { clear - H. induction input as [|c l IH]; [reflexivity|].
    cbn [forallb existsb] in *. apply andb_true_iff in H.
    destruct H as [Hc Hl]. rewrite (IH Hl), orb_false_r.
    unfold is_not2 in Hc. apply negb_true_iff in Hc. exact Hc. }
  destruct serialized_patterns_need as (H1 & H2 & H3).
  assert (Hs : extractSerializedStackTrace input = Returns None).
  { unfold extractSerializedStackTrace, first_truthy,
      extractFromQuotedStrings, extractFromIncompleteJson,
      extractFromRawEscapedText.
    rewrite exec_loop_none
      by (intros k; apply (match_at_needs _ H1 Hq)).
    cbn [of_loop bind truthy].
    rewrite (for_patterns_none _ _ H2 Hq). cbn [bind truthy].
    rewrite (for_patterns_none _ _ H3 Hq). reflexivity. }
  split; [exact Hs|].
  unfold extractStackTrace. rewrite Hs. reflexivity.
Qed.

Lemma X27_plain_text_goes_to_the_line_loop_witness :
  extractSerializedStackTrace plain_example = Returns None /\
  extractStackTrace plain_example = Returns (extractByLines plain_example).
Proof.
  apply X27_plain_text_goes_to_the_line_loop. vm_compute. reflexivity.
Defined.

(** ** The default end of the extended sequence *)

(** The forward walk assigns [end] only after it has read a backslash. *)
Lemma forward_scan_needs_escape (startIndex : nat) (l : jsstring) :
  forall i inEscape e,
    forward_scan startIndex i 0 inEscape l = e ->
    e <> startIndex ->
    existsb (N.eqb c_backslash) (firstn (e - i) l) = true.
Proof.
  induction l as [|c t IH]; intros i ie e H Hne.
  - cbn [forward_scan] in H. congruence.
  - pose proof (@forward_scan_stop startIndex (c :: t) i 0 ie e H Hne)
      as (Hle & _).
    cbn [forward_scan] in H.
    assert (Hgo : forall ie',
              (if Nat.ltb (startIndex + FORWARD_CAP) i then startIndex
               else forward_scan startIndex (S i) 0 ie' t) = e ->
              existsb (N.eqb c_backslash) (firstn (e - i) (c :: t)) = true).
    { intros ie' H'.
      destruct (Nat.ltb (startIndex + FORWARD_CAP) i); [congruence|].
      pose proof (@forward_scan_stop startIndex t (S i) 0 ie' e H' Hne)
        as (Hle' & _).
      replace (e - i) with (S (e - S i)) by lia. cbn [firstn existsb].
      rewrite (IH _ _ _ H' Hne). apply orb_true_r. }
    destruct (N.eqb c c_backslash && negb ie)%bool eqn:Hb.
    + apply andb_true_iff in Hb. destruct Hb as [Hb _].
      apply N.eqb_eq in Hb. subst c.
      destruct (Nat.ltb (startIndex + FORWARD_CAP) i); [congruence|].
      pose proof (@forward_scan_stop startIndex t (S i) 1 true e H Hne)
        as (Hle' & _).
      replace (e - i) with (S (e - S i)) by lia. cbn [firstn existsb].
      rewrite N.eqb_refl. reflexivity.
    + destruct ie; [exact (Hgo _ H)|].
      change (Nat.ltb 0 0) with false in H. rewrite andb_false_r in H.
      change (Nat.leb 2 0) with false in H.
      destruct (N.eqb c c_space || N.eqb c c_tab || N.eqb c c_lf)%bool;
        exact (Hgo _ H).
Qed.

Lemma In_firstn (x : char) (l : jsstring) :
  forall n, In x (firstn n l) -> In x l.
Proof.
  induction l as [|c l IH]; intros [|n] H; cbn [firstn] in H;
    try (destruct H; fail).
  destruct H as [H|H]; [left; exact H | right; exact (IH _ H)].
Qed.

(** X28: in [extractExtendedEscapedSequence] the loop assigns [end] only
    after it has read a backslash; when no backslash stands at or after
    the start index, the end falls back to 1000 characters after the
    start index, or to the end of the input. *)
Theorem X28_extended_sequence_default_end :
  (forall (startIndex : nat) (l : jsstring),
     let e := forward_scan startIndex startIndex 0 false l in
     e <> startIndex ->
     existsb (N.eqb c_backslash) (firstn (e - startIndex) l) = true) /\
  (forall (input : jsstring) (startIndex : nat),
     forallb (is_not c_backslash) (skipn startIndex input) = true ->
     extractExtendedEscapedSequence input startIndex
     = substring (backward_walk input startIndex)
                 (Nat.min (length input) (startIndex + 1000)) input).
Proof.
  split.
  - intros startIndex l e Hne.
    exact (@forward_scan_needs_escape startIndex l startIndex false e
             eq_refl Hne).
  - intros input k Hno. unfold extractExtendedEscapedSequence.
    set (e := forward_scan k k 0 false (skipn k input)).
    assert (He : e = k).
    { destruct (Nat.eq_dec e k) as [E|Hne]; [exact E|]. exfalso.
      pose proof (@forward_scan_needs_escape k (skipn k input) k false e
                    eq_refl Hne) as Hx.
      apply existsb_exists in Hx. destruct Hx as (c & Hin & Hc).
      apply N.eqb_eq in Hc. subst c.
      apply In_firstn in Hin.
      rewrite forallb_forall in Hno. specialize (Hno _ Hin).
      vm_compute in Hno. discriminate. }
    rewrite He, Nat.leb_refl. reflexivity.
Qed.

Lemma X28_extended_sequence_default_end_witness :
  extractExtendedEscapedSequence (str "a bE x") 3
  = substring (backward_walk (str "a bE x") 3)
              (Nat.min (length (str "a bE x")) (3 + 1000)) (str "a bE x").
Proof.
  apply (proj2 X28_extended_sequence_default_end). reflexivity.
Defined.

(** ** Extracting twice *)

Lemma plain_serialized_none (input : jsstring) :
  existsb is_quote_or_backslash input = false ->
  extractStackTrace input = Returns (extractByLines input).
Proof.
  intros Hq. destruct serialized_patterns_need as (H1 & H2 & H3).
  unfold extractStackTrace, extractSerializedStackTrace, first_truthy,
    extractFromQuotedStrings, extractFromIncompleteJson,
    extractFromRawEscapedText.
  rewrite exec_loop_none by (intros k; apply (match_at_needs _ H1 Hq)).
  cbn [of_loop bind truthy].
  rewrite (for_patterns_none _ _ H2 Hq). cbn [bind truthy].
  rewrite (for_patterns_none _ _ H3 Hq). reflexivity.
Qed.

Lemma spec_lines_from_chars (P : char -> bool) :
  forall n l, length l <= n ->
  forall piece, forallb P piece = true -> forallb P l = true ->
    Forall (fun line => forallb P line = true) (spec_lines_from piece l).
Proof.
  induction n as [|n IH]; intros l Hn piece Hp Hl.
  - destruct l; [|cbn in Hn; lia]. cbn. auto.
  - destruct l as [|c t]; [cbn; auto|].
    cbn [forallb] in Hl. apply andb_true_iff in Hl. destruct Hl as [Hc Ht].
    cbn [length] in Hn.
    assert (Hpc : forallb P (piece ++ [c]) = true)
      by (rewrite forallb_app, Hp; cbn [forallb]; rewrite Hc; reflexivity).
    cbn [spec_lines_from].
    destruct (N.eqb c_cr c).
    + destruct t as [|d t']; [apply IH; auto; lia|].
      destruct (N.eqb c_lf d).
      * apply Forall_cons; [exact Hp|].
        cbn [forallb] in Ht. apply andb_true_iff in Ht.
        destruct Ht as [_ Ht']. apply IH; auto. cbn [length] in Hn. lia.
      * apply IH; auto. lia.
    + destruct (N.eqb c_lf c).
      * apply Forall_cons; [exact Hp|]. apply IH; auto. lia.
      * apply IH; auto. lia.
Qed.

Lemma forallb_join (P : char -> bool) (sep : jsstring) (ls : list jsstring) :
  forallb P sep = true ->
  Forall (fun line => forallb P line = true) ls ->
  forallb P (join sep ls) = true.
Proof.
  intros Hs. induction 1 as [|l ls Hl _ IH]; [reflexivity|].
  destruct ls as [|l' ls]; [exact Hl|].
  change (join sep (l :: l' :: ls)) with (l ++ sep ++ join sep (l' :: ls)).
  rewrite !forallb_app, Hl, Hs, IH. reflexivity.
Qed.

(** Joining lines without line breaks and splitting again gives them
    back. *)
Lemma spec_lines_join (ls : list jsstring) :
  ls <> [] ->
  Forall (fun line => forallb is_plain_char line = true /\
                      forallb (is_not c_lf) line = true) ls ->
  spec_lines (join [c_lf] ls) = ls.
Proof.
  intros Hne H. unfold spec_lines. revert Hne.
  induction H as [|l ls [Hp Hl] Hls IH]; intros Hne;
    [elim Hne; reflexivity|].
  destruct ls as [|l' ls].
  - cbn [join]. rewrite (@spec_lines_from_single l [] Hl). reflexivity.
  - change (join [c_lf] (l :: l' :: ls))
      with (l ++ c_lf :: join [c_lf] (l' :: ls)).
    destruct (@spec_lines_from_head l [] (join [c_lf] (l' :: ls)) Hl)
      as (h & E & Hh).
    rewrite E, IH by discriminate. f_equal. cbn [app] in Hh.
    destruct Hh as [->|Hh]; [reflexivity|]. exfalso.
    rewrite <- Hh, forallb_app in Hp. cbn [forallb] in Hp.
    rewrite andb_true_r in Hp. apply andb_true_iff in Hp.
    destruct Hp as [_ Hp]. vm_compute in Hp. discriminate.
Qed.

Lemma lookahead_kept (ls : list jsstring) :
  existsb isStackTraceLine (firstn 2 ls) = true ->
  existsb isStackTraceLine (firstn 2 (spec_run_tail ls)) = true.
Proof.
  destruct ls as [|a [|b r]]; cbn [firstn existsb]; intros H.
  - discriminate.
  - rewrite orb_false_r in H. cbn [spec_run_tail]. rewrite H.
    cbn [firstn existsb]. rewrite H. reflexivity.
  - rewrite orb_false_r in H.
    destruct (isStackTraceLine a) eqn:Ha.
    + cbn [spec_run_tail]. rewrite Ha. cbn [firstn existsb].
      rewrite Ha. reflexivity.
    + cbn [orb] in H.
      assert (Hk : existsb isStackTraceLine (firstn 2 (b :: r)) = true).
      { destruct r; cbn [firstn existsb]; rewrite H; reflexivity. }
      assert (Hb : spec_run_tail (b :: r) = b :: spec_run_tail r)
        by (cbn [spec_run_tail]; rewrite H; reflexivity).
      assert (Ht : spec_run_tail (a :: b :: r)
                   = a :: spec_run_tail (b :: r)).
      { change (spec_run_tail (a :: b :: r))
          with (if isStackTraceLine a then a :: spec_run_tail (b :: r)
                else if forallb is_ws a then a :: spec_run_tail (b :: r)
                else if existsb isStackTraceLine (firstn 2 (b :: r))
                     then a :: spec_run_tail (b :: r) else []).
        rewrite Ha, Hk. destruct (forallb is_ws a); reflexivity. }
      rewrite Ht, Hb. cbn [firstn existsb]. rewrite Ha, H. reflexivity.
Qed.

Lemma spec_run_tail_idem (ls : list jsstring) :
  spec_run_tail (spec_run_tail ls) = spec_run_tail ls.
Proof.
  induction ls as [|l ls IH]; [reflexivity|].
  cbn [spec_run_tail].
  destruct (isStackTraceLine l) eqn:Hl.
  { cbn [spec_run_tail]. rewrite Hl, IH. reflexivity. }
  destruct (forallb is_ws l) eqn:Hb.
  { cbn [spec_run_tail]. rewrite Hl, Hb, IH. reflexivity. }
  destruct (existsb isStackTraceLine (firstn 2 ls)) eqn:Hk; [|reflexivity].
  cbn [spec_run_tail]. rewrite Hl, Hb, (lookahead_kept _ Hk), IH.
  reflexivity.
Qed.

Lemma spec_line_run_idem (ls : list jsstring) :
  spec_line_run (spec_line_run ls) = spec_line_run ls.
Proof.
  induction ls as [|l ls IH]; [reflexivity|].
  cbn [spec_line_run].
  destruct (isStackTraceLine l) eqn:Hl; [|exact IH].
  cbn [spec_line_run]. rewrite Hl, spec_run_tail_idem. reflexivity.
Qed.

Lemma plain_not_quote (l : jsstring) :
  forallb is_plain_char l = true ->
  existsb is_quote_or_backslash l = false.
Proof.
  induction l as [|c l IH]; intros H; [reflexivity|].
  cbn [forallb existsb] in *. apply andb_true_iff in H.
  destruct H as [Hc Hl]. rewrite (IH Hl), orb_false_r.
  unfold is_plain_char in Hc. apply negb_true_iff in Hc.
  apply orb_false_iff in Hc. destruct Hc as [Hc _]. exact Hc.
Qed.

(** X29: on plain text (no double quote, no backslash, no carriage
    return), extracting is idempotent: the text that [extractStackTrace]
    returns is returned unchanged when it is given to [extractStackTrace]
    again. *)
Theorem X29_extraction_is_idempotent_on_plain_text :
  forall input : jsstring,
    forallb is_plain_char input = true ->
    exists e : jsstring,
      extractStackTrace input = Returns e /\
      extractStackTrace e = Returns e.
Proof.
  intros input Hp.
  exists (extractByLines input).
  split; [apply plain_serialized_none, plain_not_quote; exact Hp|].
  pose proof (@spec_lines_from_chars is_plain_char _ input (le_n _) []
                eq_refl Hp) as Hchars.
  pose proof (@spec_lines_from_no_lf _ input (le_n _) [] eq_refl) as Hlf.
  fold (spec_lines input) in Hchars, Hlf.
  rewrite <- split_lines_spec in Hchars, Hlf.
  set (run := spec_line_run (split_lines input)).
  assert (Hrun : Forall (fun line => forallb is_plain_char line = true /\
                                     forallb (is_not c_lf) line = true) run).
  { apply Forall_forall. intros l Hl.
    assert (Hin : In l (split_lines input)).
    { unfold run in Hl.
      destruct (spec_line_run (split_lines input)) as [|l0 more] eqn:E;
        [destruct Hl|].
      destruct (spec_line_run_head _ E) as (_ & H0 & Hm).
      destruct Hl as [<-|Hl]; auto. }
    rewrite Forall_forall in Hchars, Hlf. auto. }
  assert (He : extractByLines input = join [c_lf] run)
    by apply extractByLines_spec.
  assert (Hplain : forallb is_plain_char (join [c_lf] run) = true).
  { apply forallb_join; [reflexivity|].
    eapply Forall_impl; [|exact Hrun]. intros l [H _]. exact H. }
  rewrite He.
  rewrite (@plain_serialized_none (join [c_lf] run)
             (@plain_not_quote (join [c_lf] run) Hplain)).
  f_equal.
  rewrite extractByLines_spec, split_lines_spec.
  destruct run as [|l0 more] eqn:Er; [reflexivity|].
  rewrite spec_lines_join by (discriminate || exact Hrun).
  rewrite <- Er. unfold run. rewrite spec_line_run_idem. reflexivity.
Qed.

Lemma X29_extraction_is_idempotent_on_plain_text_witness :
  exists e : jsstring,
    extractStackTrace plain_example = Returns e /\
    extractStackTrace e = Returns e.
Proof.
  apply X29_extraction_is_idempotent_on_plain_text. vm_compute. reflexivity.
Defined.
